(** * KEP: prompt construction, robust JSON recovery and the
      classify / extract stages

    A shallow embedding of the core of the knowledge-extraction pipeline:

    - [utils/utility.py]: the text repairs and [extract_json_from_response];
    - [prompter/prompter.py] and [prompter/strategies/*.py]: [_wrap], the
      zero-shot and few-shot strategies, [Prompter.build];
    - [extractor/classifier.py] and [extractor/structurer.py]: the two
      [predict] loops.

    Python values are modelled by the inductive type [pyval]; a Python [str]
    is a list of Unicode code points.  The library routines the code calls
    ([str.strip], [str.splitlines], [re.sub], [re.findall], [json.loads],
    [json.dumps]) are written out as functions so that every definition
    runs.  Three things of the interpreter show in the results and are
    modelled with them: [json.loads] raises a plain [ValueError] on an
    integer literal of more than 4300 digits and a [RecursionError] on a
    text nested deeper than the interpreter allows, neither of which is the
    [JSONDecodeError] that the code catches; a [float] is a binary64 number,
    so sums and [round] are rounded to the nearest one; and the log file is
    written in UTF-8, which has no encoding for a lone surrogate. *)

From Stdlib Require Import List ZArith NArith String Ascii Bool Lia QArith Qround.
From Stdlib Require Import SpecFloat.
Import ListNotations.

Set Implicit Arguments.
Local Open Scope N_scope.

(* ================================================================== *)
(** ** Python strings *)
(* ================================================================== *)

Module Py.

(** A character is a Unicode code point; a [str] is a list of them. *)
Abbreviation char := N (only parsing).
Abbreviation pystr := (list N) (only parsing).

(** ASCII literals of the development are written as Rocq strings. *)
Definition str (s : string) : pystr :=
  List.map N_of_ascii (list_ascii_of_string s).

(** JSON test inputs are full of double quotes; [jq] reads a Rocq string in
    which every apostrophe stands for a double quote. *)
Definition jq (s : string) : pystr :=
  List.map (fun c => if N.eqb c 39 then 34%N else c) (str s).

Definition TAB : char := 9%N.
Definition LF : char := 10%N.
Definition CR : char := 13%N.
Definition SP : char := 32%N.
Definition DQ : char := 34%N.       (* the double quote *)
Definition COMMA : char := 44%N.
Definition COLON : char := 58%N.
Definition LBRACK : char := 91%N.
Definition BSLASH : char := 92%N.
Definition RBRACK : char := 93%N.
Definition BTICK : char := 96%N.    (* the backtick of markdown fences *)
Definition LBRACE : char := 123%N.
Definition RBRACE : char := 125%N.

Definition str_eqb (a b : pystr) : bool :=
  if list_eq_dec N.eq_dec a b then true else false.

(** [str.isspace] on one character, which is also what [\s] matches in a
    [str] pattern of the [re] module. *)
Definition is_space (c : char) : bool :=
  ((9 <=? c) && (c <=? 13)) || ((28 <=? c) && (c <=? 32))
  || (c =? 133) || (c =? 160) || (c =? 5760)
  || ((8192 <=? c) && (c <=? 8202))
  || (c =? 8232) || (c =? 8233) || (c =? 8239) || (c =? 8287)
  || (c =? 12288).

(** The line boundaries of [str.splitlines]. *)
Definition is_linebreak (c : char) : bool :=
  ((10 <=? c) && (c <=? 13)) || ((28 <=? c) && (c <=? 30))
  || (c =? 133) || (c =? 8232) || (c =? 8233).

Fixpoint drop_while (p : char -> bool) (s : pystr) : pystr :=
  match s with
  | [] => []
  | c :: r => if p c then drop_while p r else s
  end.

Definition lstrip (s : pystr) : pystr := drop_while is_space s.
Definition rstrip (s : pystr) : pystr := rev (drop_while is_space (rev s)).
Definition strip (s : pystr) : pystr := rstrip (lstrip s).

Fixpoint startswith (s prefix : pystr) {struct prefix} : bool :=
  match prefix, s with
  | [], _ => true
  | p :: prefix', c :: s' => (c =? p) && startswith s' prefix'
  | _ :: _, [] => false
  end.

Definition endswith (s suffix : pystr) : bool :=
  startswith (rev s) (rev suffix).

(** [sub in s] *)
Fixpoint contains (s sub : pystr) : bool :=
  startswith s sub ||
  match s with
  | [] => false
  | _ :: r => contains r sub
  end.

Definition count_char (c : char) (s : pystr) : nat :=
  List.length (List.filter (N.eqb c) s).

(** [sep.join(parts)] *)
Fixpoint join (sep : pystr) (parts : list pystr) : pystr :=
  match parts with
  | [] => []
  | [p] => p
  | p :: rest => p ++ sep ++ join sep rest
  end.

(** [s.replace(a, b)] for one-character [a] and [b]. *)
Definition replace_char (a b : char) (s : pystr) : pystr :=
  List.map (fun c => if c =? a then b else c) s.

(** [str.splitlines()]: [cur] is the line being read, [after_cr] tells that
    the previous character was a carriage return that closed a line, so
    that a line feed right after it belongs to the same boundary. *)
Fixpoint splitlines_aux (cur : pystr) (after_cr : bool) (s : pystr)
  : list pystr :=
  match s with
  | [] => match cur with [] => [] | _ => [cur] end
  | c :: r =>
      if (c =? LF) && after_cr then splitlines_aux [] false r
      else if is_linebreak c then cur :: splitlines_aux [] (c =? CR) r
      else splitlines_aux (cur ++ [c]) false r
  end.

Definition splitlines (s : pystr) : list pystr := splitlines_aux [] false s.

(** [str.lower()] on the ASCII letters.  The code compares lower-cased text
    with the two classification labels and with the registered strategy
    names only, and no character outside ASCII lower-cases to a letter of
    those words, so leaving the others unchanged does not change the outcome
    of any of these comparisons. *)
Definition lower_char (c : char) : char :=
  if (65 <=? c) && (c <=? 90) then c + 32 else c.
Definition lower (s : pystr) : pystr := List.map lower_char s.

(** [re.sub(CLASS+, ' ', s)]: every maximal run of characters of the class
    [p] becomes one space.  [in_run] tells that the previous character was
    of the class. *)
Fixpoint sub_runs (p : char -> bool) (in_run : bool) (s : pystr) : pystr :=
  match s with
  | [] => []
  | c :: r =>
      if p c then (if in_run then sub_runs p true r
                   else SP :: sub_runs p true r)
      else c :: sub_runs p false r
  end.

(** Decimal digits of a natural number, most significant first. *)
Definition digit_char (d : N) : char := 48 + d.

Fixpoint digits_fuel (fuel : nat) (n : N) (acc : pystr) : pystr :=
  match fuel with
  | O => acc
  | S f =>
      let acc' := digit_char (n mod 10) :: acc in
      if n / 10 =? 0 then acc' else digits_fuel f (n / 10) acc'
  end.

Definition digits (n : N) : pystr := digits_fuel (S (N.to_nat (N.log2 n))) n [].

(** [str(z)] for an integer. *)
Definition str_of_Z (z : Z) : pystr :=
  match z with
  | Z0 => str "0"
  | Zpos p => digits (Npos p)
  | Zneg p => 45 :: digits (Npos p)
  end.

End Py.
Import Py.

(* ================================================================== *)
(** ** Python values *)
(* ================================================================== *)

(** A Python [float]: a binary64 number.  A finite one is given by its
    exact value, a rational in lowest terms (the sign of zero is not kept);
    [Float.RN] below rounds a rational to the nearest of them. *)
Inductive pyfloat : Type :=
| FNum (q : Q)
| FNan
| FInf (negative : bool).

Module Float.

(** The binary64 format of IEEE 754. *)
Definition prec : Z := 53.
Definition emax : Z := 1024.

Definition of_spec (x : spec_float) : pyfloat :=
  match x with
  | S754_zero _ => FNum 0
  | S754_infinity s => FInf s
  | S754_nan => FNan
  | S754_finite s m e =>
      FNum (Qred (inject_Z (if s then Zneg m else Zpos m) * Qpower (2 # 1) e))
  end.

(** Round to nearest, ties to even: the float that [float("...")] makes of
    a decimal literal, that a sum of two floats is, and that [float(n)]
    makes of an integer.  Past the largest finite float the result is an
    infinity.  The quotient of numerator and denominator is rounded once,
    by the division of the Standard Library's specification of floats. *)
Definition RN (q : Q) : pyfloat :=
  match Qnum q with
  | Z0 => FNum 0
  | Zpos n =>
      of_spec (SFdiv prec emax (S754_finite false n 0)
                 (S754_finite false (Qden q) 0))
  | Zneg n =>
      of_spec (SFdiv prec emax (S754_finite true n 0)
                 (S754_finite false (Qden q) 0))
  end.

(** [a + b] on floats. *)
Definition add (a b : pyfloat) : pyfloat :=
  match a, b with
  | FNan, _ | _, FNan => FNan
  | FInf s, FInf s' => if Bool.eqb s s' then FInf s else FNan
  | FInf s, FNum _ => FInf s
  | FNum _, FInf s => FInf s
  | FNum x, FNum y => RN (x + y)
  end.

End Float.

(** The values that flow through the pipeline: what [json.loads] builds from
    a schema file, a paragraph file or an LLM answer, and the records the
    stages build.  A [dict] keeps its insertion order, as Python's does. *)
#[local] Unset Elimination Schemes.
Inductive pyval : Type :=
| PNone
| PBool (b : bool)
| PInt (z : Z)
| PFloat (f : pyfloat)
| PStr (s : pystr)
| PList (l : list pyval)
| PDict (d : list (pystr * pyval)).
#[local] Set Elimination Schemes.

Abbreviation pydict := (list (pystr * pyval)) (only parsing).

(** The exceptions that the modelled code lets escape. *)
Inductive pyerror : Type :=
| MissingExamples      (* ValueError of FewShot._select_examples *)
| UnknownStrategy      (* ValueError of get_strategy_cls *)
| TemplateNotFound     (* FileNotFoundError of Prompter.__init__ *)
| TemplateNotAList     (* ValueError of Prompter.__init__ *)
| TypeError
| AttributeError
| ValueError           (* of int(): more than 4300 digits, in json.loads *)
| RecursionError       (* nesting too deep for the interpreter, in json.loads *)
| UnicodeEncodeError.  (* a lone surrogate written to the UTF-8 log file *)

Inductive result (A : Type) : Type :=
| Ok (a : A)
| Raise (e : pyerror).
Arguments Raise {A} e.

Definition bind {A B} (m : result A) (k : A -> result B) : result B :=
  match m with
  | Ok a => k a
  | Raise e => Raise e
  end.

Notation "x <- m ;; k" := (bind m (fun x => k))
  (at level 61, m at next level, right associativity).

Module Dict.

(** [d.get(k)]; Python's [None] for a missing key is [None] here too. *)
Fixpoint get (d : pydict) (k : pystr) : option pyval :=
  match d with
  | [] => None
  | (k', v) :: r => if str_eqb k' k then Some v else get r k
  end.

(** [d[k] = v]: an existing key keeps its place, a new one goes last. *)
Fixpoint set (d : pydict) (k : pystr) (v : pyval) : pydict :=
  match d with
  | [] => [(k, v)]
  | (k', v') :: r =>
      if str_eqb k' k then (k', v) :: r else (k', v') :: set r k v
  end.

(** [d.update(other)] *)
Definition update (d other : pydict) : pydict :=
  fold_left (fun acc kv => set acc (fst kv) (snd kv)) other d.

Definition keys (d : pydict) : list pystr := List.map fst d.

End Dict.

(** Truth value of a Python object, as [or], [if] and [not] test it. *)
Definition truthy (v : pyval) : bool :=
  match v with
  | PNone => false
  | PBool b => b
  | PInt z => negb (Z.eqb z 0)
  | PFloat (FNum q) => negb (Qeq_bool q 0)
  | PFloat _ => true
  | PStr s => match s with [] => false | _ => true end
  | PList l => match l with [] => false | _ => true end
  | PDict d => match d with [] => false | _ => true end
  end.

(** [a or b] *)
Definition py_or (a b : pyval) : pyval := if truthy a then a else b.

(** [d.get(k)] as a Python value. *)
Definition get_or_none (d : pydict) (k : pystr) : pyval :=
  match Dict.get d k with Some v => v | None => PNone end.

(** [d.get(k, default)] *)
Definition get_default (d : pydict) (k : pystr) (default : pyval) : pyval :=
  match Dict.get d k with Some v => v | None => default end.

(* ================================================================== *)
(** ** [json.loads] *)
(* ================================================================== *)

(** The decoder of the [json] module with its default settings (strict
    strings, [NaN] and [Infinity] accepted, objects built as [dict], so that
    a repeated key keeps its first place and its last value).  A text that
    is not JSON is rejected with a [JSONDecodeError].  Two other exceptions
    come out of the decoder: the [ValueError] of [int] when an integer
    literal has more than 4300 digits (the interpreter's limit on the
    conversion between [str] and [int]), and the [RecursionError] that the
    scanner raises when it enters an object or an array deeper than the
    interpreter allows at that moment; how deep that is depends on the
    interpreter and on the call stack, and is the parameter [max_depth] of
    [loads]. *)
Module Json.

(** Outcome of a scanning function: a value and the text after it, a
    [JSONDecodeError], not enough fuel for the length of the text, or
    another exception. *)
Inductive scan (A : Type) : Type :=
| Scanned (a : A) (rest : pystr)
| Invalid
| NoFuel
| Escaped (e : pyerror).
Arguments Invalid {A}.
Arguments NoFuel {A}.
Arguments Escaped {A} e.

(** [sys.int_info.default_max_str_digits] *)
Definition MAX_STR_DIGITS : nat := 4300.

Definition is_ws (c : char) : bool :=
  (c =? SP) || (c =? TAB) || (c =? LF) || (c =? CR).

Definition skip_ws (s : pystr) : pystr := drop_while is_ws s.

Definition is_digit (c : char) : bool := (48 <=? c) && (c <=? 57).

Definition hex_val (c : char) : option N :=
  if is_digit c then Some (c - 48)
  else if (97 <=? c) && (c <=? 102) then Some (c - 87)
  else if (65 <=? c) && (c <=? 70) then Some (c - 55)
  else None.

Definition hex4 (a b c d : char) : option N :=
  match hex_val a, hex_val b, hex_val c, hex_val d with
  | Some x, Some y, Some z, Some w => Some (((x * 16 + y) * 16 + z) * 16 + w)
  | _, _, _, _ => None
  end.

(** The one-letter escapes after a backslash. *)
Definition unescape (c : char) : option char :=
  if c =? DQ then Some DQ
  else if c =? BSLASH then Some BSLASH
  else if c =? 47 then Some 47        (* / *)
  else if c =? 98 then Some 8         (* b *)
  else if c =? 102 then Some 12       (* f *)
  else if c =? 110 then Some LF       (* n *)
  else if c =? 114 then Some CR       (* r *)
  else if c =? 116 then Some TAB      (* t *)
  else None.

Definition is_high_surrogate (u : N) : bool := (55296 <=? u) && (u <=? 56319).
Definition is_low_surrogate (u : N) : bool := (56320 <=? u) && (u <=? 57343).
Definition join_surrogates (hi lo : N) : N :=
  65536 + (((hi - 55296) * 1024) + (lo - 56320)).

(** [scanstring]: the text right after an opening quote, up to and
    including the closing one.  [acc] is the decoded content so far. *)
Fixpoint scanstring (acc : pystr) (s : pystr) : option (pystr * pystr) :=
  match s with
  | [] => None
  | c :: r =>
      if c =? DQ then Some (acc, r)
      else if c =? BSLASH then
        match r with
        | [] => None
        | e :: r1 =>
            if e =? 117 then                      (* \uXXXX *)
              match r1 with
              | h1 :: h2 :: h3 :: h4 :: r2 =>
                  match hex4 h1 h2 h3 h4 with
                  | None => None
                  | Some u =>
                      match r2 with
                      | b :: u' :: g1 :: g2 :: g3 :: g4 :: r3 =>
                          (* a surrogate pair written as two escapes *)
                          match hex4 g1 g2 g3 g4 with
                          | Some lo =>
                              if is_high_surrogate u && (b =? BSLASH)
                                 && (u' =? 117) && is_low_surrogate lo
                              then scanstring
                                     (acc ++ [join_surrogates u lo]) r3
                              else scanstring (acc ++ [u]) r2
                          | None => scanstring (acc ++ [u]) r2
                          end
                      | _ => scanstring (acc ++ [u]) r2
                      end
                  end
              | _ => None
              end
            else
              match unescape e with
              | Some d => scanstring (acc ++ [d]) r1
              | None => None
              end
        end
      else if c <=? 31 then None                  (* control character *)
      else scanstring (acc ++ [c]) r
  end.

Fixpoint span_digits (s : pystr) : pystr * pystr :=
  match s with
  | c :: r =>
      if is_digit c then let (ds, rest) := span_digits r in (c :: ds, rest)
      else ([], s)
  | [] => ([], [])
  end.

Definition nat_of_digits (ds : pystr) : N :=
  fold_left (fun acc c => acc * 10 + (c - 48)) ds 0.

(** The value of [mantissa * 10 ^ scale]. *)
Definition decimal (negative : bool) (mantissa : N) (scale : Z) : Q :=
  let m := Z.of_N mantissa in
  Qred (inject_Z (if negative then - m else m) * Qpower (10 # 1) scale)%Q.

(** The integer part of a number: [0] or a digit string without a leading
    zero. *)
Definition int_part (s : pystr) : option (pystr * pystr) :=
  match s with
  | c :: r =>
      if (49 <=? c) && (c <=? 57) then
        let (ds, rest) := span_digits r in Some (c :: ds, rest)
      else if c =? 48 then Some ([c], r)
      else None
  | [] => None
  end.

(** The fraction, when a dot and a digit follow. *)
Definition frac_part (s : pystr) : option (pystr * pystr) :=
  match s with
  | dot :: d :: r =>
      if (dot =? 46) && is_digit d then Some (span_digits (d :: r)) else None
  | _ => None
  end.

(** The optional sign of an exponent. *)
Definition exp_sign (r : pystr) : bool * pystr :=
  match r with
  | sg :: r' =>
      if sg =? 45 then (true, r')
      else if sg =? 43 then (false, r') else (false, r)
  | [] => (false, r)
  end.

(** The exponent; the scan backs off when no digit follows the [e]. *)
Definition exp_part (s : pystr) : option (Z * pystr) :=
  match s with
  | e :: r =>
      if (e =? 101) || (e =? 69) then
        let (negative, r1) := exp_sign r in
        match span_digits r1 with
        | ([], _) => None
        | (ds, rest) =>
            let n := Z.of_N (nat_of_digits ds) in
            Some ((if negative then - n else n)%Z, rest)
        end
      else None
  | [] => None
  end.

(** A number: [int(...)] of the literal when it has neither fraction nor
    exponent, [float(...)] otherwise. *)
Definition match_number (s : pystr) : scan pyval :=
  let (negative, s1) :=
    match s with
    | c :: r => if c =? 45 then (true, r) else (false, s)
    | [] => (false, s)
    end in
  match int_part s1 with
  | None => Invalid
  | Some (ip, r1) =>
      let (fp, r2) :=
        match frac_part r1 with
        | Some (fp, r2) => (Some fp, r2)
        | None => (None, r1)
        end in
      let (ep, r3) :=
        match exp_part r2 with
        | Some (e, r3) => (Some e, r3)
        | None => (None, r2)
        end in
      match fp, ep with
      | None, None =>
          if (MAX_STR_DIGITS <? List.length ip)%nat then Escaped ValueError
          else
            let n := Z.of_N (nat_of_digits ip) in
            Scanned (PInt (if negative then - n else n)%Z) r3
      | _, _ =>
          let fd := match fp with Some d => d | None => [] end in
          let e := match ep with Some e => e | None => 0%Z end in
          Scanned (PFloat (Float.RN (decimal negative (nat_of_digits (ip ++ fd))
                                       (e - Z.of_nat (List.length fd))))) r3
      end
  end.

(** A fixed word at the head of the text. *)
Definition keyword (w : string) (v : pyval) (s : pystr)
  : option (pyval * pystr) :=
  if startswith s (str w) then Some (v, skipn (String.length w) s) else None.

Definition of_option {A} (o : option (A * pystr)) : scan A :=
  match o with
  | Some (a, r) => Scanned a r
  | None => Invalid
  end.

(** [scan_once] with the object and array loops.  [members] is entered at
    the quote of a key, [elements] at the start of an item.  [depth] is the
    number of objects and arrays, one inside the other, that the scanner
    may still enter. *)
Fixpoint scan_once (fuel depth : nat) (s : pystr) {struct fuel} : scan pyval :=
  match fuel with
  | O => NoFuel
  | S f =>
      match s with
      | [] => Invalid
      | c :: r =>
          if c =? DQ then
            match scanstring [] r with
            | Some (x, rest) => Scanned (PStr x) rest
            | None => Invalid
            end
          else if c =? LBRACE then
            match depth with
            | O => Escaped RecursionError
            | S inner =>
                match skip_ws r with
                | c1 :: r1 =>
                    if c1 =? RBRACE then Scanned (PDict []) r1
                    else members f inner (skip_ws r) []
                | [] => Invalid
                end
            end
          else if c =? LBRACK then
            match depth with
            | O => Escaped RecursionError
            | S inner =>
                match skip_ws r with
                | c1 :: r1 =>
                    if c1 =? RBRACK then Scanned (PList []) r1
                    else elements f inner (skip_ws r) []
                | [] => Invalid
                end
            end
          else if (c =? 110) && startswith s (str "null") then
            of_option (keyword "null" PNone s)
          else if (c =? 116) && startswith s (str "true") then
            of_option (keyword "true" (PBool true) s)
          else if (c =? 102) && startswith s (str "false") then
            of_option (keyword "false" (PBool false) s)
          else if (c =? 78) && startswith s (str "NaN") then
            of_option (keyword "NaN" (PFloat FNan) s)
          else if (c =? 73) && startswith s (str "Infinity") then
            of_option (keyword "Infinity" (PFloat (FInf false)) s)
          else if (c =? 45) && startswith s (str "-Infinity") then
            of_option (keyword "-Infinity" (PFloat (FInf true)) s)
          else match_number s
      end
  end

with members (fuel depth : nat) (s : pystr) (acc : pydict) {struct fuel}
  : scan pyval :=
  match fuel with
  | O => NoFuel
  | S f =>
      match s with
      | [] => Invalid
      | c :: r =>
          if c =? DQ then
            match scanstring [] r with
            | None => Invalid
            | Some (key, r1) =>
                match skip_ws r1 with
                | c2 :: r2 =>
                    if c2 =? COLON then
                      match scan_once f depth (skip_ws r2) with
                      | Scanned v r3 =>
                          let acc' := Dict.set acc key v in
                          match skip_ws r3 with
                          | c3 :: r4 =>
                              if c3 =? RBRACE then Scanned (PDict acc') r4
                              else if c3 =? COMMA
                              then members f depth (skip_ws r4) acc'
                              else Invalid
                          | [] => Invalid
                          end
                      | Invalid => Invalid
                      | NoFuel => NoFuel
                      | Escaped e => Escaped e
                      end
                    else Invalid
                | [] => Invalid
                end
            end
          else Invalid
      end
  end

with elements (fuel depth : nat) (s : pystr) (acc : list pyval) {struct fuel}
  : scan pyval :=
  match fuel with
  | O => NoFuel
  | S f =>
      match scan_once f depth s with
      | Scanned v r1 =>
          let acc' := acc ++ [v] in
          match skip_ws r1 with
          | c :: r2 =>
              if c =? RBRACK then Scanned (PList acc') r2
              else if c =? COMMA then elements f depth (skip_ws r2) acc'
              else Invalid
          | [] => Invalid
          end
      | Invalid => Invalid
      | NoFuel => NoFuel
      | Escaped e => Escaped e
      end
  end.

(** What a call of [json.loads] does: it returns a value, raises the
    [JSONDecodeError] that callers catch, or raises something else. *)
Inductive decoded : Type :=
| Decoded (v : pyval)
| DecodeError
| Raised (e : pyerror).

(** [json.loads(s)].  Each level of nesting takes two units of fuel and at
    least one character, so the fuel given here is never used up
    ([loads_has_fuel] below). *)
Definition loads (max_depth : nat) (s : pystr) : decoded :=
  if startswith s [65279] then DecodeError      (* byte order mark *)
  else
    match scan_once (S (2 * List.length s)) max_depth (skip_ws s) with
    | Scanned v rest =>
        match skip_ws rest with
        | [] => Decoded v
        | _ :: _ => DecodeError                 (* extra data *)
        end
    | Escaped e => Raised e
    | Invalid | NoFuel => DecodeError
    end.

End Json.

(* ================================================================== *)
(** ** [utils/utility.py] *)
(* ================================================================== *)

Module Utility.

Definition is_close (c : char) : bool := (c =? RBRACE) || (c =? RBRACK).

(** [re.sub(r',\s*([\}\]])', r'\1', s)]: a comma that is followed, after any
    white space, by a closing brace or bracket goes away together with that
    white space.  In [skipping] mode the white space of such a match is
    being dropped; the bracket that ends it is then copied as any other
    character. *)
Fixpoint clean_trailing_commas_from (skipping : bool) (s : pystr) : pystr :=
  match s with
  | [] => []
  | c :: r =>
      if skipping && is_space c then clean_trailing_commas_from true r
      else if (c =? COMMA) &&
              match drop_while is_space r with
              | b :: _ => is_close b
              | [] => false
              end
      then clean_trailing_commas_from true r
      else c :: clean_trailing_commas_from false r
  end.

Definition clean_trailing_commas (s : pystr) : pystr :=
  clean_trailing_commas_from false s.

Definition fix_missing_braces (s : pystr) : pystr :=
  let open_braces := count_char LBRACE s in
  let close_braces := count_char RBRACE s in
  if (close_braces <? open_braces)%nat
  then s ++ repeat RBRACE (open_braces - close_braces)
  else s.

(** The [while] loop of [fix_missing_commas_between_keys]: the index of the
    last line before [i] that is not blank. *)
Fixpoint last_nonblank (lines : list pystr) (i : nat) : option nat :=
  match i with
  | O => None
  | S j =>
      match strip (nth j lines []) with
      | _ :: _ => Some j
      | [] => last_nonblank lines j
      end
  end.

(** [fixed_lines[-1] = fixed_lines[-1].rstrip() + ','] unless it ends with a
    comma already. *)
Definition add_comma_to_last (fixed_lines : list pystr) : list pystr :=
  match rev fixed_lines with
  | [] => fixed_lines
  | l :: before =>
      if endswith (rstrip l) [COMMA] then fixed_lines
      else rev before ++ [rstrip l ++ [COMMA]]
  end.

Fixpoint fix_missing_commas_loop (lines : list pystr) (i : nat)
    (todo fixed_lines : list pystr) : list pystr :=
  match todo with
  | [] => fixed_lines
  | line :: todo' =>
      let fixed_lines' :=
        if (0 <? i)%nat && startswith (lstrip line) [DQ] then
          match last_nonblank lines i with
          | Some _ => add_comma_to_last fixed_lines
          | None => fixed_lines
          end
        else fixed_lines in
      fix_missing_commas_loop lines (S i) todo' (fixed_lines' ++ [line])
  end.

Definition fix_missing_commas_between_keys (s : pystr) : pystr :=
  let lines := splitlines s in
  join [LF] (fix_missing_commas_loop lines 0 lines []).

(** The six repair lines that [extract_json_from_response] applies to every
    candidate (the source repeats them in each of its three tiers). *)
Definition repair (candidate : pystr) : pystr :=
  let cleaned :=
    sub_runs (fun c => (c =? LF) || (c =? CR) || (c =? TAB)) false candidate in
  let cleaned := sub_runs is_space false cleaned in
  let cleaned := replace_char 8221 DQ (replace_char 8220 DQ cleaned) in
  let cleaned := fix_missing_commas_between_keys cleaned in
  let cleaned := clean_trailing_commas cleaned in
  fix_missing_braces cleaned.

Definition fence : pystr := [BTICK; BTICK; BTICK].

(** The lazy group [(\{.*?\})] and what follows it in the markdown pattern:
    [acc] is the group read so far; the group ends at the first closing
    brace after which, white space skipped, the closing fence stands.
    Returns the group and the text after the closing fence. *)
Fixpoint fenced_body (acc : pystr) (t : pystr) : option (pystr * pystr) :=
  match t with
  | [] => None
  | c :: r =>
      if (c =? RBRACE) && startswith (drop_while is_space r) fence
      then Some (acc ++ [c], skipn 3 (drop_while is_space r))
      else fenced_body (acc ++ [c]) r
  end.

(** [\s*(\{.*?\})\s*```] at the head of [t]. *)
Definition fenced_rest (t : pystr) : option (pystr * pystr) :=
  match drop_while is_space t with
  | c :: r => if c =? LBRACE then fenced_body [c] r else None
  | [] => None
  end.

(** The whole pattern [```(?:json)?\s*(\{.*?\})\s*```] at the head of [t]:
    the group and the length of the match.  The optional [json] is tried
    first and given up when the rest does not match with it. *)
Definition match_markdown (t : pystr) : option (pystr * nat) :=
  if startswith t fence then
    let t1 := skipn 3 t in
    let attempt :=
      match (if startswith t1 (str "json") then fenced_rest (skipn 4 t1)
             else None) with
      | Some m => Some m
      | None => fenced_rest t1
      end in
    match attempt with
    | Some (group, after) =>
        Some (group, (List.length t - List.length after)%nat)
    | None => None
    end
  else None.

(** [re.findall(markdown_pattern, text, re.DOTALL)]: the groups of the
    matches from left to right, without overlap.  [skip] counts the
    characters of the last match that are still to be passed. *)
Fixpoint findall_markdown_from (skip : nat) (t : pystr) : list pystr :=
  match t with
  | [] => []
  | _ :: r =>
      match skip with
      | S k => findall_markdown_from k r
      | O =>
          match match_markdown t with
          | Some (group, n) => group :: findall_markdown_from (n - 1) r
          | None => findall_markdown_from 0 r
          end
      end
  end.

Definition findall_markdown (text : pystr) : list pystr :=
  findall_markdown_from 0 text.

Section Extraction.

(** How many objects and arrays, one inside the other, [json.loads] can
    enter before the interpreter raises [RecursionError]. *)
Variable max_depth : nat.

(** The loop over [markdown_matches]: a [JSONDecodeError] is caught and the
    loop goes on; any other exception of [json.loads] leaves the
    function. *)
Fixpoint fenced_blocks (markdown_matches : list pystr)
  : result (list pyval) :=
  match markdown_matches with
  | [] => Ok []
  | m :: rest =>
      match Json.loads max_depth (repair (strip m)) with
      | Json.Decoded json_obj =>
          json_blocks <- fenced_blocks rest ;; Ok (json_obj :: json_blocks)
      | Json.DecodeError => fenced_blocks rest
      | Json.Raised e => Raise e
      end
  end.

(** [text[a:b]] *)
Definition slice (text : pystr) (a b : nat) : pystr :=
  firstn (b - a) (skipn a text).

(** The brace-counting loop: [i] is the index of the head of [todo] in
    [response_text]. *)
Fixpoint brace_scan (response_text : pystr) (i : nat) (todo : pystr)
    (brace_count : Z) (json_start : option nat) (json_blocks : list pyval)
  : result (list pyval) :=
  match todo with
  | [] => Ok json_blocks
  | char :: todo' =>
      if char =? LBRACE then
        brace_scan response_text (S i) todo' (brace_count + 1)
          (if (brace_count =? 0)%Z then Some i else json_start) json_blocks
      else if char =? RBRACE then
        let brace_count := (brace_count - 1)%Z in
        match (brace_count =? 0)%Z, json_start with
        | true, Some start =>
            let json_block := slice response_text start (i + 1) in
            match Json.loads max_depth (repair json_block) with
            | Json.Decoded json_obj =>
                brace_scan response_text (S i) todo' brace_count None
                  (json_blocks ++ [json_obj])
            | Json.DecodeError => (* [continue]: json_start is not reset *)
                brace_scan response_text (S i) todo' brace_count json_start
                  json_blocks
            | Json.Raised e => Raise e
            end
        | _, _ =>
            brace_scan response_text (S i) todo' brace_count json_start
              json_blocks
        end
      else
        brace_scan response_text (S i) todo' brace_count json_start
          json_blocks
  end.

Definition brace_blocks (response_text : pystr) : result (list pyval) :=
  brace_scan response_text 0 response_text 0%Z None [].

Definition is_dict (v : pyval) : bool :=
  match v with PDict _ => true | _ => false end.

(** [merged = {}; for block in json_blocks: merged.update(block)] *)
Definition merge_blocks (json_blocks : list pyval) : pydict :=
  fold_left
    (fun merged block =>
       match block with
       | PDict d => Dict.update merged d
       | _ => merged
       end)
    json_blocks [].

Definition no_valid_json : pyval :=
  PDict [(str "error", PStr (str "No valid JSON found"))].

(** The last tier: the whole text wrapped in braces. *)
Definition wrap_tier (response_text : pystr) : result pyval :=
  let cleaned_response := strip response_text in
  if negb (startswith cleaned_response [LBRACE])
     && contains cleaned_response [COLON]
  then
    match Json.loads max_depth
            (repair ([LBRACE] ++ cleaned_response ++ [RBRACE])) with
    | Json.Decoded json_obj => Ok json_obj
    | Json.DecodeError => Ok no_valid_json
    | Json.Raised e => Raise e
    end
  else Ok no_valid_json.

(** The result, or the exception other than [JSONDecodeError] that
    [json.loads] raised on one of the candidates. *)
Definition extract_json_from_response (response_text : pystr)
  : result pyval :=
  let markdown_matches := findall_markdown response_text in
  json_blocks <-
    match markdown_matches with
    | _ :: _ => fenced_blocks markdown_matches
    | [] => brace_blocks response_text
    end ;;
  match json_blocks with
  | [] => wrap_tier response_text
  | [block] => Ok block
  | _ =>
      if forallb is_dict json_blocks
      then Ok (PDict (merge_blocks json_blocks))
      else Ok (PList json_blocks)
  end.

End Extraction.

End Utility.

(* ================================================================== *)
(** ** The pipeline proper *)
(* ================================================================== *)

(** What a template file of [prompter/templates/] holds once
    [yaml.safe_load] has read it: a list of placeholder names, or something
    else. *)
Inductive yaml_doc : Type :=
| YList (order : list pystr)
| YOther.

Inductive strategy : Type := ZeroShot | FewShot | Raw.

(** What one call of [llm.inference(prompt)["generated_text"]] does: it
    returns a text, and [time.time() - start_time] is then the float
    [seconds]; or it raises an exception [e], of which [message] is
    [str(e)]. *)
Inductive reply : Type :=
| Generated (text : pystr) (seconds : Q)
| Failed (message : pystr).

(** What the stages write through their [FileLogger]. *)
Inductive event : Type :=
| PhaseStarted (phase : pystr) (total : nat)
| PhaseFinished (phase : pystr)
| BasePrompt (prompt : pystr)
| InferenceFailed (message : pystr)
| InvalidLabel (label : pystr)
| DebugPrompt (idx : nat) (prompt : pystr)
| DebugRaw (idx : nat) (raw : pystr).

(** The part of a log line that comes from the data; the rest of every
    line is fixed text, a time stamp and a number. *)
Definition message_of (e : event) : pystr :=
  match e with
  | PhaseStarted _ _ | PhaseFinished _ => []
  | BasePrompt prompt => prompt
  | InferenceFailed message => message
  | InvalidLabel label => label
  | DebugPrompt _ prompt => prompt
  | DebugRaw _ raw => raw
  end.

(** The code points that UTF-8 cannot encode. *)
Definition is_surrogate (c : char) : bool := (55296 <=? c) && (c <=? 57343).

Definition encodable (s : pystr) : bool :=
  forallb (fun c => negb (is_surrogate c)) s.

(** [FileLogger._write]: the line is written to a file opened with
    [encoding="utf-8"]; a lone surrogate in it raises
    [UnicodeEncodeError]. *)
Definition write (log : list event) (e : event) : result (list event) :=
  if encodable (message_of e) then Ok (log ++ [e])
  else Raise UnicodeEncodeError.

Section Pipeline.

(** Three things come from outside the repository's Python code and are
    left open: how Python prints a finite [float] ([float.__repr__]), how
    it prints a list or a dict ([repr]), and the files of the template
    directory. *)
Variable float_repr : Q -> pystr.
Variable container_repr : pyval -> pystr.
Variable template_dir : pystr -> option yaml_doc.

(** A fourth is the depth to which [json.loads] can follow the nesting of
    a text before the interpreter raises [RecursionError]. *)
Variable max_depth : nat.

(* ---------------------------------------------------------------- *)
(** *** [json.dumps] *)

Definition hex_digit (d : N) : char := if d <? 10 then 48 + d else 87 + d.

(** ['\\u{0:04x}'.format(n)] *)
Definition u_escape (n : N) : pystr :=
  [BSLASH; 117; hex_digit (n / 4096 mod 16); hex_digit (n / 256 mod 16);
   hex_digit (n / 16 mod 16); hex_digit (n mod 16)].

Definition escape_char (ensure_ascii : bool) (c : char) : pystr :=
  if c =? DQ then [BSLASH; DQ]
  else if c =? BSLASH then [BSLASH; BSLASH]
  else if c =? LF then [BSLASH; 110]
  else if c =? CR then [BSLASH; 114]
  else if c =? TAB then [BSLASH; 116]
  else if c =? 8 then [BSLASH; 98]
  else if c =? 12 then [BSLASH; 102]
  else if c <? 32 then u_escape c
  else if ensure_ascii && (126 <? c) then
    if c <? 65536 then u_escape c
    else
      let v := c - 65536 in
      u_escape (55296 + (v / 1024) mod 1024) ++ u_escape (56320 + v mod 1024)
  else [c].

Definition encode_basestring (ensure_ascii : bool) (s : pystr) : pystr :=
  [DQ] ++ flat_map (escape_char ensure_ascii) s ++ [DQ].

Definition dumps_float (f : pyfloat) : pystr :=
  match f with
  | FNum q => float_repr q
  | FNan => str "NaN"
  | FInf false => str "Infinity"
  | FInf true => str "-Infinity"
  end.

(** The line break and indentation in front of an item at nesting depth
    [level], when an indent is asked for. *)
Definition newline_indent (indent : option nat) (level : nat) : pystr :=
  match indent with
  | Some n => LF :: repeat SP (n * level)
  | None => []
  end.

Definition item_separator (indent : option nat) : pystr :=
  match indent with
  | Some _ => [COMMA]
  | None => [COMMA; SP]
  end.

Fixpoint encode (indent : option nat) (ensure_ascii : bool) (level : nat)
    (v : pyval) {struct v} : pystr :=
  match v with
  | PNone => str "null"
  | PBool true => str "true"
  | PBool false => str "false"
  | PInt z => str_of_Z z
  | PFloat f => dumps_float f
  | PStr s => encode_basestring ensure_ascii s
  | PList [] => str "[]"
  | PList l =>
      [LBRACK] ++ newline_indent indent (S level)
      ++ join (item_separator indent ++ newline_indent indent (S level))
           (List.map (encode indent ensure_ascii (S level)) l)
      ++ newline_indent indent level ++ [RBRACK]
  | PDict [] => str "{}"
  | PDict d =>
      [LBRACE] ++ newline_indent indent (S level)
      ++ join (item_separator indent ++ newline_indent indent (S level))
           (List.map
              (fun kv =>
                 encode_basestring ensure_ascii (fst kv) ++ [COLON; SP]
                 ++ encode indent ensure_ascii (S level) (snd kv)) d)
      ++ newline_indent indent level ++ [RBRACE]
  end.

(** [json.dumps(v, indent=indent, ensure_ascii=ensure_ascii)] *)
Definition dumps (indent : option nat) (ensure_ascii : bool) (v : pyval)
  : pystr :=
  encode indent ensure_ascii 0 v.

(** [str(v)] *)
Definition py_str (v : pyval) : pystr :=
  match v with
  | PStr s => s
  | PNone => str "None"
  | PBool true => str "True"
  | PBool false => str "False"
  | PInt z => str_of_Z z
  | PFloat (FNum q) => float_repr q
  | PFloat FNan => str "nan"
  | PFloat (FInf false) => str "inf"
  | PFloat (FInf true) => str "-inf"
  | PList _ | PDict _ => container_repr v
  end.

(** ["\n".join(l)] for a list [l]: every item must be a [str]. *)
Fixpoint str_items (l : list pyval) : result (list pystr) :=
  match l with
  | [] => Ok []
  | PStr s :: r => rest <- str_items r ;; Ok (s :: rest)
  | _ :: _ => Raise TypeError
  end.

(** ["\n".join(v)] for any value: a [str] is joined character by character,
    a [dict] by its keys. *)
Definition join_lines (v : pyval) : result pystr :=
  match v with
  | PList l => items <- str_items l ;; Ok (join [LF] items)
  | PStr s => Ok (join [LF] (List.map (fun c => [c]) s))
  | PDict d => Ok (join [LF] (Dict.keys d))
  | _ => Raise TypeError
  end.

(* ---------------------------------------------------------------- *)
(** *** [prompter/prompter.py] and the strategies *)

Definition json_or_str (value : pyval) : pystr :=
  match value with
  | PStr s => s
  | _ => dumps (Some 2%nat) false value
  end.

Definition _wrap (placeholder : pystr) (value : pyval) : result pystr :=
  match value with
  | PNone | PStr [] => Ok []
  | _ =>
      match (if str_eqb placeholder (str "INSTRUCTIONS") then
               match value with
               | PList l => Some l
               | _ => None
               end
             else None) with
      | Some l => items <- str_items l ;; Ok (join [LF] items)
      | None =>
          if str_eqb placeholder (str "SCHEMAS") then
            Ok (str "Schema:" ++ [LF] ++ json_or_str value)
          else if str_eqb placeholder (str "EXAMPLE")
                  || str_eqb placeholder (str "EXAMPLES") then
            Ok (str "Examples:" ++ [LF] ++ json_or_str value)
          else Ok (py_str value)
      end
  end.

(** The registry that the [register_strategy] decorators fill. *)
Definition get_strategy_cls (name : pystr) : result strategy :=
  let key := lower name in
  if str_eqb key (str "zero") then Ok ZeroShot
  else if str_eqb key (str "few") then Ok FewShot
  else if str_eqb key (str "raw") then Ok Raw
  else Raise UnknownStrategy.

Definition FewShot__select_examples (ph : pydict) : result pyval :=
  let inside :=
    py_or (get_or_none ph (str "EXAMPLES"))
      (py_or (get_or_none ph (str "examples"))
         (py_or (get_or_none ph (str "EXAMPLE"))
            (py_or (get_or_none ph (str "example")) (PList [])))) in
  if truthy inside then Ok inside else Raise MissingExamples.

Definition placeholder_values (s : strategy) (ph : pydict) : result pydict :=
  match s with
  | ZeroShot =>
      Ok [(str "PERSONA", get_default ph (str "PERSONA") (PStr []));
          (str "TASK", get_default ph (str "TASK") (PStr []));
          (str "INSTRUCTIONS", get_default ph (str "INSTRUCTIONS") (PList []));
          (str "SCHEMAS", get_default ph (str "SCHEMAS") (PDict []))]
          (* EXAMPLE intentionally omitted in zero-shot *)
  | FewShot =>
      examples <- FewShot__select_examples ph ;;
      instructions <-
        join_lines (get_default ph (str "INSTRUCTIONS") (PList [])) ;;
      Ok [(str "PERSONA", get_default ph (str "PERSONA") (PStr []));
          (str "TASK", get_default ph (str "TASK") (PStr []));
          (str "INSTRUCTIONS", PStr instructions);
          (str "SCHEMAS",
           PStr (dumps (Some 2%nat) true
                   (get_default ph (str "SCHEMAS") (PDict []))));
          (str "EXAMPLE", PStr (dumps (Some 2%nat) false examples))]
  | Raw =>
      Ok [(str "PROMPT", get_default ph (str "PROMPT") (PStr []))]
  end.

Record Prompter : Type := {
  _ph : pydict;
  _strategy : strategy;
  _order : list pystr
}.

(** [Prompter.__init__] for a schema that is already a [dict]. *)
Definition Prompter_init (schema_json : pydict) (strategy_name : pystr)
  : result Prompter :=
  strat_cls <- get_strategy_cls strategy_name ;;
  let cand := [strategy_name ++ str ".yaml";
               lower strategy_name ++ str "_shot.yaml"] in
  match
    List.find (fun p => match template_dir p with Some _ => true | None => false end)
      cand
  with
  | None => Raise TemplateNotFound
  | Some tpl_path =>
      match template_dir tpl_path with
      | Some (YList order) =>
          Ok {| _ph := schema_json; _strategy := strat_cls; _order := order |}
      | _ => Raise TemplateNotAList
      end
  end.

(** [values.setdefault(k, v)] *)
Definition setdefault (d : pydict) (k : pystr) (v : pyval) : pydict :=
  match Dict.get d k with
  | Some _ => d
  | None => d ++ [(k, v)]
  end.

(** The [for key in self._order] loop of [build]. *)
Fixpoint build_sections (values ph : pydict) (order : list pystr)
    (sections : list pystr) : result (list pystr) :=
  match order with
  | [] => Ok sections
  | key :: order' =>
      let content := py_or (get_or_none values key) (get_or_none ph key) in
      part <- _wrap key content ;;
      build_sections values ph order'
        (match part with [] => sections | _ => sections ++ [part] end)
  end.

Definition Prompter_build (self : Prompter) : result pystr :=
  values <- placeholder_values (_strategy self) (_ph self) ;;
  let values :=
    setdefault values (str "TASK")
      (get_default (_ph self) (str "TASK") (PStr [])) in
  sections <- build_sections values (_ph self) (_order self) [] ;;
  Ok (strip (join [LF; LF] sections)).

(* ---------------------------------------------------------------- *)
(** *** [extractor/classifier.py] and [extractor/structurer.py] *)

(** [round(x, 2)] on an exact rational: to the nearest hundredth, a tie to
    the even one. *)
Definition round2 (x : Q) : Q :=
  let y := (x * (100 # 1))%Q in
  let f := Qfloor y in
  let d := (y - inject_Z f)%Q in
  let n :=
    match Qcompare d (1 # 2) with
    | Lt => f
    | Gt => (f + 1)%Z
    | Eq => if Z.even f then f else (f + 1)%Z
    end in
  Qred (inject_Z n / (100 # 1))%Q.

(** The state of a stage object: both classes keep the same three
    attributes (the LLM client, the logger and the metadata recorder are
    the environment). *)
Record stage : Type := {
  base_prompt : pystr;
  prompt_logged : bool;
  debug_io : bool
}.

(** [Classifier.__init__] and [Structurer.__init__], after the LLM client
    is created: the base prompt is built once, here. *)
Definition stage_init (schema_file : pydict) (prompt_mode : pystr)
    (debug : bool) : result stage :=
  prompter <- Prompter_init schema_file prompt_mode ;;
  prompt <- Prompter_build prompter ;;
  Ok {| base_prompt := prompt; prompt_logged := false; debug_io := debug |}.

Definition Structurer___init__ := stage_init.

(** [(item.get("Text") or item.get("text") or "").strip()] *)
Definition item_text (item : pydict) : result pystr :=
  match py_or (py_or (get_or_none item (str "Text"))
                 (get_or_none item (str "text"))) (PStr []) with
  | PStr s => Ok (strip s)
  | _ => Raise AttributeError
  end.

(** The f-string that appends the paragraph to the base prompt. *)
Definition item_prompt (base text : pystr) : pystr :=
  base ++ [LF; LF] ++ jq "'text': '" ++ text ++ [DQ].

(** [parsed.get(k)]: only a [dict] has the method. *)
Definition get_method (parsed : pyval) (k : pystr) : result pyval :=
  match parsed with
  | PDict d => Ok (get_or_none d k)
  | _ => Raise AttributeError
  end.

(** [(parsed.get("classification") or "").lower().strip()] *)
Definition read_label (parsed : pyval) : result pystr :=
  v <- get_method parsed (str "classification") ;;
  match py_or v (PStr []) with
  | PStr s => Ok (strip (lower s))
  | _ => Raise AttributeError
  end.

Definition valid_label (label : pystr) : bool :=
  str_eqb label (str "relevant") || str_eqb label (str "irrelevant").

(** [{**item, k1: v1, ...}] *)
Definition extend (item : pydict) (fields : pydict) : pydict :=
  Dict.update item fields.

Definition classification_record (item : pydict) (label raw prompt : pystr)
    (duration : pyval) : pydict :=
  extend item
    [(str "classification", PStr label); (str "raw_output", PStr raw);
     (str "prompt", PStr prompt); (str "duration", duration)].

(** The variables that the loop of [Classifier.predict] updates. *)
Record cls_state : Type := {
  full : list pydict;
  relevant : list pydict;
  cls_logged : bool;
  cls_log : list event
}.

Definition log_base_prompt (logged : bool) (base : pystr) (log : list event)
  : result (list event) :=
  if logged then Ok log else write log (BasePrompt base).

Definition log_debug (debug : bool) (idx : nat) (prompt raw : pystr)
    (log : list event) : result (list event) :=
  if debug then
    log <- write log (DebugPrompt idx prompt) ;; write log (DebugRaw idx raw)
  else Ok log.

(** [round(x, 2)] on a float: the value is rounded to the nearest
    hundredth as a decimal, and the float nearest to that is returned. *)
Definition round2_float (x : pyfloat) : pyfloat :=
  match x with
  | FNum q => Float.RN (round2 q)
  | _ => x
  end.

(** The [try] block of [Classifier.predict] and its handler: the answer and
    the duration, or the empty answer and no duration after the failure was
    logged. *)
Definition Classifier_try (llm : nat -> pystr -> reply) (idx : nat)
    (prompt : pystr) (log : list event)
  : result (pystr * pyval * list event) :=
  match llm idx prompt with
  | Generated text seconds =>
      Ok (text, PFloat (round2_float (FNum seconds)), log)
  | Failed message =>
      log <- write log (InferenceFailed message) ;; Ok ([], PNone, log)
  end.

(** The check of the label: another one is logged and replaced. *)
Definition force_label (label : pystr) (log : list event)
  : result (pystr * list event) :=
  if valid_label label then Ok (label, log)
  else log <- write log (InvalidLabel label) ;; Ok (str "irrelevant", log).

Fixpoint Classifier_loop (self : stage) (llm : nat -> pystr -> reply)
    (idx : nat) (todo : list pydict) (st : cls_state) : result cls_state :=
  match todo with
  | [] => Ok st
  | item :: todo' =>
      text <- item_text item ;;
      let prompt := item_prompt (base_prompt self) text in
      log <- log_base_prompt (cls_logged st) (base_prompt self)
               (cls_log st) ;;
      answer <- Classifier_try llm idx prompt log ;;
      let '(raw, duration, log) := answer in
      log <- log_debug (debug_io self) idx prompt raw log ;;
      parsed <- Utility.extract_json_from_response max_depth raw ;;
      label <- read_label parsed ;;
      checked <- force_label label log ;;
      let '(label, log) := checked in
      let rec := classification_record item label raw prompt duration in
      Classifier_loop self llm (S idx) todo'
        {| full := full st ++ [rec];
           relevant := if str_eqb label (str "relevant")
                       then relevant st ++ [rec] else relevant st;
           cls_logged := true;
           cls_log := log |}
  end.

(** A run of [Classifier.predict]: the three values it returns, the stage
    object afterwards and what was logged. *)
Definition Classifier_run (self : stage) (llm : nat -> pystr -> reply)
    (dataset : list pydict)
  : result ((list pydict * list pydict * pystr) * stage * list event) :=
  let started := [PhaseStarted (str "classification") (List.length dataset)] in
  st <- Classifier_loop self llm 0 dataset
          {| full := []; relevant := []; cls_logged := prompt_logged self;
             cls_log := started |} ;;
  Ok ((full st, relevant st, base_prompt self),
      {| base_prompt := base_prompt self; prompt_logged := cls_logged st;
         debug_io := debug_io self |},
      cls_log st ++ [PhaseFinished (str "classification")]).

Definition Classifier_predict (self : stage) (llm : nat -> pystr -> reply)
    (dataset : list pydict) : result (list pydict * list pydict * pystr) :=
  out <- Classifier_run self llm dataset ;;
  Ok (fst (fst out)).

(** [type(v).__name__] *)
Definition type_name (v : pyval) : pystr :=
  match v with
  | PNone => str "NoneType"
  | PBool _ => str "bool"
  | PInt _ => str "int"
  | PFloat _ => str "float"
  | PStr _ => str "str"
  | PList _ => str "list"
  | PDict _ => str "dict"
  end.

(** [float(z)] as the addition of a float and an integer makes it:
    [OverflowError] when the integer is past the largest float. *)
Definition float_of_int (z : Z) : option Q :=
  match Float.RN (inject_Z z) with
  | FNum q => Some q
  | _ => None
  end.

(** [elapsed + item.get("duration")], where [elapsed] is a finite float:
    the sum, or the message of the [TypeError] or [OverflowError] that
    Python raises. *)
Definition add_duration (elapsed : Q) (upstream : pyval)
  : pyfloat + pystr :=
  match upstream with
  | PInt z =>
      match float_of_int z with
      | Some q => inl (Float.add (FNum elapsed) (FNum q))
      | None => inr (str "int too large to convert to float")
      end
  | PBool b =>
      inl (Float.add (FNum elapsed) (FNum (inject_Z (if b then 1 else 0))))
  | PFloat f => inl (Float.add (FNum elapsed) f)
  | _ =>
      inr (str "unsupported operand type(s) for +: 'float' and '"
           ++ type_name upstream ++ str "'")
  end.

Definition extraction_record (item : pydict) (extracted : pyval)
    (raw prompt : pystr) (duration : pyval) : pydict :=
  extend item
    [(str "data", extracted); (str "raw_output", PStr raw);
     (str "prompt", PStr prompt); (str "duration", duration)].

Record ext_state : Type := {
  results : list pydict;
  ext_logged : bool;
  ext_log : list event
}.

(** The [try] block of [Structurer.predict]: the answer and the duration,
    or the message of the exception.  The addition of the upstream duration
    stands inside the block, so its [TypeError] or [OverflowError] is
    caught by the same handler as a failure of the call. *)
Definition Structurer_try (llm : nat -> pystr -> reply) (idx : nat)
    (prompt : pystr) (item : pydict) : (pystr * pyval) + pystr :=
  match llm idx prompt with
  | Generated text seconds =>
      match add_duration seconds (get_or_none item (str "duration")) with
      | inl total => inl (text, PFloat (round2_float total))
      | inr message => inr message
      end
  | Failed message => inr message
  end.

(** The block with its handler. *)
Definition Structurer_answer (llm : nat -> pystr -> reply) (idx : nat)
    (prompt : pystr) (item : pydict) (log : list event)
  : result (pystr * pyval * list event) :=
  match Structurer_try llm idx prompt item with
  | inl (raw, duration) => Ok (raw, duration, log)
  | inr message =>
      log <- write log (InferenceFailed message) ;; Ok ([], PNone, log)
  end.

Fixpoint Structurer_loop (self : stage) (llm : nat -> pystr -> reply)
    (idx : nat) (todo : list pydict) (st : ext_state) : result ext_state :=
  match todo with
  | [] => Ok st
  | item :: todo' =>
      text <- item_text item ;;
      let prompt := item_prompt (base_prompt self) text in
      log <- log_base_prompt (ext_logged st) (base_prompt self)
               (ext_log st) ;;
      answer <- Structurer_answer llm idx prompt item log ;;
      let '(raw, duration, log) := answer in
      log <- log_debug (debug_io self) idx prompt raw log ;;
      extracted <- Utility.extract_json_from_response max_depth raw ;;
      Structurer_loop self llm (S idx) todo'
        {| results := results st
                      ++ [extraction_record item extracted raw prompt duration];
           ext_logged := true;
           ext_log := log |}
  end.

Definition Structurer_run (self : stage) (llm : nat -> pystr -> reply)
    (dataset : list pydict)
  : result ((list pydict * pystr) * stage * list event) :=
  let started := [PhaseStarted (str "extraction") (List.length dataset)] in
  st <- Structurer_loop self llm 0 dataset
          {| results := []; ext_logged := prompt_logged self;
             ext_log := started |} ;;
  Ok ((results st, base_prompt self),
      {| base_prompt := base_prompt self; prompt_logged := ext_logged st;
         debug_io := debug_io self |},
      ext_log st ++ [PhaseFinished (str "extraction")]).

Definition Structurer_predict (self : stage) (llm : nat -> pystr -> reply)
    (dataset : list pydict) : result (list pydict * pystr) :=
  out <- Structurer_run self llm dataset ;;
  Ok (fst (fst out)).

End Pipeline.

(* ================================================================== *)
(** ** Vocabulary of the statements *)
(* ================================================================== *)

(** The label stored in a record. *)
Definition classification_of (rec : pydict) : option pyval :=
  Dict.get rec (str "classification").

Definition is_relevant (rec : pydict) : bool :=
  match classification_of rec with
  | Some (PStr l) => str_eqb l (str "relevant")
  | _ => false
  end.

(** A record of the classification stage made from [item]: it carries one
    of the two labels, and its duration is a number unless the call failed,
    in which case the label is "irrelevant". *)
Definition classified_from (item rec : pydict) : Prop :=
  exists label raw prompt duration,
    valid_label label = true /\
    ((exists seconds, duration = PFloat (round2_float (FNum seconds))) \/
     (duration = PNone /\ label = str "irrelevant")) /\
    rec = classification_record item label raw prompt duration.


(** A text of a single line. *)
Definition no_linebreak (s : pystr) : Prop :=
  Forall (fun c => is_linebreak c = false) s.

(** The first three repair lines of [extract_json_from_response]. *)
Definition collapse (candidate : pystr) : pystr :=
  replace_char 8221 DQ
    (replace_char 8220 DQ
       (sub_runs is_space false
          (sub_runs (fun c => (c =? LF) || (c =? CR) || (c =? TAB)) false
             candidate))).


(** The blocks of the two scanning tiers. *)
Definition tier_blocks (max_depth : nat) (response_text : pystr)
  : result (list pyval) :=
  match Utility.findall_markdown response_text with
  | _ :: _ =>
      Utility.fenced_blocks max_depth (Utility.findall_markdown response_text)
  | [] => Utility.brace_blocks max_depth response_text
  end.


(** A field that holds a text when it holds anything: a [str], or a value
    that [or] passes over. *)
Definition text_or_falsy (v : pyval) : Prop :=
  truthy v = false \/ exists s, v = PStr s.

(** A paragraph of the data model: its text, under either spelling of the
    key, is a string. *)
Definition is_paragraph (item : pydict) : Prop :=
  text_or_falsy (get_or_none item (str "Text")) /\
  text_or_falsy (get_or_none item (str "text")).

(** The log lines that a stage writes about its prompt and, with
    [debug_io], about the texts of [dataset] can be encoded. *)
Definition writes_log (self : stage) (dataset : list pydict) : Prop :=
  encodable (base_prompt self) = true /\
  (debug_io self = true ->
   Forall (fun item => forall text,
               item_text item = Ok text -> encodable text = true) dataset).

(** An LLM that the classification stage gets through: the message of a
    failure can be logged; an answer can be logged when [debug] asks for
    it, the extractor returns on it, the label read from the result is a
    text, and that label is one of the two or can be logged. *)
Definition classifiable (max_depth : nat) (debug : bool)
    (llm : nat -> pystr -> reply) : Prop :=
  forall idx prompt,
    match llm idx prompt with
    | Generated answer _ =>
        (debug = true -> encodable answer = true) /\
        exists parsed label,
          Utility.extract_json_from_response max_depth answer = Ok parsed /\
          read_label parsed = Ok label /\
          (valid_label label = true \/ encodable label = true)
    | Failed message => encodable message = true
    end.

(** An LLM that the extraction stage gets through. *)
Definition extractable (max_depth : nat) (debug : bool)
    (llm : nat -> pystr -> reply) : Prop :=
  forall idx prompt,
    match llm idx prompt with
    | Generated answer _ =>
        (debug = true -> encodable answer = true) /\
        exists data,
          Utility.extract_json_from_response max_depth answer = Ok data
    | Failed message => encodable message = true
    end.

(** A record of the extraction stage made from [item]. *)
Definition extracted_from (item rec : pydict) : Prop :=
  exists data raw prompt duration,
    rec = extraction_record item data raw prompt duration.

(** The record that the extraction stage makes of [item] at position
    [idx]: from the answer and the duration of the [try] block, or, after
    an exception in it, from the empty answer. *)
Definition extracted_at (max_depth : nat) (self : stage)
    (llm : nat -> pystr -> reply) (idx : nat) (item rec : pydict) : Prop :=
  exists text,
    item_text item = Ok text /\
    let prompt := item_prompt (base_prompt self) text in
    match Structurer_try llm idx prompt item with
    | inl (raw, duration) =>
        exists data,
          Utility.extract_json_from_response max_depth raw = Ok data /\
          rec = extraction_record item data raw prompt duration
    | inr _ =>
        rec = extraction_record item Utility.no_valid_json [] prompt PNone
    end.




(* ================================================================== *)
(** ** Concrete inputs *)
(* ================================================================== *)

(** A markdown fence. *)
Definition fenced (body : pystr) : pystr :=
  str "```json" ++ [LF] ++ body ++ [LF] ++ str "```".

Definition demo_stage : stage :=
  {| base_prompt := str "Classify the paragraph.";
     prompt_logged := false;
     debug_io := false |}.

Definition demo_paragraphs : list pydict :=
  [ [(str "Source", PStr (str "a.pdf"));
     (str "Text", PStr (str "Perovskite cells reach 25 percent."))];
    [(str "Source", PStr (str "a.pdf"));
     (str "Text", PStr (str "Acknowledgements"))] ].

(** An LLM that answers the first call with a fenced label after a second
    and a half, and whose later calls fail. *)
Definition demo_llm (idx : nat) (prompt : pystr) : reply :=
  match idx with
  | O => Generated (fenced (jq "{'classification': 'Relevant'}")) (3 # 2)
  | S _ => Failed (str "timed out")
  end.

(** An LLM that never answers. *)
Definition dead_llm (idx : nat) (prompt : pystr) : reply :=
  Failed (str "timed out").

(** An LLM whose second answer holds an integer of 4301 digits. *)
Definition long_integer_answer : pystr :=
  jq "{'cells': " ++ repeat 49 4301 ++ str "}".

Definition long_integer_llm (idx : nat) (prompt : pystr) : reply :=
  match idx with
  | O => Generated (jq "{'efficiency': '25 percent'}") (1 # 8)
  | S _ => Generated long_integer_answer (1 # 8)
  end.

(** An LLM whose second answer carries a number where the label should
    be. *)
Definition numeric_label_llm (idx : nat) (prompt : pystr) : reply :=
  match idx with
  | O => Generated (jq "{'classification': 'relevant'}") 1
  | S _ => Generated (jq "{'classification': 1}") 1
  end.

(** A stage whose base prompt does not matter. *)
Definition demo_structurer : stage :=
  {| base_prompt := str "Extract the fields.";
     prompt_logged := false;
     debug_io := false |}.

(** A relevant record whose classification took one second. *)
Definition one_second_item : pydict :=
  classification_record
    [(str "Source", PStr (str "a.pdf"));
     (str "Text", PStr (str "Perovskite cells reach 25 percent."))]
    (str "relevant") (jq "{'classification': 'relevant'}")
    (str "Classify the paragraph.") (PFloat (FNum 1)).

(** An LLM that answers every call after an eighth of a second. *)
Definition eighth_llm (idx : nat) (prompt : pystr) : reply :=
  Generated (jq "{'efficiency': '25 percent'}") (1 # 8).

(** The schema of Scenario E. *)
Definition scenario_schema : pydict :=
  [(str "PERSONA", PStr (str "X"));
   (str "TASK", PStr (str "Y"));
   (str "INSTRUCTIONS", PList [PStr (str "a"); PStr (str "b")]);
   (str "SCHEMAS", PDict [(str "f", PStr (str "desc"))])].

(** The same schema with one example. *)
Definition schema_with_example : pydict :=
  scenario_schema ++
  [(str "EXAMPLE",
    PList [PDict [(str "text", PStr (str "t"));
                  (str "classification", PStr (str "relevant"))]])].


(** A template directory in which both strategies use the order of
    Scenario E. *)
Definition scenario_templates (path : pystr) : option yaml_doc :=
  if str_eqb path (str "zero_shot.yaml") || str_eqb path (str "few_shot.yaml")
  then Some (YList [str "PERSONA"; str "TASK"; str "INSTRUCTIONS";
                    str "SCHEMAS"; str "EXAMPLE"])
  else None.

(** [Prompter(schema_json=schema, strategy=name).build()] *)
Definition prompt_of (float_repr : Q -> pystr) (container_repr : pyval -> pystr)
    (template_dir : pystr -> option yaml_doc) (schema : pydict)
    (strategy_name : pystr) : result pystr :=
  prompter <- Prompter_init template_dir schema strategy_name ;;
  Prompter_build float_repr container_repr prompter.

(** The zero-shot prompt of [schema_with_example]. *)
Definition leaked_prompt : pystr :=
  str "X" ++ [LF; LF] ++ str "Y" ++ [LF; LF] ++ str "a" ++ [LF] ++ str "b"
  ++ [LF; LF] ++ str "Schema:" ++ [LF] ++ str "{" ++ [LF]
  ++ jq "  'f': 'desc'" ++ [LF] ++ str "}"
  ++ [LF; LF] ++ str "Examples:" ++ [LF] ++ str "[" ++ [LF]
  ++ str "  {" ++ [LF]
  ++ jq "    'text': 't'," ++ [LF]
  ++ jq "    'classification': 'relevant'" ++ [LF]
  ++ str "  }" ++ [LF] ++ str "]".



(** The text of Scenario B: two lines of bare key-value pairs. *)
Definition scenario_b : pystr := jq "key1: 'a'" ++ [LF] ++ jq "key2: 'b'".

(** The object that Scenario B expects. *)
Definition scenario_b_object : pyval :=
  PDict [(str "key1", PStr (str "a")); (str "key2", PStr (str "b"))].

(** The same pairs as JSON members: quoted keys, a comma between them. *)
Definition quoted_pairs : pystr := jq "'key1': 'a', 'key2': 'b'".

(** How [extract_json_from_response] turns the blocks of a tier into its
    result when every block is an object. *)
Definition result_of_blocks (max_depth : nat) (json_blocks : list pyval)
    (response_text : pystr) : result pyval :=
  match json_blocks with
  | [] => Utility.wrap_tier max_depth response_text
  | [block] => Ok block
  | _ => Ok (PDict (Utility.merge_blocks json_blocks))
  end.

(* ---------------------------------------------------------------- *)
(** *** Objects that survive a second extraction *)





Fixpoint unique_keys (d : pydict) : bool :=
  match d with
  | [] => true
  | (k, _) :: r => negb (existsb (str_eqb k) (Dict.keys r)) && unique_keys r
  end.

(** A value whose objects have each key once, as every Python [dict] has. *)
Fixpoint well_keyed (v : pyval) : bool :=
  match v with
  | PList l => forallb well_keyed l
  | PDict d => forallb (fun kv => well_keyed (snd kv)) d && unique_keys d
  | _ => true
  end.

Definition balanced (s : pystr) : Prop :=
  count_char LBRACE s = count_char RBRACE s.








From Stdlib Require Import Lqa.

(* ================================================================== *)
(** ** Further vocabulary for the text repairs *)
(* ================================================================== *)

(** A comma of [s] after which, white space skipped, a character of the
    class [p] stands. *)
Fixpoint has_comma_before (p : char -> bool) (s : pystr) : bool :=
  match s with
  | [] => false
  | c :: r =>
      ((c =? COMMA) &&
       match drop_while is_space r with
       | b :: _ => p b
       | [] => false
       end)
      || has_comma_before p r
  end.

(** A comma in front of a closing brace or bracket: what
    [clean_trailing_commas] looks for. *)
Definition has_trailing_comma (s : pystr) : bool :=
  has_comma_before Utility.is_close s.

(** Two commas with nothing but white space between them. *)
Definition has_double_comma (s : pystr) : bool :=
  has_comma_before (fun c => c =? COMMA) s.

(** What is left of a text when its commas and its white space are taken
    out. *)
Definition substance (s : pystr) : pystr :=
  List.filter (fun c => negb ((c =? COMMA) || is_space c)) s.

(** The line that the comma insertion makes of the line [l] in front of a
    key: [l.rstrip() + ','], unless a comma ends it already. *)
Definition with_comma (l : pystr) : pystr :=
  if endswith (rstrip l) [COMMA] then l else rstrip l ++ [COMMA].

(** A line with nothing but white space. *)
Definition is_blank (l : pystr) : bool :=
  match strip l with [] => true | _ :: _ => false end.

(** Line [i] is followed by a line that opens with a quote, and the lines
    up to it are not all blank. *)
Definition key_follows (lines : list pystr) (i : nat) : bool :=
  (S i <? List.length lines)%nat
  && startswith (lstrip (nth (S i) lines [])) [DQ]
  && existsb (fun l => negb (is_blank l)) (firstn (S i) lines).

(** An object written one member a line, without the commas. *)
Definition unpunctuated_object : pystr :=
  str "{" ++ [LF] ++ jq "  'a': 1" ++ [LF] ++ jq "  'b': 2" ++ [LF] ++ str "}".

(** The value that the last of the blocks with the key [k] holds under
    it. *)
Fixpoint last_binding (blocks : list pyval) (k : pystr) : option pyval :=
  match blocks with
  | [] => None
  | block :: rest =>
      match last_binding rest k with
      | Some v => Some v
      | None =>
          match block with
          | PDict d => Dict.get d k
          | _ => None
          end
      end
  end.

(** An answer with two fenced objects that both give a label. *)
Definition two_fenced_answers : pystr :=
  fenced (jq "{'classification': 'relevant', 'reason': 'efficiency'}")
  ++ str " or rather " ++ fenced (jq "{'classification': 'irrelevant'}").

(** An answer that was cut off before its closing brace. *)
Definition truncated_answer : pystr := jq "{'classification': 'relevant'".

(** A text in which no closing brace occurs. *)
Definition no_closing_brace (t : pystr) : bool :=
  forallb (fun c => negb (c =? RBRACE)) t.

(* ================================================================== *)
(** ** [utils/utility.py]: the evaluation helpers *)
(* ================================================================== *)

(** [normalize_value]: [None] and the texts "none" and "null", in any case
    and with white space around, become the empty text.  No character
    outside ASCII lower-cases to a letter of these two words, so [lower]
    decides the comparison as [str.lower] does. *)
Definition normalize_value (val : pyval) : pyval :=
  match val with
  | PNone => PStr []
  | PStr s =>
      if str_eqb (lower (strip s)) (str "none")
         || str_eqb (lower (strip s)) (str "null")
      then PStr []
      else val
  | _ => val
  end.

(** A leaf of a flattened JSON value: the tuple of the keys that lead to it
    and, last, the text of the value.  All its parts are of type [str], as
    [flatten_json] builds them. *)
Abbreviation leaf := (list (list N)) (only parsing).

Definition leaf_eq_dec (a b : leaf) : {a = b} + {a <> b} :=
  list_eq_dec (list_eq_dec N.eq_dec) a b.

(** [any(normalize_value(x) for x in t)] *)
Definition has_content (t : leaf) : bool :=
  existsb (fun x => truthy (normalize_value (PStr x))) t.

(** [{t for t in leaves if any(normalize_value(x) for x in t)}]: a Python
    set is a list here, taken up to the order and the repetition of its
    items; the comprehension keeps one copy of each. *)
Definition leaf_set (leaves : list leaf) : list leaf :=
  nodup leaf_eq_dec (List.filter has_content leaves).

Definition member (t : leaf) (s : list leaf) : bool :=
  if in_dec leaf_eq_dec t s then true else false.

(** [a.intersection(b)] *)
Definition intersection (a b : list leaf) : list leaf :=
  List.filter (fun t => member t b) a.

(** [a / b] for two lengths, [b] not zero; the float is idealised as the
    exact quotient. *)
Definition ratio (a b : nat) : Q := (Z.of_nat a # Pos.of_nat b)%Q.

(** [calculate_metrics]: precision, recall and F1 (the logging call apart). *)
Definition calculate_metrics (gold_norms pred_norms : list leaf) : Q * Q * Q :=
  let gold_norms := leaf_set gold_norms in
  let pred_norms := leaf_set pred_norms in
  let correct := intersection gold_norms pred_norms in
  let precision :=
    match pred_norms with
    | _ :: _ => ratio (List.length correct) (List.length pred_norms)
    | [] => match gold_norms with [] => 1%Q | _ :: _ => 0%Q end
    end in
  let recall :=
    match gold_norms with
    | _ :: _ => ratio (List.length correct) (List.length gold_norms)
    | [] => match pred_norms with [] => 1%Q | _ :: _ => 0%Q end
    end in
  let f1 :=
    if Qeq_bool (precision + recall) 0 then 0%Q
    else (2 * precision * recall / (precision + recall))%Q in
  (precision, recall, f1).

(** Two lists that stand for the same set. *)
Definition same_set (a b : list leaf) : Prop := forall t, In t a <-> In t b.

Section Evaluation.

Variable float_repr : Q -> pystr.
Variable container_repr : pyval -> pystr.

(** [flatten_json]: the set of the leaves of a JSON value.  A key is a
    [str] already, so [str(k)] is the key. *)
Fixpoint flatten_json (obj : pyval) (prefix : list pystr) {struct obj}
  : list (list pystr) :=
  match obj with
  | PDict d =>
      flat_map (fun kv => flatten_json (snd kv) (prefix ++ [fst kv])) d
  | PList l => flat_map (fun elem => flatten_json elem prefix) l
  | _ => [prefix ++ [py_str float_repr container_repr obj]]
  end.

End Evaluation.

(** [sanitize_path_segment]: the characters that the pattern
    [[^a-zA-Z0-9_\-]] does not match stay, every other one becomes an
    underscore. *)
Definition is_path_safe (c : char) : bool :=
  ((97 <=? c) && (c <=? 122)) || ((65 <=? c) && (c <=? 90))
  || ((48 <=? c) && (c <=? 57)) || (c =? 95) || (c =? 45).

Definition sanitize_path_segment (name : pystr) : pystr :=
  List.map (fun c => if is_path_safe c then c else 95) name.

(** The three numbers of [calculate_metrics] in terms of the sizes of the
    set of correct leaves, of the gold set and of the predicted set. *)
Definition metrics_of_counts (correct gold pred : nat) : Q * Q * Q :=
  let precision :=
    match pred with
    | S _ => ratio correct pred
    | O => match gold with O => 1%Q | S _ => 0%Q end
    end in
  let recall :=
    match gold with
    | S _ => ratio correct gold
    | O => match pred with O => 1%Q | S _ => 0%Q end
    end in
  let f1 :=
    if Qeq_bool (precision + recall) 0 then 0%Q
    else (2 * precision * recall / (precision + recall))%Q in
  (precision, recall, f1).

(** A gold standard and a prediction with the same two leaves, listed in
    another order and one of them twice. *)
Definition gold_leaves : list (list pystr) :=
  [[str "material"; str "perovskite"]; [str "efficiency"; str "25"]].

Definition pred_leaves : list (list pystr) :=
  [[str "efficiency"; str "25"]; [str "material"; str "perovskite"];
   [str "efficiency"; str "25"]].

(** A prediction with a list field, and the same prediction with the items
    of the list in another order and one of them twice. *)
Definition listed_materials : pyval :=
  PDict [(str "materials", PList [PStr (str "perovskite"); PStr (str "silicon")]);
         (str "year", PInt 2024)].

Definition relisted_materials : pyval :=
  PDict [(str "materials",
          PList [PStr (str "silicon"); PStr (str "perovskite");
                 PStr (str "silicon")]);
         (str "year", PInt 2024)].

(* ================================================================== *)
(** ** [utils/utility.py]: the experiment folders *)
(* ================================================================== *)

Section Experiments.

(** The decimal digits of Unicode and their values: the characters that
    [\d] matches in a [str] pattern, and that [int] reads. *)
Variable decimal_value : char -> option N.

(** [re.match(r"^(\d{3})_", name)] followed by [int(match.group(1))]. *)
Definition experiment_number (name : pystr) : option N :=
  match name with
  | a :: b :: c :: u :: _ =>
      match decimal_value a, decimal_value b, decimal_value c with
      | Some x, Some y, Some z =>
          if u =? 95 then Some ((x * 10 + y) * 10 + z) else None
      | _, _, _ => None
      end
  | _ => None
  end.

(** The loop over [experiments_dir.iterdir()]: an entry is a name and
    whether it is a directory. *)
Definition experiment_numbers (entries : list (pystr * bool)) : list N :=
  flat_map
    (fun subf : pystr * bool =>
       if snd subf then
         match experiment_number (fst subf) with
         | Some n => [n]
         | None => []
         end
       else [])
    entries.

(** [f"{n:03d}"] *)
Definition format_03d (n : N) : pystr :=
  repeat 48 (3 - List.length (digits n)) ++ digits n.

(** [get_next_experiment_number]: [None] stands for a path that does not
    exist, [Some entries] for a directory and what it holds. *)
Definition get_next_experiment_number
    (experiments_dir : option (list (pystr * bool))) : pystr :=
  match experiments_dir with
  | None => str "000"
  | Some entries =>
      match experiment_numbers entries with
      | [] => str "000"
      | n :: nums => format_03d (fold_right N.max n nums + 1)
      end
  end.

(** The name that [create_experiment_folder] gives to the new folder;
    [dt_str] is what [strftime] returns for the time of the call. *)
Definition experiment_folder_name (experiment_num dt_str model_name
    dataset_name : pystr) : pystr :=
  experiment_num ++ [95] ++ dt_str ++ [95]
  ++ sanitize_path_segment model_name ++ [95]
  ++ sanitize_path_segment dataset_name.

(** [create_experiment_folder] on the listing of the [experiments]
    directory: the name of the new folder and the listing afterwards.
    [mkdir(exist_ok=True)] adds the folder, accepts a directory of that
    name that is there already, and raises [FileExistsError] ([None]) on a
    file of that name. *)
Definition create_experiment_folder
    (entries : list (pystr * bool)) (dt_str model_name dataset_name : pystr)
  : option (pystr * list (pystr * bool)) :=
  let experiment_num := get_next_experiment_number (Some entries) in
  let folder_name :=
    experiment_folder_name experiment_num dt_str model_name dataset_name in
  match List.find (fun e : pystr * bool => str_eqb (fst e) folder_name) entries
  with
  | Some (_, true) => Some (folder_name, entries)
  | Some (_, false) => None
  | None => Some (folder_name, entries ++ [(folder_name, true)])
  end.

End Experiments.

(** The number that the next experiment gets. *)
Definition next_number (decimal_value : char -> option N)
    (entries : list (pystr * bool)) : N :=
  match experiment_numbers decimal_value entries with
  | [] => 0
  | n :: nums => fold_right N.max n nums + 1
  end.

(** The digits of ASCII alone. *)
Definition ascii_decimal (c : char) : option N :=
  if Json.is_digit c then Some (c - 48) else None.

(** A table of decimal digits that agrees with Unicode on ASCII and gives
    every digit a value below ten. *)
Definition decimal_table (decimal_value : char -> option N) : Prop :=
  (forall c, Json.is_digit c = true -> decimal_value c = Some (c - 48)) /\
  (forall c d, decimal_value c = Some d -> d < 10).

(** An [experiments] directory with two numbered folders and a file. *)
Definition demo_experiments : list (pystr * bool) :=
  [(str "000_01_05_25_10_00_m_d", true);
   (str "007_02_05_25_11_30_m_d", true);
   (str "009_notes.txt", false)].

(** The folder of the next experiment in [demo_experiments]. *)
Definition demo_folder_name : pystr :=
  str "008_03_05_25_12_00_mistralai_mistral-large_papers".

(* ================================================================== *)
(** ** [run_pipeline.py]: the check of the examples *)
(* ================================================================== *)

(** [EXAMPLE_KEYS]; the order in which the set is gone through does not
    matter to [any]. *)
Definition EXAMPLE_KEYS : list pystr :=
  [str "examples"; str "EXAMPLES"; str "example"; str "EXAMPLE"].

(** [_schema_has_examples].  On a [dict], [k in schema and schema[k]] is
    the truth of the value under [k].  On anything else either [k in
    schema] is false for every key, or it raises, or [schema[k]] raises a
    [TypeError]; the handler turns every exception into [False]. *)
Definition _schema_has_examples (schema : pyval) : bool :=
  match schema with
  | PDict d =>
      existsb
        (fun k => match Dict.get d k with
                  | Some v => truthy v
                  | None => false
                  end)
        EXAMPLE_KEYS
  | _ => false
  end.

(** [value == "few"] *)
Definition is_few (value : pyval) : bool :=
  match value with
  | PStr s => str_eqb s (str "few")
  | _ => false
  end.

(** [_assert_examples]: [true] when it returns, [false] when it raises its
    [RuntimeError].  The two modes are the entries of the configuration
    that it reads. *)
Definition _assert_examples
    (prompt_mode_classification prompt_mode_extraction schema : pyval) : bool :=
  negb ((is_few prompt_mode_classification || is_few prompt_mode_extraction)
        && negb (_schema_has_examples schema)).

(** A schema whose examples stand under the lower-case key. *)
Definition schema_with_examples_key : pydict :=
  [(str "TASK", PStr (str "Y"));
   (str "examples", PList [PDict [(str "text", PStr (str "t"))]])].

(** A few-shot prompter over [schema_with_examples_key]. *)
Definition few_shot_prompter : Prompter :=
  {| _ph := schema_with_examples_key;
     _strategy := FewShot;
     _order := [str "TASK"; str "EXAMPLE"] |}.

(** A template directory with one more file, named after a strategy that
    no class registers. *)
Definition templates_with_chain (path : pystr) : option yaml_doc :=
  if str_eqb path (str "chain.yaml") then Some (YList [str "TASK"])
  else scenario_templates path.

(** The names under which a strategy class is registered. *)
Definition registered (name : pystr) : bool :=
  str_eqb (lower name) (str "zero") || str_eqb (lower name) (str "few")
  || str_eqb (lower name) (str "raw").

(* ================================================================== *)
(** ** The two stages one after the other *)
(* ================================================================== *)

(** The keys that each stage writes into its records. *)
Definition classifier_keys : list pystr :=
  [str "classification"; str "raw_output"; str "prompt"; str "duration"].


(** [rec] holds what [item] holds under every key that is not among
    [written]. *)
Definition keeps_fields (written : list pystr) (item rec : pydict) : Prop :=
  forall k, ~ In k written -> Dict.get rec k = Dict.get item k.


(** What [run_pipeline.py] does with the paragraphs once both stage objects
    exist: classify all of them, then extract from the relevant ones. *)
Definition run_stages (max_depth : nat) (clf ks : stage)
    (llm_cls llm_ext : nat -> pystr -> reply) (paragraphs : list pydict)
  : result (list pydict * list pydict * list pydict) :=
  out <- Classifier_predict max_depth clf llm_cls paragraphs ;;
  let '(pred_all, relevant_only, _) := out in
  out' <- Structurer_predict max_depth ks llm_ext relevant_only ;;
  let '(structured, _) := out' in
  Ok (pred_all, relevant_only, structured).

(** An LLM every call of which raises, with a message that the logger can
    write. *)
Definition never_answers (llm : nat -> pystr -> reply) : Prop :=
  forall idx prompt,
    exists message,
      llm idx prompt = Failed message /\ encodable message = true.

(** The record that the classification stage makes of [item] when the call
    of the LLM raises. *)
Definition unanswered (self : stage) (item rec : pydict) : Prop :=
  exists text,
    item_text item = Ok text /\
    rec = classification_record item (str "irrelevant") []
            (item_prompt (base_prompt self) text) PNone.

(* ================================================================== *)
(** ** [llm/rits/client.py] *)
(* ================================================================== *)

(** [x in data] for a text [x]; [None] is the [TypeError] of a value that
    is no container. *)
Definition py_in (x : pystr) (data : pyval) : option bool :=
  match data with
  | PDict d => Some (match Dict.get d x with Some _ => true | None => false end)
  | PList l =>
      Some (existsb (fun v => match v with
                              | PStr s => str_eqb s x
                              | _ => false
                              end) l)
  | PStr s => Some (contains s x)
  | _ => None
  end.

(** [v[k]] for a text [k]: only a [dict] that has the key gives a value. *)
Definition getitem_str (v : pyval) (k : pystr) : option pyval :=
  match v with
  | PDict d => Dict.get d k
  | _ => None
  end.

(** [v[0]] *)
Definition getitem_0 (v : pyval) : option pyval :=
  match v with
  | PList (x :: _) => Some x
  | PStr (c :: _) => Some (PStr [c])
  | _ => None
  end.

(** The assistant text of a decoded response. *)
Definition rits_content (data : pyval) : option pyval :=
  match py_in (str "choices") data with
  | None => None
  | Some true =>
      match getitem_str data (str "choices") with
      | None => None
      | Some choices =>
          match getitem_0 choices with
          | None => None
          | Some choice =>
              match getitem_str choice (str "message") with
              | None => None
              | Some message => getitem_str message (str "content")
              end
          end
      end
  | Some false =>
      match data with
      | PDict d => Some (get_default d (str "content") (PStr []))
      | _ => None
      end
  end.

(** The message of the [TypeError] that [RitsClient.inference] raises
    itself. *)
Definition RITS_EXPECTS_A_LIST : pystr :=
  str "RITS expects a list[dict] of messages (chat format)".

(** [RitsClient.inference]: the bodies it posts and the [dict] it returns,
    or, when it raises, the message of the exception where the code itself
    fixes it ([None] where the message is that of another library).
    [defaults] is the [request_defaults] entry of the configuration; [post]
    stands for the HTTP exchange ([requests.post], [raise_for_status],
    [response.json]), [None] when one of them raises. *)
Definition RitsClient_inference (defaults : pyval)
    (post : pyval -> option pyval) (messages : pyval)
  : list pyval * (pydict + option pystr) :=
  match messages with
  | PList _ =>
      match defaults with
      | PDict d =>
          let body := PDict (Dict.set d (str "messages") messages) in
          ([body],
           match post body with
           | None => inr None
           | Some data =>
               match rits_content data with
               | Some content =>
                   inl [(str "generated_text", content); (str "raw", data)]
               | None => inr None
               end
           end)
      | _ => ([], inr None)
      end
  | _ => ([], inr (Some RITS_EXPECTS_A_LIST))
  end.

(** The LLM of a stage is the client [inference] (one function per call,
    as the service may answer each call differently): where
    [inference(prompt)["generated_text"]] raises, the call of the stage
    fails with the message of that exception; where it is a text, the call
    returns that text.  Where it is anything else the stage does not get
    through the paragraph, and nothing is said. *)
Definition served_by (inference : nat -> pyval -> pydict + option pystr)
    (llm : nat -> pystr -> reply) : Prop :=
  forall idx prompt,
    match inference idx (PStr prompt) with
    | inr (Some message) => llm idx prompt = Failed message
    | inr None => exists message, llm idx prompt = Failed message
    | inl out =>
        match Dict.get out (str "generated_text") with
        | None => llm idx prompt = Failed (str "'generated_text'")
        | Some (PStr text) => exists seconds, llm idx prompt = Generated text seconds
        | Some _ => True
        end
    end.

(** A RITS service that answers every request. *)
Definition demo_rits_post (idx : nat) (body : pyval) : option pyval :=
  Some (PDict [(str "choices",
                PList [PDict [(str "message",
                               PDict [(str "content",
                                       PStr (jq "{'classification': 'relevant'}"))])]])]).

(** The LLM that the stages see behind the RITS client. *)
Definition rits_llm (idx : nat) (prompt : pystr) : reply :=
  Failed RITS_EXPECTS_A_LIST.

(** The chat form of a prompt. *)
Definition demo_messages : pyval :=
  PList [PDict [(str "role", PStr (str "user"));
                (str "content", PStr (str "Classify the paragraph."))]].

(* ================================================================== *)
(** ** [ingest/pdf_converter.py] and [ingest/chunker.py] *)
(* ================================================================== *)

(** [md.split("\n\n")]: [cur] is the piece being read. *)
Fixpoint split_blank_lines (cur : pystr) (md : pystr) : list pystr :=
  match md with
  | [] => [cur]
  | c :: r =>
      match r with
      | c' :: r' =>
          if (c =? LF) && (c' =? LF) then cur :: split_blank_lines [] r'
          else split_blank_lines (cur ++ [c]) r
      | [] => [cur ++ [c]]
      end
  end.

Definition nonempty (p : pystr) : bool :=
  match p with [] => false | _ :: _ => true end.

(** [PdfConverter._split_paragraphs] *)
Definition _split_paragraphs (md : pystr) : list pystr :=
  List.filter nonempty (List.map strip (split_blank_lines [] md)).

(** A converted document: the stem of the file name and its chunks. *)
Record ConvertedDoc : Type := {
  source : pystr;
  paragraphs : list pystr
}.

(** The records that [convert_dir] writes to [all_paragraphs.json]. *)
Definition combined (docs : list ConvertedDoc) : list pydict :=
  flat_map
    (fun d =>
       List.map (fun p => [(str "Source", PStr (source d)); (str "Text", PStr p)])
         (paragraphs d))
    docs.

(** The documents of [convert_dir] with the chunk strategy "paragraph",
    from the stems of the files and their texts (parsed, and their
    character codes normalized). *)
Definition paragraph_docs (texts : list (pystr * pystr)) : list ConvertedDoc :=
  List.map
    (fun t => {| source := fst t; paragraphs := _split_paragraphs (snd t) |})
    texts.

(** The characters of a text that are not white space. *)
Definition ink (s : pystr) : pystr :=
  List.filter (fun c => negb (is_space c)) s.

(** Two pages of a paper. *)
Definition demo_texts : list (pystr * pystr) :=
  [(str "paper",
    str "Abstract" ++ [LF; LF] ++ str "  Perovskite cells reach 25 percent. "
    ++ [LF; LF; LF; LF] ++ str "References")].

(** [text.split()]: the words of a text, cut at the runs of white space;
    [cur] is the word being read. *)
Fixpoint split_ws (cur : pystr) (text : pystr) : list pystr :=
  match text with
  | [] => match cur with [] => [] | _ :: _ => [cur] end
  | c :: r =>
      if is_space c then
        match cur with
        | [] => split_ws [] r
        | _ :: _ => cur :: split_ws [] r
        end
      else split_ws (cur ++ [c]) r
  end.

(** [range(0, n, step)] for a positive [step]. *)
Definition range_step (n step : nat) : list nat :=
  List.map (fun k => (k * step)%nat) (seq 0 ((n + step - 1) / step)).

(** [words[i : i + size]] for an index [i] of the list and any integer
    [size]: a negative end counts from the end of the list. *)
Definition window (words : list pystr) (i : nat) (size : Z) : list pystr :=
  let n := Z.of_nat (List.length words) in
  let stop := (Z.of_nat i + size)%Z in
  let stop := if (stop <? 0)%Z then Z.max 0 (n + stop) else Z.min stop n in
  firstn (Z.to_nat stop - i) (skipn i words).

(** [max(1, self.size - self.overlap)] *)
Definition chunk_step (size overlap : Z) : nat :=
  Z.to_nat (Z.max 1 (size - overlap)).

(** [Chunker._fixed] *)
Definition Chunker__fixed (size overlap : Z) (text : pystr) : list pystr :=
  let words := split_ws [] text in
  let step := chunk_step size overlap in
  List.map (fun i => join [SP] (window words i size))
    (range_step (List.length words) step).

(** A sentence of seven words. *)
Definition seven_words : pystr :=
  str "  perovskite solar cells   reach twenty five percent ".

(* ================================================================== *)
(** ** What the stages log *)
(* ================================================================== *)

Definition is_base_prompt (e : event) : bool :=
  match e with BasePrompt _ => true | _ => false end.

Definition is_debug (e : event) : bool :=
  match e with DebugPrompt _ _ | DebugRaw _ _ => true | _ => false end.

Definition is_failure (e : event) : bool :=
  match e with InferenceFailed _ => true | _ => false end.

Definition count_events (p : event -> bool) (log : list event) : nat :=
  List.length (List.filter p log).

(** A record whose duration is [None]. *)
Definition without_duration (rec : pydict) : bool :=
  match Dict.get rec (str "duration") with
  | Some PNone => true
  | _ => false
  end.

Definition nonempty_list (l : list pydict) : bool :=
  match l with [] => false | _ :: _ => true end.

(** The stage of [demo_stage] with [debug_io] on. *)
Definition debug_stage : stage :=
  {| base_prompt := str "Classify the paragraph.";
     prompt_logged := false;
     debug_io := true |}.

(* ================================================================== *)
(** ** The two strategies under one template *)
(* ================================================================== *)

(** A string that [json.dumps] writes in the same way with and without
    [ensure_ascii]: no character above [~]. *)
Definition ascii_str (s : pystr) : bool := forallb (fun c => c <=? 126) s.

Fixpoint ascii_only (v : pyval) {struct v} : bool :=
  match v with
  | PStr s => ascii_str s
  | PList l => forallb ascii_only l
  | PDict d =>
      forallb (fun kv => ascii_str (fst kv) && ascii_only (snd kv)) d
  | _ => true
  end.

(** A [Prompter] object with the given strategy class, schema and list of
    placeholders read from the template. *)
Definition prompter_of (s : strategy) (ph : pydict) (order : list pystr)
  : Prompter :=
  {| _ph := ph; _strategy := s; _order := order |}.

(** A schema with examples under the legacy key. *)
Definition example_schema : pydict :=
  [(str "PERSONA", PStr (str "X"));
   (str "TASK", PStr (str "Y"));
   (str "INSTRUCTIONS", PList [PStr (str "a"); PStr (str "b")]);
   (str "SCHEMAS", PDict [(str "f", PStr (str "desc"))]);
   (str "EXAMPLE", PList [PDict [(str "f", PStr (str "25 percent"))]])].

Definition few_shot_order : list pystr :=
  [str "PERSONA"; str "TASK"; str "INSTRUCTIONS"; str "SCHEMAS";
   str "EXAMPLE"].

(* ================================================================== *)
(** ** [run_pipeline.py]: the configuration file and the command line *)
(* ================================================================== *)

(** What [argparse] returns for the options the script declares: an option
    without a default is [None] unless given; [--config] and [--num-exem]
    have a default, [--debug-io] is a flag. *)
Module Args.
Record Namespace : Type := {
  config : pystr;
  pdf_dir : option pystr;
  cls_schema : option pystr;
  ext_schema : option pystr;
  work_dir : option pystr;
  model_id : option pystr;
  provider : option pystr;
  prompt_modecl : option pystr;
  prompt_modeex : option pystr;
  num_exem : Z;
  chunk_strategy : option pystr;
  chunk_size : option Z;
  chunk_overlap : option Z;
  debug_io : bool
}.
End Args.

Definition opt_str (o : option pystr) : pyval :=
  match o with Some s => PStr s | None => PNone end.

Definition opt_int (o : option Z) : pyval :=
  match o with Some z => PInt z | None => PNone end.

(** [vars(args)] *)
Definition vars (args : Args.Namespace) : pydict :=
  [(str "config", PStr (Args.config args));
   (str "pdf_dir", opt_str (Args.pdf_dir args));
   (str "cls_schema", opt_str (Args.cls_schema args));
   (str "ext_schema", opt_str (Args.ext_schema args));
   (str "work_dir", opt_str (Args.work_dir args));
   (str "model_id", opt_str (Args.model_id args));
   (str "provider", opt_str (Args.provider args));
   (str "prompt_modecl", opt_str (Args.prompt_modecl args));
   (str "prompt_modeex", opt_str (Args.prompt_modeex args));
   (str "num_exem", PInt (Args.num_exem args));
   (str "chunk_strategy", opt_str (Args.chunk_strategy args));
   (str "chunk_size", opt_int (Args.chunk_size args));
   (str "chunk_overlap", opt_int (Args.chunk_overlap args));
   (str "debug_io", PBool (Args.debug_io args))].

(** The loop that overrides the values of the file with those of the
    command line. *)
Definition override (config cli_args : pydict) : pydict :=
  fold_left
    (fun config kv =>
       match snd kv with
       | PNone => config
       | value => Dict.set config (fst kv) value
       end)
    cli_args config.

Definition required_params : list pystr :=
  [str "pdf_dir"; str "classification_config"; str "extraction_config"].

Definition missing_params (config : pydict) : list pystr :=
  List.filter
    (fun param =>
       match Dict.get config param with Some _ => false | None => true end)
    required_params.

(** The configuration the script works with, for a configuration file
    whose top level is a mapping ([load_yaml] reads it); [None] when the
    script stops because a required parameter is missing. *)
Definition loaded (load_yaml : pystr -> pydict) (args : Args.Namespace)
  : pydict :=
  match Args.config args with
  | [] => []
  | path => load_yaml path
  end.

Definition configuration (load_yaml : pystr -> pydict)
    (args : Args.Namespace) : option pydict :=
  let config := override (loaded load_yaml args) (vars args) in
  match missing_params config with
  | [] => Some config
  | _ :: _ => None
  end.

(** The keys that the rest of the script reads and no option sets. *)
Definition file_only_keys : list pystr :=
  [str "parser"; str "classification_config"; str "extraction_config";
   str "prompt_mode_classification"; str "prompt_mode_extraction"].

(** A configuration file that asks for debug output and zero-shot
    classification, and a command line that asks for few-shot
    classification and has no [--debug-io]. *)
Definition demo_file : pydict :=
  [(str "pdf_dir", PStr (str "pdfs"));
   (str "classification_config", PStr (str "cls.yaml"));
   (str "extraction_config", PStr (str "ext.yaml"));
   (str "prompt_mode_classification", PStr (str "zero"));
   (str "debug_io", PBool true)].

Definition demo_args : Args.Namespace :=
  {| Args.config := str "config/KEP_default.yaml";
     Args.pdf_dir := None;
     Args.cls_schema := None;
     Args.ext_schema := None;
     Args.work_dir := None;
     Args.model_id := None;
     Args.provider := None;
     Args.prompt_modecl := Some (str "few");
     Args.prompt_modeex := None;
     Args.num_exem := 0;
     Args.chunk_strategy := None;
     Args.chunk_size := None;
     Args.chunk_overlap := None;
     Args.debug_io := false |}.
(* ================================================================== *)
(** ** Facts about dictionaries *)
(* ================================================================== *)

Lemma str_eqb_eq a b : str_eqb a b = true <-> a = b.
Proof.
  unfold str_eqb; destruct (list_eq_dec N.eq_dec a b); split; congruence.
Qed.

Lemma str_eqb_refl a : str_eqb a a = true.
Proof. now apply str_eqb_eq. Qed.

Lemma str_eqb_false a b : a <> b -> str_eqb a b = false.
Proof.
  intro H; destruct (str_eqb a b) eqn:E; [|reflexivity].
  apply str_eqb_eq in E; contradiction.
Qed.

Lemma get_set_same d k v : Dict.get (Dict.set d k v) k = Some v.
Proof.
  induction d as [|[k' v'] d IH]; simpl.
  - now rewrite str_eqb_refl.
  - destruct (str_eqb k' k) eqn:E; simpl; rewrite E; auto.
Qed.

Lemma get_set_other d k v k' :
  str_eqb k k' = false -> Dict.get (Dict.set d k v) k' = Dict.get d k'.
Proof.
  intro Hk; induction d as [|[k0 v0] d IH]; simpl.
  - now rewrite Hk.
  - destruct (str_eqb k0 k) eqn:E; simpl.
    + apply str_eqb_eq in E; subst k0; now rewrite Hk.
    + now rewrite IH.
Qed.

(* ================================================================== *)
(** ** The classification stage *)
(* ================================================================== *)

Lemma classification_of_record item label raw prompt duration :
  classification_of (classification_record item label raw prompt duration)
  = Some (PStr label).
Proof.
  unfold classification_of, classification_record, extend, Dict.update; simpl.
  rewrite !get_set_other by reflexivity.
  apply get_set_same.
Qed.

Lemma is_relevant_record item label raw prompt duration :
  is_relevant (classification_record item label raw prompt duration)
  = str_eqb label (str "relevant").
Proof.
  unfold is_relevant; now rewrite classification_of_record.
Qed.

Lemma filter_relevant_step (rel : list pydict) rec recs (b : bool) :
  is_relevant rec = b ->
  (if b then rel ++ [rec] else rel) ++ filter is_relevant recs
  = rel ++ filter is_relevant (rec :: recs).
Proof.
  intro H; cbn [filter]; rewrite H; destruct b; [|reflexivity].
  now rewrite <- app_assoc.
Qed.

Lemma extract_empty d :
  Utility.extract_json_from_response d [] = Ok Utility.no_valid_json.
Proof. reflexivity. Qed.

Lemma failed_call_label : read_label Utility.no_valid_json = Ok [].
Proof. reflexivity. Qed.

(** One step of a computation in the error monad that ended well. *)
Ltac step H x E :=
  match type of H with
  | bind ?m _ = Ok _ =>
      destruct m as [x|?] eqn:E; cbn [bind] in H; [|discriminate H]
  end.

Lemma write_cases log e log' :
  write log e = Ok log' ->
  encodable (message_of e) = true /\ log' = log ++ [e].
Proof.
  unfold write; destruct (encodable (message_of e)); [|discriminate].
  intro H; inversion H; auto.
Qed.

Lemma write_encodable log e :
  encodable (message_of e) = true -> write log e = Ok (log ++ [e]).
Proof. unfold write; now intros ->. Qed.

Lemma Classifier_try_cases llm idx prompt log raw duration log' :
  Classifier_try llm idx prompt log = Ok (raw, duration, log') ->
  (exists seconds,
      llm idx prompt = Generated raw seconds /\
      duration = PFloat (round2_float (FNum seconds)) /\ log' = log) \/
  (exists message,
      llm idx prompt = Failed message /\ raw = [] /\ duration = PNone /\
      encodable message = true /\
      log' = log ++ [InferenceFailed message]).
Proof.
  unfold Classifier_try; destruct (llm idx prompt) as [text seconds|message].
  - intro H; inversion H; subst; left; eauto.
  - intro H; step H l E; inversion H; subst.
    apply write_cases in E as [E ->]; right; exists message; auto.
Qed.

Lemma force_label_cases label log label' log' :
  force_label label log = Ok (label', log') ->
  (valid_label label = true /\ label' = label /\ log' = log) \/
  (valid_label label = false /\ label' = str "irrelevant" /\
   encodable label = true /\ log' = log ++ [InvalidLabel label]).
Proof.
  unfold force_label; destruct (valid_label label).
  - intro H; inversion H; auto.
  - intro H; step H l E; inversion H; subst.
    apply write_cases in E as [E ->]; auto.
Qed.

Lemma force_label_valid label log label' log' :
  force_label label log = Ok (label', log') -> valid_label label' = true.
Proof.
  intro H; apply force_label_cases in H as [(V & -> & _)|(_ & -> & _)];
    [exact V|reflexivity].
Qed.

Lemma Classifier_loop_spec d self llm :
  forall todo idx st st',
    Classifier_loop d self llm idx todo st = Ok st' ->
    exists recs,
      full st' = full st ++ recs /\
      relevant st' = relevant st ++ filter is_relevant recs /\
      Forall2 classified_from todo recs.
Proof.
  induction todo as [|item todo IH]; cbn [Classifier_loop]; intros idx st st' H.
  - inversion H; subst; exists []; cbn; rewrite !app_nil_r; auto.
  - step H text Et.
    set (prompt := item_prompt (base_prompt self) text) in *.
    step H log El. step H answer Ea.
    destruct answer as [[raw duration] log1].
    step H log2 Ed. step H parsed Ep. step H label Elab. step H checked Ec.
    destruct checked as [label' log3].
    apply IH in H as (recs & Hf & Hr & Hall); cbn [full relevant] in Hf, Hr.
    exists (classification_record item label' raw prompt duration :: recs).
    rewrite <- app_assoc in Hf; split; [exact Hf|]; split.
    + rewrite Hr; apply filter_relevant_step, is_relevant_record.
    + constructor; [|exact Hall].
      exists label', raw, prompt, duration.
      split; [eapply force_label_valid; eauto|]; split; [|reflexivity].
      apply Classifier_try_cases in Ea
        as [(seconds & _ & -> & _)|(message & _ & -> & -> & _)];
        [left; eauto|right; split; [reflexivity|]].
      rewrite extract_empty in Ep; inversion Ep; subst parsed.
      rewrite failed_call_label in Elab; inversion Elab; subst label.
      now apply force_label_cases in Ec as [(V & _)|(_ & -> & _)].
Qed.

(* ================================================================== *)
(** ** The JSON decoder *)
(* ================================================================== *)

Ltac break_match_in H :=
  match type of H with
  | context [match ?x with _ => _ end] => destruct x eqn:?
  | context [if ?x then _ else _] => destruct x eqn:?
  end.

Lemma drop_while_length p s :
  (List.length (drop_while p s) <= List.length s)%nat.
Proof.
  induction s as [|c r IH]; simpl; [lia|].
  destruct (p c); simpl; lia.
Qed.

Lemma drop_while_stop p c r : p c = false -> drop_while p (c :: r) = c :: r.
Proof. intro H; simpl; now rewrite H. Qed.

Lemma drop_while_snoc p l x :
  p x = false -> drop_while p (l ++ [x]) = drop_while p l ++ [x].
Proof.
  intro H; induction l as [|c r IH]; simpl; [now rewrite H|].
  destruct (p c); auto.
Qed.

(** An object loop can only return an object. *)
Lemma members_dict :
  forall fuel depth s acc v r,
    Json.members fuel depth s acc = Json.Scanned v r -> exists d, v = PDict d.
Proof.
  induction fuel as [|f IH]; intros depth s acc v r H; [discriminate|].
  cbn [Json.members] in H.
  repeat (break_match_in H; try discriminate).
  - inversion H; subst; eauto.
  - eapply IH; eauto.
Qed.

(** A text that starts with an opening brace decodes to a [dict] or not at
    all. *)
Lemma loads_brace_dict depth s v :
  startswith s [LBRACE] = true -> Json.loads depth s = Json.Decoded v ->
  exists d, v = PDict d.
Proof.
  destruct s as [|c r]; [discriminate|]; cbn [startswith].
  rewrite andb_true_r; intro Hc; apply N.eqb_eq in Hc; subst c.
  unfold Json.loads.
  replace (Json.skip_ws (LBRACE :: r)) with (LBRACE :: r) by reflexivity.
  cbn [Json.scan_once].
  replace (LBRACE =? DQ) with false by reflexivity.
  replace (LBRACE =? LBRACE) with true by reflexivity.
  intro H.
  repeat (break_match_in H; try discriminate); inversion H; subst.
  match goal with
  | E : _ = Json.Scanned _ _ |- _ =>
      repeat (break_match_in E; try discriminate);
      [ inversion E; subst; eauto | eapply members_dict; eauto ]
  end.
Qed.

Lemma scanstring_shrinks :
  forall s acc x r,
    Json.scanstring acc s = Some (x, r) ->
    (List.length r < List.length s)%nat.
Proof.
  intro s; remember (List.length s) as n eqn:Hn.
  revert s Hn; induction n as [n IH] using lt_wf_ind; intros s Hn acc x r H.
  destruct s as [|c s1]; [discriminate|]; cbn [Json.scanstring] in H.
  subst n; cbn [List.length] in *.
  assert (Hrec : forall acc' s', Json.scanstring acc' s' = Some (x, r) ->
            (List.length s' < S (List.length s1))%nat ->
            (List.length r < List.length s')%nat)
    by (intros acc' s' Hs Hl; eapply (IH (List.length s')); eauto).
  repeat (break_match_in H; try discriminate);
    try (inversion H; subst; lia);
    match goal with
    | |- (_ < S (List.length ?l))%nat =>
        match type of H with
        | Json.scanstring _ ?s' = _ =>
            assert (List.length r < List.length s')%nat
              by (apply (Hrec _ _ H); subst; cbn [List.length]; lia);
            subst; cbn [List.length] in *; lia
        end
    end.
Qed.

Lemma span_digits_length s :
  (List.length (snd (Json.span_digits s)) <= List.length s)%nat.
Proof.
  induction s as [|c r IH]; simpl; [lia|].
  destruct (Json.is_digit c); simpl; [|lia].
  destruct (Json.span_digits r); simpl in *; lia.
Qed.

Lemma skip_ws_length s :
  (List.length (Json.skip_ws s) <= List.length s)%nat.
Proof. apply drop_while_length. Qed.

Lemma int_part_shrinks s ip r :
  Json.int_part s = Some (ip, r) -> (List.length r < List.length s)%nat.
Proof.
  unfold Json.int_part; intro H.
  destruct s as [|c s1]; [discriminate|].
  pose proof (span_digits_length s1) as L.
  repeat (break_match_in H; try discriminate); inversion H; subst;
    cbn [List.length snd] in *; lia.
Qed.

Lemma frac_part_length s fp r :
  Json.frac_part s = Some (fp, r) -> (List.length r <= List.length s)%nat.
Proof.
  unfold Json.frac_part; destruct s as [|dot [|d r0]]; try discriminate.
  destruct ((dot =? 46) && Json.is_digit d); [|discriminate].
  intro H.
  assert (E : Json.span_digits (d :: r0) = (fp, r)) by congruence.
  pose proof (span_digits_length (d :: r0)) as L; rewrite E in L.
  cbn [List.length snd] in *; lia.
Qed.

Lemma exp_sign_length r :
  (List.length (snd (Json.exp_sign r)) <= List.length r)%nat.
Proof.
  destruct r as [|sg r']; cbn; [lia|].
  destruct (sg =? 45); [cbn; lia|]; destruct (sg =? 43); cbn; lia.
Qed.

Lemma exp_part_length s e r :
  Json.exp_part s = Some (e, r) -> (List.length r <= List.length s)%nat.
Proof.
  unfold Json.exp_part; destruct s as [|c s1]; [discriminate|].
  destruct ((c =? 101) || (c =? 69)); [|discriminate].
  pose proof (exp_sign_length s1) as L1.
  destruct (Json.exp_sign s1) as [negative r1]; cbn [snd] in L1.
  pose proof (span_digits_length r1) as L2.
  destruct (Json.span_digits r1) as [[|d ds] rest]; [discriminate|].
  intro H; inversion H; subst; cbn [List.length snd] in *; lia.
Qed.

Lemma match_number_shrinks s v r :
  Json.match_number s = Json.Scanned v r ->
  (List.length r < List.length s)%nat.
Proof.
  unfold Json.match_number.
  set (start := match s with
                | c :: r0 => if c =? 45 then (true, r0) else (false, s)
                | [] => (false, s)
                end).
  assert (L0 : (List.length (snd start) <= List.length s)%nat).
  { subst start; destruct s as [|c r0]; cbn; [lia|].
    destruct (c =? 45); cbn; lia. }
  destruct start as [negative s1]; cbn [snd] in L0.
  destruct (Json.int_part s1) as [[ip r1]|] eqn:Ei; [|discriminate].
  apply int_part_shrinks in Ei.
  assert (L2 : exists fp r2,
             match Json.frac_part r1 with
             | Some (fp, r2) => (Some fp, r2)
             | None => (None, r1)
             end = (fp, r2) /\ (List.length r2 <= List.length r1)%nat).
  { destruct (Json.frac_part r1) as [[fp r2]|] eqn:Ef.
    - apply frac_part_length in Ef; eauto.
    - eauto. }
  destruct L2 as (fp & r2 & -> & L2).
  assert (L3 : exists ep r3,
             match Json.exp_part r2 with
             | Some (e, r3) => (Some e, r3)
             | None => (None, r2)
             end = (ep, r3) /\ (List.length r3 <= List.length r2)%nat).
  { destruct (Json.exp_part r2) as [[e r3]|] eqn:Ee.
    - apply exp_part_length in Ee; eauto.
    - eauto. }
  destruct L3 as (ep & r3 & -> & L3).
  intro H; destruct fp, ep;
    try destruct (Json.MAX_STR_DIGITS <? List.length ip)%nat;
    inversion H; subst; lia.
Qed.

Lemma match_number_fuel s : Json.match_number s <> Json.NoFuel.
Proof.
  unfold Json.match_number.
  repeat match goal with
         | |- context [let (_, _) := ?x in _] => destruct x
         | |- context [match ?x with _ => _ end] => destruct x
         | |- context [if ?x then _ else _] => destruct x
         end; discriminate.
Qed.

Lemma keyword_shrinks w v s x r :
  w <> EmptyString -> Json.keyword w v s = Some (x, r) ->
  (List.length r < List.length s)%nat.
Proof.
  unfold Json.keyword; intros Hw H.
  destruct (startswith s (str w)) eqn:E; [|discriminate].
  inversion H; subst.
  destruct w as [|a w']; [contradiction|].
  destruct s as [|c s']; [discriminate|].
  cbn [String.length skipn List.length].
  pose proof (firstn_skipn (String.length w') s') as F.
  apply (f_equal (@List.length _)) in F; rewrite length_app in F; lia.
Qed.

(** What a scanning function leaves is shorter than what it was given. *)
Lemma scan_shrinks :
  forall fuel,
    (forall depth s v r,
        Json.scan_once fuel depth s = Json.Scanned v r ->
        (List.length r < List.length s)%nat) /\
    (forall depth s acc v r,
        Json.members fuel depth s acc = Json.Scanned v r ->
        (List.length r < List.length s)%nat) /\
    (forall depth s acc v r,
        Json.elements fuel depth s acc = Json.Scanned v r ->
        (List.length r < List.length s)%nat).
Proof.
  induction fuel as [|f (IHs & IHm & IHe)];
    [repeat split; intros; discriminate|].
  repeat split.
  - intros depth s v r H; cbn [Json.scan_once] in H.
    destruct s as [|c s1]; [discriminate|].
    pose proof (skip_ws_length s1) as Lw.
    repeat (break_match_in H; try discriminate);
      try (inversion H; subst; cbn [List.length] in *;
           repeat match goal with
           | E : Json.scanstring _ _ = Some _ |- _ =>
               apply scanstring_shrinks in E
           | E : Json.skip_ws _ = _ :: _ |- _ =>
               rewrite E in *; clear E
           end; cbn [List.length] in *; lia).
    + apply IHm in H; cbn [List.length]; lia.
    + apply IHe in H; cbn [List.length]; lia.
    + unfold Json.of_option in H.
      destruct (Json.keyword "null" PNone (c :: s1)) as [[x r']|] eqn:E;
        inversion H; subst.
      eapply keyword_shrinks in E; [exact E|discriminate].
    + unfold Json.of_option in H.
      destruct (Json.keyword "true" (PBool true) (c :: s1)) as [[x r']|] eqn:E;
        inversion H; subst.
      eapply keyword_shrinks in E; [exact E|discriminate].
    + unfold Json.of_option in H.
      destruct (Json.keyword "false" (PBool false) (c :: s1)) as [[x r']|] eqn:E;
        inversion H; subst.
      eapply keyword_shrinks in E; [exact E|discriminate].
    + unfold Json.of_option in H.
      destruct (Json.keyword "NaN" (PFloat FNan) (c :: s1)) as [[x r']|] eqn:E;
        inversion H; subst.
      eapply keyword_shrinks in E; [exact E|discriminate].
    + unfold Json.of_option in H.
      destruct (Json.keyword "Infinity" (PFloat (FInf false)) (c :: s1))
        as [[x r']|] eqn:E; inversion H; subst.
      eapply keyword_shrinks in E; [exact E|discriminate].
    + unfold Json.of_option in H.
      destruct (Json.keyword "-Infinity" (PFloat (FInf true)) (c :: s1))
        as [[x r']|] eqn:E; inversion H; subst.
      eapply keyword_shrinks in E; [exact E|discriminate].
    + now apply match_number_shrinks in H.
  - intros depth s acc v r H; cbn [Json.members] in H.
    destruct s as [|c s1]; [discriminate|].
    destruct (c =? DQ); [|discriminate].
    destruct (Json.scanstring [] s1) as [[key r1]|] eqn:Ek; [|discriminate].
    apply scanstring_shrinks in Ek.
    pose proof (skip_ws_length r1) as L1.
    destruct (Json.skip_ws r1) as [|c2 r2]; [discriminate|].
    destruct (c2 =? COLON); [|discriminate].
    pose proof (skip_ws_length r2) as L2.
    destruct (Json.scan_once f depth (Json.skip_ws r2)) as [x r3| | |] eqn:Ev;
      try discriminate.
    apply IHs in Ev.
    pose proof (skip_ws_length r3) as L3.
    destruct (Json.skip_ws r3) as [|c3 r4]; [discriminate|].
    cbn [List.length] in *.
    destruct (c3 =? RBRACE); [inversion H; subst; lia|].
    destruct (c3 =? COMMA); [|discriminate].
    apply IHm in H. pose proof (skip_ws_length r4). lia.
  - intros depth s acc v r H; cbn [Json.elements] in H.
    destruct (Json.scan_once f depth s) as [x r1| | |] eqn:Ev;
      try discriminate.
    apply IHs in Ev.
    pose proof (skip_ws_length r1) as L1.
    destruct (Json.skip_ws r1) as [|c r2]; [discriminate|].
    cbn [List.length] in *.
    destruct (c =? RBRACK); [inversion H; subst; lia|].
    destruct (c =? COMMA); [|discriminate].
    apply IHe in H. pose proof (skip_ws_length r2). lia.
Qed.

Lemma of_option_fuel A (o : option (A * pystr)) : Json.of_option o <> Json.NoFuel.
Proof. destruct o as [[a r]|]; discriminate. Qed.

(** With two units of fuel for every character the scan never stops for
    want of fuel. *)
Lemma scan_has_fuel :
  forall fuel,
    (forall depth s, (2 * List.length s + 1 <= fuel)%nat ->
               Json.scan_once fuel depth s <> Json.NoFuel) /\
    (forall depth s acc, (2 * List.length s + 2 <= fuel)%nat ->
                   Json.members fuel depth s acc <> Json.NoFuel) /\
    (forall depth s acc, (2 * List.length s + 2 <= fuel)%nat ->
                   Json.elements fuel depth s acc <> Json.NoFuel).
Proof.
  induction fuel as [|f (IHs & IHm & IHe)]; [repeat split; intros; lia|].
  repeat split.
  - intros depth s Hf; cbn [Json.scan_once].
    destruct s as [|c s1]; [discriminate|].
    pose proof (skip_ws_length s1) as Lw; cbn [List.length] in Hf.
    repeat match goal with
           | |- context [if ?b then _ else _] => destruct b
           | |- context [match Json.scanstring ?a ?b with _ => _ end] =>
               destruct (Json.scanstring a b) as [[? ?]|]
           | |- context [match depth with _ => _ end] => destruct depth
           | |- context [match Json.skip_ws ?a with _ => _ end] =>
               destruct (Json.skip_ws a) eqn:?
           end;
      try discriminate; try apply of_option_fuel;
      try apply match_number_fuel.
    + apply IHm; cbn [List.length] in *; lia.
    + apply IHe; cbn [List.length] in *; lia.
  - intros depth s acc Hf; cbn [Json.members].
    destruct s as [|c s1]; [discriminate|].
    destruct (c =? DQ); [|discriminate].
    destruct (Json.scanstring [] s1) as [[key r1]|] eqn:Ek; [|discriminate].
    apply scanstring_shrinks in Ek.
    pose proof (skip_ws_length r1) as L1.
    destruct (Json.skip_ws r1) as [|c2 r2]; [discriminate|].
    destruct (c2 =? COLON); [|discriminate].
    pose proof (skip_ws_length r2) as L2.
    cbn [List.length] in *.
    destruct (Json.scan_once f depth (Json.skip_ws r2)) as [x r3| | |] eqn:Ev;
      try discriminate.
    + apply (proj1 (scan_shrinks f)) in Ev.
      pose proof (skip_ws_length r3) as L3.
      destruct (Json.skip_ws r3) as [|c3 r4]; [discriminate|].
      cbn [List.length] in *.
      destruct (c3 =? RBRACE); [discriminate|].
      destruct (c3 =? COMMA); [|discriminate].
      apply IHm. pose proof (skip_ws_length r4). lia.
    + exfalso; revert Ev; apply IHs; lia.
  - intros depth s acc Hf; cbn [Json.elements].
    destruct (Json.scan_once f depth s) as [x r1| | |] eqn:Ev;
      try discriminate.
    + apply (proj1 (scan_shrinks f)) in Ev.
      pose proof (skip_ws_length r1) as L1.
      destruct (Json.skip_ws r1) as [|c r2]; [discriminate|].
      cbn [List.length] in *.
      destruct (c =? RBRACK); [discriminate|].
      destruct (c =? COMMA); [|discriminate].
      apply IHe. pose proof (skip_ws_length r2). lia.
    + exfalso; revert Ev; apply IHs; lia.
Qed.

(** [json.loads] is total: the fuel it hands to the scan is enough for
    every text. *)
Lemma loads_has_fuel depth s :
  Json.scan_once (S (2 * List.length s)) depth (Json.skip_ws s) <> Json.NoFuel.
Proof.
  apply (proj1 (scan_has_fuel _)).
  pose proof (skip_ws_length s); lia.
Qed.

(* ================================================================== *)
(** ** The text repairs *)
(* ================================================================== *)

Ltac bool_to_Prop :=
  repeat match goal with
         | H : _ || _ = true |- _ => apply orb_true_iff in H
         | H : _ || _ = false |- _ => apply orb_false_iff in H
         | H : _ && _ = true |- _ => apply andb_true_iff in H
         | H : _ && _ = false |- _ => apply andb_false_iff in H
         | H : (_ =? _) = true |- _ => apply N.eqb_eq in H
         | H : (_ =? _) = false |- _ => apply N.eqb_neq in H
         | H : (_ <=? _) = true |- _ => apply N.leb_le in H
         | H : (_ <=? _) = false |- _ => apply N.leb_gt in H
         | H : (_ <? _) = true |- _ => apply N.ltb_lt in H
         | H : (_ <? _) = false |- _ => apply N.ltb_ge in H
         | H : _ /\ _ |- _ => destruct H
         | H : _ \/ _ |- _ => destruct H
         end.

Lemma linebreak_is_space c : is_linebreak c = true -> is_space c = true.
Proof.
  intro H; destruct (is_space c) eqn:E; [reflexivity|].
  unfold is_linebreak, is_space in *; bool_to_Prop; exfalso; lia.
Qed.

Lemma sub_runs_space_no_linebreak s :
  forall b, no_linebreak (sub_runs is_space b s).
Proof.
  induction s as [|c r IH]; intro b; cbn [sub_runs]; [constructor|].
  destruct (is_space c) eqn:E.
  - destruct b; [apply IH|]. constructor; [reflexivity|apply IH].
  - constructor; [|apply IH].
    destruct (is_linebreak c) eqn:L; [|reflexivity].
    apply linebreak_is_space in L; congruence.
Qed.

Lemma replace_char_no_linebreak a b s :
  is_linebreak b = false -> no_linebreak s -> no_linebreak (replace_char a b s).
Proof.
  intros Hb H; unfold replace_char; induction H; cbn [List.map]; constructor; auto.
  destruct (x =? a); auto.
Qed.

Lemma splitlines_aux_no_linebreak s :
  no_linebreak s ->
  forall cur, splitlines_aux cur false s
              = match cur ++ s with [] => [] | l => [l] end.
Proof.
  induction 1 as [|c r Hc Hr IH]; intro cur; cbn [splitlines_aux].
  - rewrite app_nil_r; destruct cur; reflexivity.
  - rewrite andb_false_r, Hc, IH, <- app_assoc; reflexivity.
Qed.

(** On a text of one line [fix_missing_commas_between_keys] changes
    nothing: there is no earlier line to add a comma to. *)
Lemma fix_missing_commas_one_line s :
  no_linebreak s -> Utility.fix_missing_commas_between_keys s = s.
Proof.
  intro H; unfold Utility.fix_missing_commas_between_keys, splitlines.
  rewrite (splitlines_aux_no_linebreak H); cbn [app].
  destruct s; reflexivity.
Qed.

Lemma collapse_no_linebreak s : no_linebreak (collapse s).
Proof.
  unfold collapse.
  do 2 (apply replace_char_no_linebreak; [reflexivity|]).
  apply sub_runs_space_no_linebreak.
Qed.

(** Inside [extract_json_from_response] the comma insertion never does
    anything: the line breaks it looks for were turned into spaces two
    lines earlier. *)
Lemma repair_without_comma_insertion s :
  Utility.repair s
  = Utility.fix_missing_braces (Utility.clean_trailing_commas (collapse s)).
Proof.
  unfold Utility.repair.
  change (replace_char 8221 DQ _) with (collapse s).
  now rewrite (fix_missing_commas_one_line (collapse_no_linebreak s)).
Qed.

Lemma sub_runs_head p b c r :
  p c = false -> sub_runs p b (c :: r) = c :: sub_runs p false r.
Proof. intro H; cbn [sub_runs]; now rewrite H. Qed.

Lemma repair_keeps_brace s :
  startswith s [LBRACE] = true ->
  startswith (Utility.repair s) [LBRACE] = true.
Proof.
  destruct s as [|c r]; [discriminate|]; cbn [startswith].
  rewrite andb_true_r; intro Hc; apply N.eqb_eq in Hc; subst c.
  rewrite repair_without_comma_insertion; unfold collapse.
  rewrite !sub_runs_head by reflexivity.
  cbn [replace_char List.map].
  replace (LBRACE =? 8220) with false by reflexivity.
  replace (LBRACE =? 8221) with false by reflexivity.
  unfold Utility.clean_trailing_commas; cbn [Utility.clean_trailing_commas_from].
  cbn [andb]; replace (LBRACE =? COMMA) with false by reflexivity; cbn [andb].
  unfold Utility.fix_missing_braces.
  match goal with |- context [if ?b then _ else _] => destruct b end;
    reflexivity.
Qed.

(* ================================================================== *)
(** ** Every candidate block is an object *)
(* ================================================================== *)

Lemma fenced_body_prefix :
  forall t acc group after,
    Utility.fenced_body acc t = Some (group, after) ->
    exists tl, group = acc ++ tl.
Proof.
  induction t as [|c r IH]; intros acc group after H; [discriminate|].
  cbn [Utility.fenced_body] in H.
  destruct ((c =? RBRACE) && _).
  - inversion H; subst; eauto.
  - apply IH in H as [tl ->]; rewrite <- app_assoc; eauto.
Qed.

Lemma fenced_rest_brace t group after :
  Utility.fenced_rest t = Some (group, after) ->
  startswith group [LBRACE] = true.
Proof.
  unfold Utility.fenced_rest.
  destruct (drop_while is_space t) as [|c r]; [discriminate|].
  destruct (c =? LBRACE) eqn:E; [|discriminate].
  intro H; apply fenced_body_prefix in H as [tl ->].
  cbn [app startswith]; now rewrite E.
Qed.

Lemma match_markdown_brace t group n :
  Utility.match_markdown t = Some (group, n) ->
  startswith group [LBRACE] = true.
Proof.
  unfold Utility.match_markdown.
  destruct (startswith t Utility.fence); [|discriminate].
  destruct (startswith (skipn 3 t) (str "json")).
  - destruct (Utility.fenced_rest (skipn 4 (skipn 3 t))) as [[g a]|] eqn:E1.
    + intro H; inversion H; subst; eapply fenced_rest_brace; eauto.
    + destruct (Utility.fenced_rest (skipn 3 t)) as [[g a]|] eqn:E2;
        [|discriminate].
      intro H; inversion H; subst; eapply fenced_rest_brace; eauto.
  - destruct (Utility.fenced_rest (skipn 3 t)) as [[g a]|] eqn:E2;
      [|discriminate].
    intro H; inversion H; subst; eapply fenced_rest_brace; eauto.
Qed.

Lemma findall_markdown_brace t :
  forall skip,
    Forall (fun g => startswith g [LBRACE] = true)
      (Utility.findall_markdown_from skip t).
Proof.
  induction t as [|c r IH]; intro skip; cbn [Utility.findall_markdown_from];
    [constructor|].
  destruct skip as [|k]; [|apply IH].
  destruct (Utility.match_markdown (c :: r)) as [[g n]|] eqn:E; [|apply IH].
  constructor; [eapply match_markdown_brace; eauto|apply IH].
Qed.

Lemma strip_keeps_brace m :
  startswith m [LBRACE] = true -> startswith (strip m) [LBRACE] = true.
Proof.
  destruct m as [|c r]; [discriminate|]; cbn [startswith].
  rewrite andb_true_r; intro Hc; apply N.eqb_eq in Hc; subst c.
  unfold strip, lstrip, rstrip.
  rewrite drop_while_stop by reflexivity.
  cbn [rev]; rewrite drop_while_snoc by reflexivity.
  rewrite rev_app_distr; reflexivity.
Qed.

Lemma loads_repair_dict depth s v :
  startswith s [LBRACE] = true ->
  Json.loads depth (Utility.repair s) = Json.Decoded v ->
  Utility.is_dict v = true.
Proof.
  intros Hs H; apply repair_keeps_brace in Hs.
  destruct (loads_brace_dict _ _ Hs H) as [d ->]; reflexivity.
Qed.

Lemma fenced_blocks_dicts depth ms :
  Forall (fun g => startswith g [LBRACE] = true) ms ->
  forall blocks,
    Utility.fenced_blocks depth ms = Ok blocks ->
    forallb Utility.is_dict blocks = true.
Proof.
  induction 1 as [|m ms Hm Hms IH]; cbn [Utility.fenced_blocks];
    intros blocks H; [inversion H; reflexivity|].
  destruct (Json.loads _ _) as [v| |e] eqn:E; [|now apply IH|discriminate].
  step H rest Er; inversion H; subst.
  cbn [forallb]; rewrite (IH _ eq_refl), andb_true_r.
  eapply loads_repair_dict; [|exact E]. now apply strip_keeps_brace.
Qed.

Lemma skipn_step A (l : list A) i c r :
  skipn i l = c :: r -> skipn (S i) l = r.
Proof.
  revert l; induction i as [|i IH]; intros l H.
  - cbn in H; subst; reflexivity.
  - destruct l as [|x l]; [discriminate|]. cbn [skipn] in *. now apply IH.
Qed.

Lemma slice_brace text start i post :
  skipn start text = LBRACE :: post -> (start <= i)%nat ->
  startswith (Utility.slice text start (i + 1)) [LBRACE] = true.
Proof.
  intros H L; unfold Utility.slice; rewrite H.
  replace (i + 1 - start)%nat with (S (i - start)) by lia.
  reflexivity.
Qed.

Lemma forallb_snoc A (p : A -> bool) l x :
  forallb p (l ++ [x]) = forallb p l && p x.
Proof. rewrite forallb_app; cbn; now rewrite andb_true_r. Qed.

Lemma brace_scan_dicts depth text :
  forall todo i brace_count json_start json_blocks blocks,
    skipn i text = todo ->
    (forall start, json_start = Some start ->
                   (start <= i)%nat /\
                   exists post, skipn start text = LBRACE :: post) ->
    forallb Utility.is_dict json_blocks = true ->
    Utility.brace_scan depth text i todo brace_count json_start json_blocks
    = Ok blocks ->
    forallb Utility.is_dict blocks = true.
Proof.
  induction todo as [|c todo' IH];
    intros i brace_count json_start json_blocks blocks Ht Hs Hb;
    cbn [Utility.brace_scan]; [intro H; inversion H; subst; exact Hb|].
  pose proof (skipn_step _ _ Ht) as Ht'.
  assert (Hs' : forall start, json_start = Some start ->
                  (start <= S i)%nat /\
                  exists post, skipn start text = LBRACE :: post)
    by (intros st E; destruct (Hs st E) as [L P]; split; [lia|exact P]).
  destruct (c =? LBRACE) eqn:Ec.
  - apply N.eqb_eq in Ec; subst c.
    apply IH; auto.
    intros st E; destruct (brace_count =? 0)%Z; [|now apply Hs'].
    inversion E; subst; split; [lia|eauto].
  - destruct (c =? RBRACE); [|now apply IH].
    destruct (brace_count - 1 =? 0)%Z; [|now apply IH].
    destruct json_start as [start|]; [|now apply IH].
    destruct (Json.loads _ _) as [v| |e] eqn:E;
      [|now apply IH|discriminate].
    apply IH; auto; [discriminate|].
    rewrite forallb_snoc, Hb; cbn [andb].
    eapply loads_repair_dict; [|exact E].
    destruct (Hs start eq_refl) as [L [post P]].
    eapply slice_brace; eauto.
Qed.

Lemma brace_blocks_dicts depth text blocks :
  Utility.brace_blocks depth text = Ok blocks ->
  forallb Utility.is_dict blocks = true.
Proof.
  unfold Utility.brace_blocks; apply brace_scan_dicts; auto; discriminate.
Qed.

Lemma tier_blocks_dicts depth text blocks :
  tier_blocks depth text = Ok blocks ->
  forallb Utility.is_dict blocks = true.
Proof.
  unfold tier_blocks.
  destruct (Utility.findall_markdown text) eqn:E.
  - apply brace_blocks_dicts.
  - rewrite <- E; apply fenced_blocks_dicts, findall_markdown_brace.
Qed.


Lemma extract_by_blocks depth raw :
  Utility.extract_json_from_response depth raw
  = (json_blocks <- tier_blocks depth raw ;;
     match json_blocks with
     | [] => Utility.wrap_tier depth raw
     | [block] => Ok block
     | _ =>
         if forallb Utility.is_dict json_blocks
         then Ok (PDict (Utility.merge_blocks json_blocks))
         else Ok (PList json_blocks)
     end).
Proof. reflexivity. Qed.


(** *** The exceptions of the decoder *)









(* ================================================================== *)
(** ** The classification stage, continued *)
(* ================================================================== *)

Lemma text_or_falsy_or v w :
  text_or_falsy v -> text_or_falsy w ->
  exists s, py_or (py_or v w) (PStr []) = PStr s.
Proof.
  unfold py_or; intros [Fv|[sv ->]] [Fw|[sw ->]].
  - rewrite Fv, Fw; eauto.
  - rewrite Fv; destruct sw; cbn; eauto.
  - destruct sv; cbn; [rewrite Fw|]; eauto.
  - destruct sv; cbn; [destruct sw; cbn|]; eauto.
Qed.

Lemma item_text_paragraph item :
  is_paragraph item -> exists text, item_text item = Ok text.
Proof.
  intros [H1 H2]; unfold item_text.
  destruct (text_or_falsy_or H1 H2) as [s ->]; eauto.
Qed.

Lemma encodable_app a b :
  encodable (a ++ b) = encodable a && encodable b.
Proof. apply forallb_app. Qed.

Lemma encodable_item_prompt base text :
  encodable base = true -> encodable text = true ->
  encodable (item_prompt base text) = true.
Proof.
  intros Hb Ht; unfold item_prompt.
  now rewrite !encodable_app, Hb, Ht.
Qed.

Lemma log_base_prompt_encodable logged base log :
  encodable base = true ->
  exists log', log_base_prompt logged base log = Ok log'.
Proof.
  intro H; unfold log_base_prompt; destruct logged; [eauto|].
  rewrite write_encodable by exact H; eauto.
Qed.

Lemma log_debug_encodable debug idx prompt raw log :
  (debug = true -> encodable prompt = true /\ encodable raw = true) ->
  exists log', log_debug debug idx prompt raw log = Ok log'.
Proof.
  intro H; unfold log_debug; destruct debug; [|eauto].
  destruct (H eq_refl) as [Hp Hr].
  rewrite write_encodable by exact Hp; cbn [bind].
  rewrite write_encodable by exact Hr; eauto.
Qed.

Lemma force_label_total label log :
  valid_label label = true \/ encodable label = true ->
  exists out, force_label label log = Ok out.
Proof.
  intro H; unfold force_label; destruct (valid_label label); [eauto|].
  destruct H as [H|H]; [discriminate|].
  rewrite write_encodable by exact H; cbn [bind]; eauto.
Qed.

Lemma Classifier_loop_total d self llm :
  classifiable d (debug_io self) llm ->
  encodable (base_prompt self) = true ->
  forall todo idx st,
    Forall is_paragraph todo ->
    (debug_io self = true ->
     Forall (fun item => forall text,
                 item_text item = Ok text -> encodable text = true) todo) ->
    exists st', Classifier_loop d self llm idx todo st = Ok st'.
Proof.
  intros Hl Hb; induction todo as [|item todo IH]; intros idx st Hp Hd;
    cbn [Classifier_loop]; [eauto|].
  inversion Hp as [|? ? Hi Ht]; subst.
  destruct (item_text_paragraph Hi) as [text Et]; rewrite Et; cbn [bind].
  set (prompt := item_prompt (base_prompt self) text).
  destruct (@log_base_prompt_encodable (cls_logged st) _ (cls_log st) Hb)
    as [log ->]; cbn [bind].
  assert (Hprompt : debug_io self = true -> encodable prompt = true).
  { intro D; apply encodable_item_prompt; [exact Hb|].
    specialize (Hd D); inversion Hd; subst; auto. }
  assert (Hrest : debug_io self = true ->
                  Forall (fun item => forall text,
                              item_text item = Ok text ->
                              encodable text = true) todo)
    by (intro D; specialize (Hd D); now inversion Hd).
  specialize (Hl idx prompt); unfold Classifier_try.
  destruct (llm idx prompt) as [answer seconds|message]; cbn [bind].
  - destruct Hl as (Ha & parsed & label & Ep & El & Hv).
    destruct (@log_debug_encodable (debug_io self) idx prompt answer log)
      as [log2 ->]; [auto|]; cbn [bind].
    rewrite Ep; cbn [bind]; rewrite El; cbn [bind].
    destruct (@force_label_total label log2 Hv) as [[label' log3] ->]; cbn [bind].
    now apply IH.
  - rewrite write_encodable by exact Hl; cbn [bind].
    destruct (@log_debug_encodable (debug_io self) idx prompt []
                (log ++ [InferenceFailed message]))
      as [log2 ->]; [intro D; split; [auto|reflexivity]|]; cbn [bind].
    rewrite extract_empty; cbn [bind].
    rewrite failed_call_label; cbn [bind].
    destruct (@force_label_total [] log2) as [[label' log3] ->];
      [right; reflexivity|]; cbn [bind].
    now apply IH.
Qed.

Lemma Classifier_predict_unfold d self llm dataset out :
  Classifier_predict d self llm dataset = Ok out ->
  exists st,
    Classifier_loop d self llm 0 dataset
      {| full := []; relevant := []; cls_logged := prompt_logged self;
         cls_log := [PhaseStarted (str "classification") (List.length dataset)] |}
    = Ok st /\
    out = (full st, relevant st, base_prompt self).
Proof.
  unfold Classifier_predict, Classifier_run.
  destruct (Classifier_loop _ _ _ _ _ _) as [st|e]; cbn [bind fst];
    [|discriminate].
  intro H; inversion H; eauto.
Qed.

Lemma Forall2_length_eq A B (R : A -> B -> Prop) l l' :
  Forall2 R l l' -> List.length l' = List.length l.
Proof. induction 1; cbn; congruence. Qed.

(** [Classifier.predict] returns for every sequence of paragraphs when the
    log lines can be written and the LLM is one the stage gets through. *)
Lemma Classifier_predict_returns d self llm dataset :
  Forall is_paragraph dataset ->
  writes_log self dataset ->
  classifiable d (debug_io self) llm ->
  exists all_results relevant_results,
    Classifier_predict d self llm dataset
    = Ok (all_results, relevant_results, base_prompt self).
Proof.
  intros Hp [Hb Hd] Hl.
  unfold Classifier_predict, Classifier_run.
  edestruct (@Classifier_loop_total d self llm Hl Hb) as [st ->];
    [exact Hp|exact Hd|].
  cbn [bind fst]; eauto.
Qed.

(** ** C4 *)

(** C4.  Whatever the paragraphs are and whatever the language model
    answers, whenever [Classifier.predict] returns, the lists it returns
    are such that [relevant_results] is the sublist of [all_results] of the
    records labelled "relevant", in the same order, and [all_results] has
    one record for each input paragraph, made from it, in input order.
    (When it returns is the matter of [Classifier_predict_returns].) *)
Theorem Classifier_predict_partition d self llm dataset
    all_results relevant_results prompt :
  Classifier_predict d self llm dataset
  = Ok (all_results, relevant_results, prompt) ->
  relevant_results = filter is_relevant all_results /\
  List.length all_results = List.length dataset /\
  Forall2 classified_from dataset all_results.
Proof.
  intro H.
  apply Classifier_predict_unfold in H as (st & Hloop & E).
  inversion E; subst; clear E.
  apply Classifier_loop_spec in Hloop as (recs & Hf & Hr & Hall).
  cbn [full relevant app] in Hf, Hr; rewrite Hf, Hr.
  repeat split; auto. eapply Forall2_length_eq; eauto.
Qed.

Lemma Classifier_predict_partition_witness :
  exists all_results relevant_results,
    Classifier_predict 1000 demo_stage demo_llm demo_paragraphs
    = Ok (all_results, relevant_results, base_prompt demo_stage) /\
    relevant_results = filter is_relevant all_results /\
    List.length all_results = List.length demo_paragraphs /\
    List.length relevant_results = 1%nat.
Proof.
  do 2 eexists; split; [vm_compute; reflexivity|].
  split; [|split; [|reflexivity]];
    eapply (@Classifier_predict_partition 1000 demo_stage demo_llm
              demo_paragraphs);
    vm_compute; reflexivity.
Defined.

(** ** C3 *)

(** Every record that [Classifier.predict] returns is labelled "relevant" or
    "irrelevant". *)
Lemma Classifier_labels_valid d self llm dataset
    all_results relevant_results prompt :
  Classifier_predict d self llm dataset
  = Ok (all_results, relevant_results, prompt) ->
  Forall (fun rec => exists label,
              classification_of rec = Some (PStr label) /\
              (label = str "relevant" \/ label = str "irrelevant"))
    all_results.
Proof.
  intro H; apply Classifier_predict_unfold in H as (st & Hloop & E).
  inversion E; subst; clear E.
  apply Classifier_loop_spec in Hloop as (recs & Hf & _ & Hall).
  cbn [full app] in Hf; rewrite Hf; clear Hf.
  induction Hall as [|item rec ? ? (label & raw & p & du & V & _ & ->) _ IH];
    constructor; [|exact IH].
  exists label; split; [apply classification_of_record|].
  unfold valid_label in V; apply orb_true_iff in V as [V|V];
    apply str_eqb_eq in V; auto.
Qed.

(** C3.  The label is not always forced: when the parsed answer holds a
    number under "classification", [.lower()] is called on that number and
    the [AttributeError] leaves [predict]; no record is returned, not even
    the one of the paragraph classified before.  (The decoder must be able
    to enter one object: [max_depth] is at least one.) *)
Theorem Classifier_predict_numeric_label max_depth :
  Classifier_predict (S max_depth) demo_stage numeric_label_llm demo_paragraphs
  = Raise AttributeError.
Proof. vm_compute; reflexivity. Qed.

(* ================================================================== *)
(** ** The extraction stage *)
(* ================================================================== *)

Lemma Structurer_answer_cases llm idx prompt item log raw duration log' :
  Structurer_answer llm idx prompt item log = Ok (raw, duration, log') ->
  (Structurer_try llm idx prompt item = inl (raw, duration) /\ log' = log) \/
  (exists message,
      Structurer_try llm idx prompt item = inr message /\
      raw = [] /\ duration = PNone /\ encodable message = true /\
      log' = log ++ [InferenceFailed message]).
Proof.
  unfold Structurer_answer.
  destruct (Structurer_try llm idx prompt item) as [[r du]|message].
  - intro H; inversion H; auto.
  - intro H; step H l E; inversion H; subst.
    apply write_cases in E as [E ->]; right; exists message; auto.
Qed.

Lemma Structurer_loop_spec d self llm :
  forall todo idx st st',
    Structurer_loop d self llm idx todo st = Ok st' ->
    exists recs,
      results st' = results st ++ recs /\
      Forall2 extracted_from todo recs /\
      (forall j item, nth_error todo j = Some item ->
                      exists rec, nth_error recs j = Some rec /\
                                  extracted_at d self llm (idx + j) item rec).
Proof.
  induction todo as [|item todo IH]; cbn [Structurer_loop];
    intros idx st st' H.
  - inversion H; subst; exists []; rewrite app_nil_r.
    split; [reflexivity|]; split; [constructor|].
    intros [|j] item Hj; discriminate.
  - step H text Et.
    set (prompt := item_prompt (base_prompt self) text) in *.
    step H log El. step H answer Ea.
    destruct answer as [[raw duration] log1].
    step H log2 Ed. step H extracted Ex.
    apply IH in H as (recs & Hres & Hall & Hnth).
    cbn [results] in Hres; rewrite <- app_assoc in Hres.
    exists (extraction_record item extracted raw prompt duration :: recs).
    split; [exact Hres|].
    split; [constructor; [do 4 eexists; reflexivity|exact Hall]|].
    intros [|j] it Hj; cbn [nth_error] in *.
    + inversion Hj; subst it; eexists; split; [reflexivity|].
      exists text; split; [exact Et|]; cbn zeta; fold prompt.
      rewrite Nat.add_0_r.
      apply Structurer_answer_cases in Ea
        as [(-> & _)|(message & -> & -> & -> & _)].
      * exists extracted; split; [exact Ex|reflexivity].
      * rewrite extract_empty in Ex; inversion Ex; reflexivity.
    + rewrite Nat.add_succ_r; apply Hnth; exact Hj.
Qed.

Lemma Structurer_predict_unfold d self llm dataset recs prompt :
  Structurer_predict d self llm dataset = Ok (recs, prompt) ->
  prompt = base_prompt self /\
  Forall2 extracted_from dataset recs /\
  (forall j item, nth_error dataset j = Some item ->
                  exists rec, nth_error recs j = Some rec /\
                              extracted_at d self llm j item rec).
Proof.
  unfold Structurer_predict, Structurer_run.
  destruct (Structurer_loop _ _ _ _ _ _) as [st|e] eqn:E; cbn [bind fst];
    [|discriminate].
  intro H; inversion H; subst; clear H.
  apply Structurer_loop_spec in E as (recs & Hres & Hall & Hnth).
  cbn [results app] in Hres; rewrite Hres; auto.
Qed.

(** When [Structurer.predict] returns, it returns one record for each
    item, made from it, in the order of the input. *)
Lemma Structurer_predict_one_record_per_item d self llm dataset
    structured prompt :
  Structurer_predict d self llm dataset = Ok (structured, prompt) ->
  List.length structured = List.length dataset /\
  Forall2 extracted_from dataset structured.
Proof.
  intro H; apply Structurer_predict_unfold in H as (_ & Hall & _).
  split; [eapply Forall2_length_eq; eauto|exact Hall].
Qed.

Lemma add_duration_message elapsed upstream message :
  add_duration elapsed upstream = inr message -> encodable message = true.
Proof.
  destruct upstream as [| b | z | f | s | l | dd]; cbn [add_duration];
    try destruct (float_of_int z);
    intro H; inversion H; reflexivity.
Qed.

Lemma Structurer_answer_total debug llm idx prompt item log d :
  extractable d debug llm ->
  exists raw duration log',
    Structurer_answer llm idx prompt item log = Ok (raw, duration, log') /\
    (debug = true -> encodable raw = true) /\
    exists data, Utility.extract_json_from_response d raw = Ok data.
Proof.
  intro Hl; specialize (Hl idx prompt).
  unfold Structurer_answer, Structurer_try.
  destruct (llm idx prompt) as [answer seconds|message].
  - destruct Hl as [Ha Hx].
    destruct (add_duration seconds _) as [total|message] eqn:E.
    + do 3 eexists; split; [reflexivity|]; auto.
    + apply add_duration_message in E.
      rewrite write_encodable by exact E; cbn [bind].
      do 3 eexists; split; [reflexivity|]; split; [reflexivity|].
      rewrite extract_empty; eauto.
  - rewrite write_encodable by exact Hl; cbn [bind].
    do 3 eexists; split; [reflexivity|]; split; [reflexivity|].
    rewrite extract_empty; eauto.
Qed.

Lemma Structurer_loop_total d self llm :
  extractable d (debug_io self) llm ->
  encodable (base_prompt self) = true ->
  forall todo idx st,
    Forall is_paragraph todo ->
    (debug_io self = true ->
     Forall (fun item => forall text,
                 item_text item = Ok text -> encodable text = true) todo) ->
    exists st', Structurer_loop d self llm idx todo st = Ok st'.
Proof.
  intros Hl Hb; induction todo as [|item todo IH]; intros idx st Hp Hd;
    cbn [Structurer_loop]; [eauto|].
  inversion Hp as [|? ? Hi Ht]; subst.
  destruct (item_text_paragraph Hi) as [text Et]; rewrite Et; cbn [bind].
  set (prompt := item_prompt (base_prompt self) text).
  destruct (@log_base_prompt_encodable (ext_logged st) _ (ext_log st) Hb)
    as [log ->]; cbn [bind].
  assert (Hprompt : debug_io self = true -> encodable prompt = true).
  { intro D; apply encodable_item_prompt; [exact Hb|].
    specialize (Hd D); inversion Hd; subst; auto. }
  assert (Hrest : debug_io self = true ->
                  Forall (fun item => forall text,
                              item_text item = Ok text ->
                              encodable text = true) todo)
    by (intro D; specialize (Hd D); now inversion Hd).
  destruct (@Structurer_answer_total (debug_io self) llm idx prompt item log
              d Hl) as (raw & duration & log1 & -> & Hr & data & Ex).
  cbn [bind].
  destruct (@log_debug_encodable (debug_io self) idx prompt raw log1)
    as [log2 ->]; [auto|]; cbn [bind].
  rewrite Ex; cbn [bind].
  now apply IH.
Qed.

(** [Structurer.predict] returns for every sequence of paragraphs when the
    log lines can be written and the LLM is one the stage gets through. *)
Lemma Structurer_predict_returns d self llm dataset :
  Forall is_paragraph dataset ->
  writes_log self dataset ->
  extractable d (debug_io self) llm ->
  exists structured,
    Structurer_predict d self llm dataset = Ok (structured, base_prompt self).
Proof.
  intros Hp [Hb Hd] Hl.
  unfold Structurer_predict, Structurer_run.
  edestruct (@Structurer_loop_total d self llm Hl Hb) as [st ->];
    [exact Hp|exact Hd|].
  cbn [bind fst]; eauto.
Qed.

Lemma demo_paragraphs_typed : Forall is_paragraph demo_paragraphs.
Proof.
  unfold demo_paragraphs.
  constructor; [|constructor; [|constructor]];
    (split; [right; eexists; reflexivity|left; reflexivity]).
Qed.

(** ** C5 *)

(** C5.  Not every item gets a record: the extraction of the answer stands
    outside the [try] block, and [json.loads] raises a [ValueError] that is
    no [JSONDecodeError] on an integer of more than 4300 digits.  With an
    LLM whose second answer holds such an integer, [Structurer.predict]
    raises and returns no record at all, not even that of the first item,
    whose answer was fine.  (The decoder must be able to enter one object:
    [max_depth] is at least one.) *)
Theorem Structurer_predict_long_integer max_depth :
  Structurer_predict (S max_depth) demo_structurer long_integer_llm
    [one_second_item; one_second_item]
  = Raise ValueError.
Proof. vm_compute; reflexivity. Qed.

(** ** C6 *)

Lemma duration_of_extraction_record item data raw prompt duration :
  Dict.get (extraction_record item data raw prompt duration) (str "duration")
  = Some duration.
Proof.
  unfold extraction_record, extend, Dict.update; cbn [fold_left fst snd].
  apply get_set_same.
Qed.

Lemma raw_output_of_extraction_record item data raw prompt duration :
  Dict.get (extraction_record item data raw prompt duration) (str "raw_output")
  = Some (PStr raw).
Proof.
  unfold extraction_record, extend, Dict.update; cbn [fold_left fst snd].
  rewrite !get_set_other by reflexivity.
  apply get_set_same.
Qed.




(* ================================================================== *)
(** ** The prompt builder *)
(* ================================================================== *)



(** The zero-shot strategy hands no examples to the builder. *)
Lemma zero_shot_omits_examples float_repr ph values :
  placeholder_values float_repr ZeroShot ph = Ok values ->
  Dict.get values (str "EXAMPLE") = None /\
  Dict.get values (str "EXAMPLES") = None.
Proof. intro H; inversion H; subst; split; reflexivity. Qed.

(** ** C2 *)






(** ** C1 *)

(** C1.  The examples do reach a zero-shot prompt: the strategy leaves them
    out, but for a placeholder the strategy gives nothing for, [build] falls
    back on the schema, so with a template that lists EXAMPLE the prompt of
    a schema with an example ends with an "Examples:" section. *)
Theorem zero_shot_prompt_leaks_examples float_repr container_repr :
  prompt_of float_repr container_repr scenario_templates schema_with_example
    (str "zero") = Ok leaked_prompt /\
  contains leaked_prompt (str "Examples:") = true.
Proof. split; vm_compute; reflexivity. Qed.

(* ================================================================== *)
(** ** The tiers of [extract_json_from_response] *)
(* ================================================================== *)

(** ** C10 *)



Lemma extract_by_tier max_depth raw :
  Utility.extract_json_from_response max_depth raw
  = (json_blocks <- tier_blocks max_depth raw ;;
     result_of_blocks max_depth json_blocks raw).
Proof.
  rewrite extract_by_blocks.
  destruct (tier_blocks max_depth raw) as [blocks|e] eqn:E; cbn [bind];
    [|reflexivity].
  pose proof (tier_blocks_dicts _ _ E) as D.
  unfold result_of_blocks.
  destruct blocks as [|b [|b' bs]]; try reflexivity.
  now rewrite D.
Qed.

(** ** C7 *)




(** ** C8 *)

(** C8, as the code has it.  The text of Scenario B is wrapped in braces and
    repaired; the repair turns the line break into a space before the comma
    insertion looks for lines, and nothing quotes the keys, so the candidate
    is not JSON and the error marker is returned.  The wrap tier gives the
    object when the pairs are JSON members already.  (The decoder must be
    able to enter one object: [max_depth] is at least one.) *)
Theorem wrap_tier_needs_json_members max_depth :
  Utility.repair ([LBRACE] ++ strip scenario_b ++ [RBRACE])
  = jq "{key1: 'a' key2: 'b'}" /\
  Json.loads (S max_depth) (jq "{key1: 'a' key2: 'b'}") = Json.DecodeError /\
  Utility.extract_json_from_response (S max_depth) scenario_b
  = Ok Utility.no_valid_json /\
  Utility.extract_json_from_response (S max_depth) quoted_pairs
  = Ok scenario_b_object.
Proof. repeat split; vm_compute; reflexivity. Qed.

(** The claim as it stands fails: Scenario B yields the error marker. *)
Lemma scenario_b_not_recovered :
  Utility.no_valid_json <> scenario_b_object /\
  forall max_depth,
    Utility.extract_json_from_response (S max_depth) scenario_b
    = Ok Utility.no_valid_json.
Proof. split; [discriminate|intro max_depth; vm_compute; reflexivity]. Qed.

(* ================================================================== *)
(** ** Extracting a second time *)
(* ================================================================== *)

(** Induction on values, with the hypothesis for the items of a list and of
    a dict. *)
Lemma pyval_induction (P : pyval -> Prop) :
  P PNone ->
  (forall b, P (PBool b)) ->
  (forall z, P (PInt z)) ->
  (forall f, P (PFloat f)) ->
  (forall s, P (PStr s)) ->
  (forall l, Forall P l -> P (PList l)) ->
  (forall d, Forall (fun kv => P (snd kv)) d -> P (PDict d)) ->
  forall v, P v.
Proof.
  intros HN HB HI HF HS HL HD.
  fix IH 1; intro v; destruct v as [| b | z | f | s | l | d].
  - exact HN.
  - apply HB.
  - apply HI.
  - apply HF.
  - apply HS.
  - apply HL; induction l as [|x l IHl]; constructor; [apply IH|exact IHl].
  - apply HD; induction d as [|[k x] d IHd]; constructor;
      [apply IH|exact IHd].
Qed.

(** *** What [json.dumps] writes *)













(** *** The repairs leave a clean text alone *)









Lemma count_char_app c (a b : pystr) :
  count_char c (a ++ b) = (count_char c a + count_char c b)%nat.
Proof. unfold count_char; now rewrite filter_app, length_app. Qed.






(** *** The tiers on such a text *)





(** *** Every extracted object has each key once *)

Lemma keys_set d k v :
  Dict.keys (Dict.set d k v) = Dict.keys d \/
  Dict.keys (Dict.set d k v) = Dict.keys d ++ [k].
Proof.
  unfold Dict.keys; induction d as [|[k' v'] d IH]; cbn [Dict.set List.map fst].
  - now right.
  - destruct (str_eqb k' k); cbn [List.map fst app]; [now left|].
    destruct IH as [-> | ->]; auto.
Qed.

Lemma unique_keys_set d k v :
  unique_keys d = true -> unique_keys (Dict.set d k v) = true.
Proof.
  induction d as [|[k' v'] d IH]; intro H; [reflexivity|].
  cbn [unique_keys] in H; apply andb_true_iff in H as [Hk Hd].
  cbn [Dict.set]; destruct (str_eqb k' k) eqn:E; cbn [unique_keys].
  - now rewrite Hk, Hd.
  - rewrite (IH Hd), andb_true_r.
    apply negb_true_iff in Hk; apply negb_true_iff.
    destruct (keys_set d k v) as [-> | ->]; [exact Hk|].
    rewrite existsb_app, Hk; cbn [existsb]; now rewrite E.
Qed.

Lemma values_set d k v :
  forallb (fun kv => well_keyed (snd kv)) d = true ->
  well_keyed v = true ->
  forallb (fun kv => well_keyed (snd kv)) (Dict.set d k v) = true.
Proof.
  intros Hd Hv; induction d as [|[k' v'] d IH]; cbn [Dict.set forallb snd].
  - now rewrite Hv.
  - cbn [forallb snd] in Hd; apply andb_true_iff in Hd as [H1 H2].
    destruct (str_eqb k' k); cbn [forallb snd]; [now rewrite Hv, H2|].
    now rewrite H1, IH.
Qed.

Lemma well_keyed_set d k v :
  well_keyed (PDict d) = true -> well_keyed v = true ->
  well_keyed (PDict (Dict.set d k v)) = true.
Proof.
  cbn [well_keyed]; intros H Hv; apply andb_true_iff in H as [H1 H2].
  now rewrite values_set, unique_keys_set.
Qed.

Lemma well_keyed_update other :
  forall d,
    well_keyed (PDict d) = true -> well_keyed (PDict other) = true ->
    well_keyed (PDict (Dict.update d other)) = true.
Proof.
  unfold Dict.update.
  induction other as [|[k v] other IH]; intros d Hd Ho; [exact Hd|].
  cbn [fold_left fst snd]; apply IH.
  - apply well_keyed_set; [exact Hd|].
    cbn [well_keyed forallb snd] in Ho.
    apply andb_true_iff in Ho as [Ho _]; now apply andb_true_iff in Ho as [Ho _].
  - cbn [well_keyed forallb snd unique_keys] in *.
    apply andb_true_iff in Ho as [Ho Hu]; apply andb_true_iff in Ho as [_ Ho].
    apply andb_true_iff in Hu as [_ Hu]; now rewrite Ho, Hu.
Qed.

Lemma of_option_leaf (o : option (pyval * pystr)) v r :
  Json.of_option o = Json.Scanned v r -> o = Some (v, r).
Proof.
  destruct o as [[v' r']|]; cbn; intro H; inversion H; reflexivity.
Qed.

Lemma keyword_leaf w x s v r :
  well_keyed x = true -> Json.keyword w x s = Some (v, r) ->
  well_keyed v = true.
Proof.
  unfold Json.keyword; intros Hx H.
  destruct (startswith s (str w)); inversion H; subst; exact Hx.
Qed.

Lemma match_number_leaf s v r :
  Json.match_number s = Json.Scanned v r -> well_keyed v = true.
Proof.
  unfold Json.match_number; intro H.
  repeat (break_match_in H; try discriminate); inversion H; reflexivity.
Qed.

(** What the decoder builds has each key once, at every depth. *)
Lemma scan_well_keyed :
  forall fuel,
    (forall depth s v r,
        Json.scan_once fuel depth s = Json.Scanned v r ->
        well_keyed v = true) /\
    (forall depth s acc v r,
        well_keyed (PDict acc) = true ->
        Json.members fuel depth s acc = Json.Scanned v r ->
        well_keyed v = true) /\
    (forall depth s acc v r,
        well_keyed (PList acc) = true ->
        Json.elements fuel depth s acc = Json.Scanned v r ->
        well_keyed v = true).
Proof.
  induction fuel as [|f (IHs & IHm & IHe)];
    [repeat split; intros; discriminate|].
  repeat split.
  - intros depth s v r H; cbn [Json.scan_once] in H.
    destruct s as [|c s1]; [discriminate|].
    repeat (break_match_in H; try discriminate);
      try (inversion H; subst; reflexivity);
      try (apply of_option_leaf in H;
           eapply keyword_leaf; [|exact H]; reflexivity);
      try (eapply match_number_leaf; exact H).
    + eapply IHm; [|exact H]; reflexivity.
    + eapply IHe; [|exact H]; reflexivity.
  - intros depth s acc v r Hacc H; cbn [Json.members] in H.
    destruct s as [|c s1]; [discriminate|].
    destruct (c =? DQ); [|discriminate].
    destruct (Json.scanstring [] s1) as [[key r1]|]; [|discriminate].
    destruct (Json.skip_ws r1) as [|c2 r2]; [discriminate|].
    destruct (c2 =? COLON); [|discriminate].
    destruct (Json.scan_once f depth (Json.skip_ws r2)) as [x r3| | |]
      eqn:Ev; try discriminate.
    apply IHs in Ev.
    pose proof (@well_keyed_set acc key x Hacc Ev) as Hset.
    destruct (Json.skip_ws r3) as [|c3 r4]; [discriminate|].
    destruct (c3 =? RBRACE); [inversion H; subst; exact Hset|].
    destruct (c3 =? COMMA); [|discriminate].
    eapply IHm; [exact Hset|exact H].
  - intros depth s acc v r Hacc H; cbn [Json.elements] in H.
    destruct (Json.scan_once f depth s) as [x r1| | |] eqn:Ev;
      try discriminate.
    apply IHs in Ev.
    assert (Hsnoc : well_keyed (PList (acc ++ [x])) = true)
      by (cbn [well_keyed] in *; now rewrite forallb_snoc, Hacc, Ev).
    destruct (Json.skip_ws r1) as [|c r2]; [discriminate|].
    destruct (c =? RBRACK); [inversion H; subst; exact Hsnoc|].
    destruct (c =? COMMA); [|discriminate].
    eapply IHe; [exact Hsnoc|exact H].
Qed.

Lemma loads_well_keyed max_depth s v :
  Json.loads max_depth s = Json.Decoded v -> well_keyed v = true.
Proof.
  unfold Json.loads; intro H.
  repeat (break_match_in H; try discriminate); inversion H; subst.
  eapply (proj1 (scan_well_keyed _)); eauto.
Qed.

Lemma fenced_blocks_well_keyed max_depth ms :
  forall json_blocks,
    Utility.fenced_blocks max_depth ms = Ok json_blocks ->
    forallb well_keyed json_blocks = true.
Proof.
  induction ms as [|m ms IH]; cbn [Utility.fenced_blocks]; intros bs H.
  - inversion H; reflexivity.
  - destruct (Json.loads _ _) as [v| |e] eqn:E; [|now apply IH|discriminate].
    destruct (Utility.fenced_blocks max_depth ms) as [bs'|e]; cbn [bind] in H;
      [|discriminate].
    inversion H; subst; cbn [forallb].
    now rewrite (loads_well_keyed _ _ E), IH.
Qed.

Lemma brace_scan_well_keyed max_depth text :
  forall todo i brace_count json_start json_blocks found,
    forallb well_keyed json_blocks = true ->
    Utility.brace_scan max_depth text i todo brace_count json_start
      json_blocks = Ok found ->
    forallb well_keyed found = true.
Proof.
  induction todo as [|c todo IH]; intros i n st bs found Hb H;
    cbn [Utility.brace_scan] in H; [inversion H; subst; exact Hb|].
  destruct (c =? LBRACE); [now apply IH in H|].
  destruct (c =? RBRACE); [|now apply IH in H].
  destruct (n - 1 =? 0)%Z; [|now apply IH in H].
  destruct st as [start|]; [|now apply IH in H].
  destruct (Json.loads _ _) as [v| |e] eqn:E;
    [|now apply IH in H|discriminate].
  apply IH in H; [exact H|].
  rewrite forallb_snoc, Hb; cbn [andb].
  exact (loads_well_keyed _ _ E).
Qed.

Lemma merge_blocks_well_keyed blocks :
  forallb well_keyed blocks = true ->
  well_keyed (PDict (Utility.merge_blocks blocks)) = true.
Proof.
  unfold Utility.merge_blocks.
  assert (G : forall bs acc,
             well_keyed (PDict acc) = true ->
             forallb well_keyed bs = true ->
             well_keyed
               (PDict (fold_left
                         (fun merged block =>
                            match block with
                            | PDict d => Dict.update merged d
                            | _ => merged
                            end) bs acc)) = true).
  { induction bs as [|b bs IH]; intros acc Ha Hbs; [exact Ha|].
    cbn [forallb] in Hbs; apply andb_true_iff in Hbs as [Hb Hbs].
    cbn [fold_left]; apply IH; [|exact Hbs].
    destruct b; try exact Ha. now apply well_keyed_update. }
  intro H; now apply G.
Qed.

Lemma extract_well_keyed max_depth raw v :
  Utility.extract_json_from_response max_depth raw = Ok v ->
  well_keyed v = true.
Proof.
  rewrite extract_by_tier.
  destruct (tier_blocks max_depth raw) as [blocks|e] eqn:T; cbn [bind];
    [|discriminate].
  assert (W : forallb well_keyed blocks = true).
  { unfold tier_blocks in T; destruct (Utility.findall_markdown raw).
    - now apply brace_scan_well_keyed in T.
    - now apply fenced_blocks_well_keyed in T. }
  unfold result_of_blocks.
  destruct blocks as [|b [|b' bs]].
  - unfold Utility.wrap_tier.
    destruct (negb _ && _); [|intro H; inversion H; reflexivity].
    destruct (Json.loads _ _) as [x| |e] eqn:E; intro H; inversion H; subst;
      [exact (loads_well_keyed _ _ E)|reflexivity].
  - intro H; inversion H; subst.
    cbn [forallb] in W; now apply andb_true_iff in W as [W _].
  - intro H; inversion H; subst; now apply merge_blocks_well_keyed.
Qed.

(** ** C9 *)




(* ================================================================== *)
(** ** The text repairs on their own *)
(* ================================================================== *)

Lemma count_char_repeat_same c n : count_char c (repeat c n) = n.
Proof.
  unfold count_char; induction n as [|n IH]; cbn [repeat filter]; auto.
  rewrite N.eqb_refl; cbn [List.length]; now rewrite IH.
Qed.

Lemma count_char_repeat_other c d n :
  c <> d -> count_char c (repeat d n) = 0%nat.
Proof.
  intro H; unfold count_char; induction n as [|n IH]; cbn [repeat filter]; auto.
  apply N.eqb_neq in H; now rewrite H.
Qed.

(** X1.  [fix_missing_braces] only appends closing braces, as many as are
    missing: afterwards no opening brace is left without a closing one, the
    opening braces are those of the input, a text that lacks no closing
    brace is returned as it is, and a second pass changes nothing. *)
Theorem fix_missing_braces_closes s :
  let fixed := Utility.fix_missing_braces s in
  fixed
  = s ++ repeat RBRACE (count_char LBRACE s - count_char RBRACE s) /\
  count_char LBRACE fixed = count_char LBRACE s /\
  (count_char LBRACE fixed <= count_char RBRACE fixed)%nat /\
  ((count_char RBRACE s <= count_char LBRACE s)%nat -> balanced fixed) /\
  Utility.fix_missing_braces fixed = fixed.
Proof.
  assert (Hfixed : Utility.fix_missing_braces s
                   = s ++ repeat RBRACE
                            (count_char LBRACE s - count_char RBRACE s)).
  { unfold Utility.fix_missing_braces.
    destruct (count_char RBRACE s <? count_char LBRACE s)%nat eqn:E; auto.
    apply Nat.ltb_ge in E.
    replace (count_char LBRACE s - count_char RBRACE s)%nat with 0%nat by lia.
    now rewrite app_nil_r. }
  cbv zeta; rewrite Hfixed.
  assert (Ho : count_char LBRACE
                 (s ++ repeat RBRACE
                         (count_char LBRACE s - count_char RBRACE s))
               = count_char LBRACE s).
  { rewrite count_char_app, count_char_repeat_other by discriminate; lia. }
  assert (Hc : count_char RBRACE
                 (s ++ repeat RBRACE
                         (count_char LBRACE s - count_char RBRACE s))
               = (count_char RBRACE s
                  + (count_char LBRACE s - count_char RBRACE s))%nat).
  { now rewrite count_char_app, count_char_repeat_same. }
  repeat split.
  - exact Ho.
  - rewrite Ho, Hc; lia.
  - intro Hle; unfold balanced; rewrite Ho, Hc; lia.
  - unfold Utility.fix_missing_braces at 1; rewrite Ho, Hc.
    destruct (_ <? _)%nat eqn:E; auto.
    apply Nat.ltb_lt in E; lia.
Qed.

Lemma fix_missing_braces_closes_witness :
  (count_char RBRACE (jq "{'a': {'b': 1") <= count_char LBRACE (jq "{'a': {'b': 1"))%nat /\
  Utility.fix_missing_braces (jq "{'a': {'b': 1") = jq "{'a': {'b': 1}}" /\
  balanced (Utility.fix_missing_braces (jq "{'a': {'b': 1")).
Proof.
  split; [vm_compute; lia|].
  split; [vm_compute; reflexivity|].
  apply (fix_missing_braces_closes (jq "{'a': {'b': 1")); vm_compute; lia.
Defined.

Lemma clean_from_substance b s :
  substance (Utility.clean_trailing_commas_from b s) = substance s.
Proof.
  revert b; induction s as [|c r IH]; intro b; auto.
  unfold substance in *; cbn [Utility.clean_trailing_commas_from filter].
  destruct (b && is_space c) eqn:E1.
  - apply andb_true_iff in E1 as [_ E1]; rewrite E1, orb_true_r; cbn [negb].
    apply IH.
  - destruct ((c =? COMMA) && _) eqn:E2.
    + apply andb_true_iff in E2 as [E2 _]; rewrite E2; cbn [orb negb].
      apply IH.
    + cbn [filter]; destruct (negb _); [f_equal|]; apply IH.
Qed.

Lemma clean_from_length b s :
  (List.length (Utility.clean_trailing_commas_from b s) <= List.length s)%nat.
Proof.
  revert b; induction s as [|c r IH]; intro b; auto.
  cbn [Utility.clean_trailing_commas_from].
  destruct (b && is_space c); [cbn [List.length]; specialize (IH true); lia|].
  destruct ((c =? COMMA) && _); cbn [List.length];
    [specialize (IH true)|specialize (IH false)]; lia.
Qed.

(** X2.  [clean_trailing_commas] takes out commas and white space and
    nothing else, never makes the text longer, and returns a text without a
    comma in front of a closing brace or bracket as it is. *)
Theorem clean_trailing_commas_keeps_substance s :
  substance (Utility.clean_trailing_commas s) = substance s /\
  (List.length (Utility.clean_trailing_commas s) <= List.length s)%nat /\
  (has_trailing_comma s = false -> Utility.clean_trailing_commas s = s).
Proof.
  split; [apply clean_from_substance|].
  split; [apply clean_from_length|].
  unfold has_trailing_comma, Utility.clean_trailing_commas.
  induction s as [|c r IH]; auto.
  cbn [has_comma_before Utility.clean_trailing_commas_from andb].
  intro H; apply orb_false_iff in H as [H1 H2].
  rewrite H1; f_equal; auto.
Qed.

Lemma clean_trailing_commas_keeps_substance_witness :
  has_trailing_comma (jq "{'a': [1, 2], 'b': 3}") = false /\
  Utility.clean_trailing_commas (jq "{'a': [1, 2], 'b': 3}")
  = jq "{'a': [1, 2], 'b': 3}".
Proof.
  split; [vm_compute; reflexivity|].
  apply (clean_trailing_commas_keeps_substance (jq "{'a': [1, 2], 'b': 3}")).
  vm_compute; reflexivity.
Defined.

Lemma is_space_comma c : (c =? COMMA) = true -> is_space c = false.
Proof. intro H; apply N.eqb_eq in H; subst c; reflexivity. Qed.

(** The first character after the white space is the same before and after
    the cleaning, unless it is a comma. *)
Lemma clean_from_head r :
  match drop_while is_space r with
  | [] => drop_while is_space (Utility.clean_trailing_commas_from false r) = []
  | d :: r' =>
      (d =? COMMA) = false ->
      drop_while is_space (Utility.clean_trailing_commas_from false r)
      = d :: Utility.clean_trailing_commas_from false r'
  end.
Proof.
  induction r as [|c r IH]; [reflexivity|].
  cbn [drop_while]; destruct (is_space c) eqn:Es.
  - cbn [Utility.clean_trailing_commas_from andb].
    destruct (c =? COMMA) eqn:Ec;
      [apply is_space_comma in Ec; congruence|].
    cbn [andb drop_while]; rewrite Es; exact IH.
  - intro Ec; cbn [Utility.clean_trailing_commas_from andb]; rewrite Ec.
    cbn [andb drop_while]; now rewrite Es.
Qed.

Lemma clean_from_no_trailing b s :
  has_double_comma s = false ->
  has_trailing_comma (Utility.clean_trailing_commas_from b s) = false.
Proof.
  unfold has_double_comma, has_trailing_comma.
  revert b; induction s as [|c r IH]; intros b H; [reflexivity|].
  cbn [has_comma_before] in H; apply orb_false_iff in H as [H1 H2].
  cbn [Utility.clean_trailing_commas_from].
  destruct (b && is_space c); [now apply IH|].
  destruct (c =? COMMA) eqn:Ec; cbn [andb] in *.
  - destruct (match drop_while is_space r with
              | [] => false | b0 :: _ => Utility.is_close b0 end) eqn:Eclose;
      [now apply IH|].
    cbn [has_comma_before]; rewrite Ec, (IH false H2), orb_false_r.
    cbn [andb]; pose proof (clean_from_head r) as Hh.
    destruct (drop_while is_space r) as [|d r'].
    + now rewrite Hh.
    + now rewrite (Hh H1).
  - cbn [has_comma_before]; rewrite Ec; cbn [andb orb]; now apply IH.
Qed.

(** X3.  When no two commas of the text stand next to each other (white
    space apart), one pass of [clean_trailing_commas] leaves no comma in
    front of a closing brace or bracket. *)
Theorem clean_trailing_commas_cleans s :
  has_double_comma s = false ->
  has_trailing_comma (Utility.clean_trailing_commas s) = false.
Proof. apply clean_from_no_trailing. Qed.

Lemma clean_trailing_commas_cleans_witness :
  has_double_comma (jq "{'a': [1, 2, ], 'b': 3 , }") = false /\
  Utility.clean_trailing_commas (jq "{'a': [1, 2, ], 'b': 3 , }")
  = jq "{'a': [1, 2], 'b': 3 }" /\
  has_trailing_comma
    (Utility.clean_trailing_commas (jq "{'a': [1, 2, ], 'b': 3 , }")) = false.
Proof.
  split; [vm_compute; reflexivity|].
  split; [vm_compute; reflexivity|].
  apply (clean_trailing_commas_cleans (jq "{'a': [1, 2, ], 'b': 3 , }")).
  vm_compute; reflexivity.
Defined.

(* ---------------------------------------------------------------- *)
(** *** The comma insertion on a text of several lines *)

Lemma add_comma_to_last_snoc pre l :
  Utility.add_comma_to_last (pre ++ [l]) = pre ++ [with_comma l].
Proof.
  unfold Utility.add_comma_to_last, with_comma.
  rewrite rev_app_distr; cbn [rev app].
  destruct (endswith (rstrip l) [COMMA]); [reflexivity|].
  now rewrite rev_involutive.
Qed.

Lemma firstn_snoc_nth (lines : list pystr) j :
  (j < List.length lines)%nat ->
  firstn (S j) lines = firstn j lines ++ [nth j lines []].
Proof.
  revert j; induction lines as [|l r IH]; intros j H; cbn [List.length] in H;
    [lia|].
  destruct j as [|j]; [reflexivity|].
  cbn [firstn nth app]; f_equal; apply IH; lia.
Qed.

Lemma last_nonblank_some lines i :
  (i <= List.length lines)%nat ->
  match Utility.last_nonblank lines i with Some _ => true | None => false end
  = existsb (fun l => negb (is_blank l)) (firstn i lines).
Proof.
  induction i as [|j IH]; intro H; [reflexivity|].
  rewrite firstn_snoc_nth, existsb_app by lia.
  cbn [Utility.last_nonblank existsb]; unfold is_blank at 2.
  destruct (strip (nth j lines [])); cbn [negb].
  - rewrite orb_false_r; apply IH; lia.
  - now rewrite orb_true_r.
Qed.

Lemma fix_missing_commas_loop_from lines :
  forall todo done l pre,
    lines = done ++ l :: todo ->
    Utility.fix_missing_commas_loop lines (S (List.length done)) todo
      (pre ++ [l])
    = pre ++ List.map
               (fun i => if key_follows lines i then with_comma (nth i lines [])
                         else nth i lines [])
               (seq (List.length done) (S (List.length todo))).
Proof.
  induction todo as [|line todo IH]; intros done l pre E.
  - cbn [Utility.fix_missing_commas_loop List.length seq List.map].
    unfold key_follows.
    replace (S (List.length done) <? List.length lines)%nat with false.
    + cbn [andb]; subst lines; now rewrite nth_middle.
    + symmetry; apply Nat.ltb_ge; subst lines.
      rewrite length_app; cbn [List.length]; lia.
  - cbn [Utility.fix_missing_commas_loop].
    assert (Hl : nth (List.length done) lines [] = l)
      by (subst lines; apply nth_middle).
    assert (Hline : nth (S (List.length done)) lines [] = line).
    { subst lines.
      change (done ++ l :: line :: todo) with (done ++ [l] ++ line :: todo).
      rewrite app_assoc.
      replace (S (List.length done)) with (List.length (done ++ [l]))
        by (rewrite length_app; cbn [List.length]; lia).
      apply nth_middle. }
    assert (Hlen : (S (S (List.length done)) <= List.length lines)%nat).
    { subst lines; rewrite length_app; cbn [List.length]; lia. }
    set (l' := if key_follows lines (List.length done) then with_comma l
               else l).
    assert (Hfixed :
              (if (0 <? S (List.length done))%nat
                  && startswith (lstrip line) [DQ]
               then match Utility.last_nonblank lines (S (List.length done))
                    with
                    | Some _ => Utility.add_comma_to_last (pre ++ [l])
                    | None => pre ++ [l]
                    end
               else pre ++ [l]) = pre ++ [l']).
    { subst l'; unfold key_follows.
      replace (S (List.length done) <? List.length lines)%nat with true
        by (symmetry; apply Nat.ltb_lt; lia).
      rewrite Hline, <- last_nonblank_some by lia.
      cbn [Nat.ltb Nat.leb andb].
      destruct (startswith (lstrip line) [DQ]); [|reflexivity].
      destruct (Utility.last_nonblank lines (S (List.length done)));
        [apply add_comma_to_last_snoc|reflexivity]. }
    rewrite Hfixed.
    specialize (IH (done ++ [l]) line (pre ++ [l'])).
    replace (List.length (done ++ [l])) with (S (List.length done)) in IH
      by (rewrite length_app; cbn [List.length]; lia).
    rewrite IH by (subst lines; now rewrite <- app_assoc).
    rewrite <- app_assoc; cbn [app]; f_equal.
    change (seq (List.length done) (S (List.length (line :: todo))))
      with (List.length done
            :: seq (S (List.length done)) (S (List.length todo))).
    cbn [List.map]; rewrite Hl; reflexivity.
Qed.

Lemma nth_map_seq (f : nat -> pystr) len :
  forall n i, (i < len)%nat -> nth i (List.map f (seq n len)) [] = f (n + i)%nat.
Proof.
  induction len as [|len IH]; intros n i H; [lia|].
  destruct i as [|i]; cbn [seq List.map nth].
  - now rewrite Nat.add_0_r.
  - rewrite IH by lia; f_equal; lia.
Qed.

(** The loop in closed form. *)
Lemma fix_missing_commas_loop_closed lines :
  Utility.fix_missing_commas_loop lines 0 lines []
  = List.map
      (fun i => if key_follows lines i then with_comma (nth i lines [])
                else nth i lines [])
      (seq 0 (List.length lines)).
Proof.
  destruct lines as [|l todo] eqn:E; [reflexivity|].
  rewrite <- E.
  pose proof (@fix_missing_commas_loop_from lines todo [] l [] E) as H.
  cbn [List.length app] in H.
  transitivity (Utility.fix_missing_commas_loop lines 1 todo [l]);
    [rewrite E; reflexivity|].
  rewrite H, E; reflexivity.
Qed.

(** X4.  [fix_missing_commas_between_keys] on any text: the lines stay as
    many as they were and come back joined by line feeds; a line gets a
    comma (after its trailing white space is cut) exactly when the next line
    opens with a quote, some line up to it is not blank and it does not end
    with a comma already; every other line, the last one among them, is
    returned as it is.  The line in front of a key gets its comma whatever
    it holds, an opening brace or nothing at all. *)
Theorem fix_missing_commas_between_keys_lines s :
  exists fixed_lines,
    Utility.fix_missing_commas_between_keys s = join [LF] fixed_lines /\
    List.length fixed_lines = List.length (splitlines s) /\
    forall i,
      (i < List.length (splitlines s))%nat ->
      nth i fixed_lines []
      = if key_follows (splitlines s) i
        then with_comma (nth i (splitlines s) [])
        else nth i (splitlines s) [].
Proof.
  unfold Utility.fix_missing_commas_between_keys.
  exists (Utility.fix_missing_commas_loop (splitlines s) 0 (splitlines s) []).
  split; [reflexivity|].
  rewrite fix_missing_commas_loop_closed, length_map, length_seq.
  split; [reflexivity|].
  intros i Hi; now rewrite nth_map_seq.
Qed.

Lemma fix_missing_commas_between_keys_lines_witness :
  (1 < List.length (splitlines unpunctuated_object))%nat /\
  exists fixed_lines,
    Utility.fix_missing_commas_between_keys unpunctuated_object
    = join [LF] fixed_lines /\
    nth 0 fixed_lines [] = str "{," /\
    nth 1 fixed_lines [] = jq "  'a': 1,".
Proof.
  split; [vm_compute; lia|].
  destruct (fix_missing_commas_between_keys_lines unpunctuated_object)
    as (fixed_lines & H1 & _ & H3).
  exists fixed_lines; split; [exact H1|].
  split; (rewrite H3 by (vm_compute; lia)); vm_compute; reflexivity.
Defined.

(** The line that [splitlines] is reading comes out as the head of a
    line. *)
Lemma splitlines_aux_cur t :
  forall cur c,
    is_linebreak c = false ->
    exists more rest,
      splitlines_aux (cur ++ [c]) false t = (cur ++ c :: more) :: rest.
Proof.
  induction t as [|x t IH]; intros cur c Hc; cbn [splitlines_aux].
  - exists [], []; destruct cur; reflexivity.
  - rewrite andb_false_r.
    destruct (is_linebreak x) eqn:Ex.
    + now exists [], (splitlines_aux [] (x =? CR) t).
    + destruct (IH (cur ++ [c]) x Ex) as (more & rest & E).
      exists (x :: more), rest; now rewrite E, <- app_assoc.
Qed.

Lemma splitlines_aux_spaces n t cur :
  splitlines_aux cur false (repeat SP n ++ t)
  = splitlines_aux (cur ++ repeat SP n) false t.
Proof.
  revert cur; induction n as [|n IH]; intro cur; cbn [repeat app].
  - now rewrite app_nil_r.
  - cbn [splitlines_aux]; rewrite andb_false_r.
    change (is_linebreak SP) with false; cbv iota.
    rewrite IH, <- app_assoc; reflexivity.
Qed.

Lemma lstrip_spaces n t : lstrip (repeat SP n ++ t) = lstrip t.
Proof. unfold lstrip; induction n as [|n IH]; auto. Qed.

Lemma loads_brace_comma max_depth rest :
  Json.loads (S max_depth) (LBRACE :: COMMA :: rest) = Json.DecodeError.
Proof. reflexivity. Qed.

(** X5.  An object that [json.dumps] has written with an indent, one member
    a line, does not survive [fix_missing_commas_between_keys]: the first
    member opens with a quote, so the line before it, the opening brace,
    gets a comma, and the text is no longer JSON ([json.loads] raises
    [JSONDecodeError] on it as soon as it may enter one object). *)
Theorem comma_insertion_breaks_indented_objects max_depth float_repr n
    ensure_ascii d :
  d <> [] ->
  exists rest,
    Utility.fix_missing_commas_between_keys
      (dumps float_repr (Some n) ensure_ascii (PDict d))
    = LBRACE :: COMMA :: rest /\
    Json.loads (S max_depth)
      (Utility.fix_missing_commas_between_keys
         (dumps float_repr (Some n) ensure_ascii (PDict d)))
    = Json.DecodeError.
Proof.
  intro Hd; destruct d as [|[k v] d]; [congruence|clear Hd].
  assert (Hs : exists tail,
             dumps float_repr (Some n) ensure_ascii (PDict ((k, v) :: d))
             = LBRACE :: LF :: repeat SP (n * 1) ++ DQ :: tail).
  { unfold dumps; cbn [encode newline_indent List.map fst].
    unfold encode_basestring at 1.
    destruct d as [|kv d]; cbn [join app].
    - eexists; rewrite <- !app_assoc; cbn [app]; reflexivity.
    - eexists; rewrite <- !app_assoc; cbn [app]; reflexivity. }
  destruct Hs as [tail Hs]; rewrite Hs.
  assert (Hlines : exists more rest,
             splitlines (LBRACE :: LF :: repeat SP (n * 1) ++ DQ :: tail)
             = [LBRACE] :: (repeat SP (n * 1) ++ DQ :: more) :: rest).
  { unfold splitlines; cbn [splitlines_aux app].
    change (is_linebreak LBRACE) with false;
      change (is_linebreak LF) with true;
      change ((LBRACE =? LF) && false) with false;
      change ((LF =? LF) && false) with false; cbv iota.
    rewrite splitlines_aux_spaces; cbn [app].
    destruct (@splitlines_aux_cur tail (repeat SP (n * 1)) DQ eq_refl)
      as (more & rest & E).
    cbn [splitlines_aux]; change (is_linebreak DQ) with false;
      change ((DQ =? LF) && false) with false; cbv iota.
    exists more, rest; now rewrite E. }
  destruct Hlines as (more & rest & Hlines).
  unfold Utility.fix_missing_commas_between_keys.
  rewrite fix_missing_commas_loop_closed, Hlines.
  cbn [List.length seq List.map nth].
  assert (Hk : key_follows
                 ([LBRACE] :: (repeat SP (n * 1) ++ DQ :: more) :: rest) 0
               = true).
  { unfold key_follows; cbn [List.length nth firstn existsb].
    rewrite lstrip_spaces; reflexivity. }
  rewrite Hk; change (with_comma [LBRACE]) with [LBRACE; COMMA].
  match goal with
  | |- context [join [LF] ([LBRACE; COMMA] :: ?x :: ?y)] =>
      change (join [LF] ([LBRACE; COMMA] :: x :: y))
        with (LBRACE :: COMMA :: [LF] ++ join [LF] (x :: y))
  end.
  eexists; split; [reflexivity|apply loads_brace_comma].
Qed.

Lemma comma_insertion_breaks_indented_objects_witness :
  [(str "a", PInt 1)] <> [] /\
  Utility.fix_missing_commas_between_keys
    (dumps (fun _ => []) (Some 2%nat) false (PDict [(str "a", PInt 1)]))
  = str "{," ++ [LF] ++ jq "  'a': 1" ++ [LF] ++ str "}" /\
  Json.loads 1000
    (Utility.fix_missing_commas_between_keys
       (dumps (fun _ => []) (Some 2%nat) false (PDict [(str "a", PInt 1)])))
  = Json.DecodeError.
Proof.
  split; [discriminate|].
  split; [vm_compute; reflexivity|].
  destruct (@comma_insertion_breaks_indented_objects 999
              (fun _ => []) 2%nat false [(str "a", PInt 1)]) as (rest & _ & H);
    [discriminate|exact H].
Defined.

(** X6.  Inside [extract_json_from_response] the comma insertion never
    changes a candidate: the two substitutions before it leave no line
    break in the text, so it sees one line and returns it, and the whole
    repair is the collapse of white space, the replacement of the curly
    quotes, the removal of trailing commas and the closing of braces. *)
Theorem repair_never_inserts_commas candidate :
  Utility.fix_missing_commas_between_keys (collapse candidate)
  = collapse candidate /\
  Utility.repair candidate
  = Utility.fix_missing_braces
      (Utility.clean_trailing_commas (collapse candidate)).
Proof.
  split.
  - apply fix_missing_commas_one_line, collapse_no_linebreak.
  - apply repair_without_comma_insertion.
Qed.

(* ================================================================== *)
(** ** [extract_json_from_response] at its edges *)
(* ================================================================== *)

Lemma no_closing_brace_drop_while p t :
  no_closing_brace t = true -> no_closing_brace (drop_while p t) = true.
Proof.
  unfold no_closing_brace; induction t as [|c r IH]; intro H; [exact H|].
  cbn [drop_while]; destruct (p c); [|exact H].
  cbn [forallb] in H; apply andb_true_iff in H as [_ H]; auto.
Qed.

Lemma no_closing_brace_skipn n t :
  no_closing_brace t = true -> no_closing_brace (skipn n t) = true.
Proof.
  unfold no_closing_brace; revert t; induction n as [|n IH]; intros t H;
    [exact H|].
  destruct t as [|c r]; [exact H|].
  cbn [forallb] in H; apply andb_true_iff in H as [_ H]; cbn [skipn]; auto.
Qed.

Lemma fenced_body_needs_brace t :
  forall acc, no_closing_brace t = true -> Utility.fenced_body acc t = None.
Proof.
  unfold no_closing_brace; induction t as [|c r IH]; intros acc H;
    [reflexivity|].
  cbn [forallb] in H; apply andb_true_iff in H as [Hc Hr].
  apply negb_true_iff in Hc.
  cbn [Utility.fenced_body]; rewrite Hc; cbn [andb]; auto.
Qed.

Lemma fenced_rest_needs_brace t :
  no_closing_brace t = true -> Utility.fenced_rest t = None.
Proof.
  intro H; unfold Utility.fenced_rest.
  pose proof (no_closing_brace_drop_while is_space _ H) as Hd.
  destruct (drop_while is_space t) as [|c r]; [reflexivity|].
  destruct (c =? LBRACE); [|reflexivity].
  apply fenced_body_needs_brace.
  unfold no_closing_brace in *; cbn [forallb] in Hd.
  now apply andb_true_iff in Hd as [_ Hd].
Qed.

Lemma match_markdown_needs_brace t :
  no_closing_brace t = true -> Utility.match_markdown t = None.
Proof.
  intro H; unfold Utility.match_markdown.
  destruct (startswith t Utility.fence); [|reflexivity].
  pose proof (no_closing_brace_skipn 3 _ H) as H3.
  rewrite (fenced_rest_needs_brace _ H3).
  destruct (startswith (skipn 3 t) (str "json")); [|reflexivity].
  now rewrite (fenced_rest_needs_brace _ (no_closing_brace_skipn 4 _ H3)).
Qed.

Lemma findall_markdown_needs_brace t :
  forall skip,
    no_closing_brace t = true -> Utility.findall_markdown_from skip t = [].
Proof.
  induction t as [|c r IH]; intros skip H; [reflexivity|].
  cbn [Utility.findall_markdown_from].
  assert (Hr : no_closing_brace r = true).
  { unfold no_closing_brace in *; cbn [forallb] in H.
    now apply andb_true_iff in H as [_ H]. }
  destruct skip as [|k]; [|now apply IH].
  rewrite (match_markdown_needs_brace _ H); now apply IH.
Qed.

Lemma brace_scan_needs_brace max_depth text :
  forall todo i brace_count json_start json_blocks,
    no_closing_brace todo = true ->
    Utility.brace_scan max_depth text i todo brace_count json_start
      json_blocks
    = Ok json_blocks.
Proof.
  unfold no_closing_brace.
  induction todo as [|c todo IH]; intros i n st bs H; [reflexivity|].
  cbn [forallb] in H; apply andb_true_iff in H as [Hc Hr].
  apply negb_true_iff in Hc.
  cbn [Utility.brace_scan]; rewrite Hc.
  destruct (c =? LBRACE); now apply IH.
Qed.

(** X7.  A text without a closing brace gives no block to the two scanning
    tiers, so the result is that of the wrap tier; and as that tier leaves
    alone a text that opens with a brace, an object that was cut off before
    its closing brace is never completed: the result is the error marker.
    The same holds for a text without a closing brace and without a
    colon. *)
Theorem extract_without_closing_brace max_depth raw :
  no_closing_brace raw = true ->
  Utility.extract_json_from_response max_depth raw
  = Utility.wrap_tier max_depth raw /\
  (startswith (strip raw) [LBRACE] = true \/
   contains (strip raw) [COLON] = false ->
   Utility.extract_json_from_response max_depth raw
   = Ok Utility.no_valid_json).
Proof.
  intro H.
  assert (E : Utility.extract_json_from_response max_depth raw
              = Utility.wrap_tier max_depth raw).
  { unfold Utility.extract_json_from_response, Utility.findall_markdown,
      Utility.brace_blocks.
    rewrite (findall_markdown_needs_brace _ 0 H).
    now rewrite (brace_scan_needs_brace _ _ _ _ _ _ _ H). }
  split; [exact E|].
  rewrite E; unfold Utility.wrap_tier.
  intros [Hs | Hc]; [rewrite Hs|rewrite Hc, andb_false_r]; reflexivity.
Qed.

Lemma extract_without_closing_brace_witness :
  no_closing_brace truncated_answer = true /\
  startswith (strip truncated_answer) [LBRACE] = true /\
  Utility.extract_json_from_response 1000 truncated_answer
  = Ok Utility.no_valid_json.
Proof.
  split; [vm_compute; reflexivity|].
  split; [vm_compute; reflexivity|].
  apply (@extract_without_closing_brace 1000 truncated_answer);
    [|left]; vm_compute; reflexivity.
Defined.

(* ---------------------------------------------------------------- *)
(** *** Several blocks *)

Lemma get_fresh d k :
  existsb (str_eqb k) (Dict.keys d) = false -> Dict.get d k = None.
Proof.
  induction d as [|[k' v'] d IH]; intro H; [reflexivity|].
  cbn [Dict.keys List.map fst existsb] in H.
  apply orb_false_iff in H as [H1 H2].
  cbn [Dict.get].
  destruct (str_eqb k' k) eqn:E; [|now apply IH].
  apply str_eqb_eq in E; subst k'; now rewrite str_eqb_refl in H1.
Qed.

(** [update] on a [dict]: the keys of [other] take its values, every other
    key keeps its own. *)
Lemma get_update other :
  forall d k,
    unique_keys other = true ->
    Dict.get (Dict.update d other) k
    = match Dict.get other k with
      | Some v => Some v
      | None => Dict.get d k
      end.
Proof.
  unfold Dict.update.
  induction other as [|[k' v'] other IH]; intros d k U; [reflexivity|].
  cbn [unique_keys] in U; apply andb_true_iff in U as [Uk U].
  apply negb_true_iff in Uk.
  cbn [fold_left fst snd Dict.get]; rewrite IH by exact U.
  destruct (str_eqb k' k) eqn:E.
  - apply str_eqb_eq in E; subst k'.
    now rewrite (get_fresh _ _ Uk), get_set_same.
  - destruct (Dict.get other k); [reflexivity|].
    now apply get_set_other.
Qed.

Lemma tier_blocks_well_keyed max_depth raw blocks :
  tier_blocks max_depth raw = Ok blocks ->
  forallb well_keyed blocks = true.
Proof.
  unfold tier_blocks; destruct (Utility.findall_markdown raw); intro H.
  - now apply brace_scan_well_keyed in H.
  - now apply fenced_blocks_well_keyed in H.
Qed.

Lemma get_merge_blocks blocks :
  forallb well_keyed blocks = true ->
  forall k, Dict.get (Utility.merge_blocks blocks) k = last_binding blocks k.
Proof.
  unfold Utility.merge_blocks; intros H k.
  assert (G : forall bs acc,
             forallb well_keyed bs = true ->
             Dict.get
               (fold_left
                  (fun merged block =>
                     match block with
                     | PDict d => Dict.update merged d
                     | _ => merged
                     end) bs acc) k
             = match last_binding bs k with
               | Some v => Some v
               | None => Dict.get acc k
               end).
  { induction bs as [|b bs IH]; intros acc Hbs; [reflexivity|].
    cbn [forallb] in Hbs; apply andb_true_iff in Hbs as [Hb Hbs].
    cbn [fold_left last_binding]; rewrite IH by exact Hbs.
    destruct (last_binding bs k); [reflexivity|].
    destruct b; try reflexivity.
    cbn [well_keyed] in Hb; apply andb_true_iff in Hb as [_ Hb].
    now apply get_update. }
  rewrite G by exact H.
  now destruct (last_binding blocks k).
Qed.

(** X8.  When the tier that ran found two blocks or more, the result is one
    object that holds every key of every block, and under each key the
    value of the last block that has it: a later block overrides an earlier
    one. *)
Theorem extract_merges_blocks max_depth raw blocks :
  tier_blocks max_depth raw = Ok blocks ->
  (2 <= List.length blocks)%nat ->
  exists merged,
    Utility.extract_json_from_response max_depth raw = Ok (PDict merged) /\
    forall k, Dict.get merged k = last_binding blocks k.
Proof.
  intros E H; rewrite extract_by_tier, E; cbn [bind].
  unfold result_of_blocks.
  pose proof (tier_blocks_well_keyed _ _ E) as W.
  destruct blocks as [|b [|b' bs]]; cbn [List.length] in H; try lia.
  eexists; split; [reflexivity|].
  now apply get_merge_blocks.
Qed.

Lemma extract_merges_blocks_witness :
  tier_blocks 1000 two_fenced_answers
  = Ok [PDict [(str "classification", PStr (str "relevant"));
               (str "reason", PStr (str "efficiency"))];
        PDict [(str "classification", PStr (str "irrelevant"))]] /\
  exists merged,
    Utility.extract_json_from_response 1000 two_fenced_answers
    = Ok (PDict merged) /\
    Dict.get merged (str "classification") = Some (PStr (str "irrelevant")) /\
    Dict.get merged (str "reason") = Some (PStr (str "efficiency")).
Proof.
  split; [vm_compute; reflexivity|].
  destruct (@extract_merges_blocks 1000 two_fenced_answers _
              ltac:(vm_compute; reflexivity)) as (merged & E & G);
    [cbn [List.length]; lia|].
  exists merged; split; [exact E|].
  rewrite !G; split; vm_compute; reflexivity.
Defined.

(* ================================================================== *)
(** ** The evaluation helpers *)
(* ================================================================== *)

(** X9.  [normalize_value] never returns [None], returns its argument or
    the empty text, and is idempotent: what it returns it leaves alone. *)
Theorem normalize_value_idempotent val :
  normalize_value (normalize_value val) = normalize_value val /\
  normalize_value val <> PNone /\
  (normalize_value val = val \/ normalize_value val = PStr []).
Proof.
  destruct val as [| b | z | f | s | l | d]; cbn [normalize_value];
    try (repeat split; [discriminate|now left]).
  - repeat split; [discriminate|now right].
  - destruct (str_eqb (lower (strip s)) (str "none")
              || str_eqb (lower (strip s)) (str "null")) eqn:E.
    + repeat split; [discriminate|now right].
    + cbn [normalize_value]; rewrite E.
      repeat split; [discriminate|now left].
Qed.

(* ---------------------------------------------------------------- *)
(** *** Sets of leaves *)

Lemma member_In t s : member t s = true <-> In t s.
Proof.
  unfold member; destruct (in_dec leaf_eq_dec t s); split; auto; discriminate.
Qed.

Lemma In_leaf_set t leaves :
  In t (leaf_set leaves) <-> In t leaves /\ has_content t = true.
Proof. unfold leaf_set; now rewrite nodup_In, filter_In. Qed.

Lemma NoDup_leaf_set leaves : NoDup (leaf_set leaves).
Proof. apply NoDup_nodup. Qed.

Lemma In_intersection t a b : In t (intersection a b) <-> In t a /\ In t b.
Proof. unfold intersection; now rewrite filter_In, member_In. Qed.

Lemma same_set_length a b :
  NoDup a -> NoDup b -> same_set a b -> List.length a = List.length b.
Proof.
  intros Ha Hb H; apply Nat.le_antisymm; apply NoDup_incl_length; auto;
    intros t Ht; now apply H.
Qed.

Lemma intersection_length a b :
  NoDup a -> NoDup b ->
  (List.length (intersection a b) <= List.length a)%nat /\
  (List.length (intersection a b) <= List.length b)%nat /\
  List.length (intersection a b) = List.length (intersection b a).
Proof.
  intros Ha Hb; repeat split.
  - apply NoDup_incl_length; [now apply NoDup_filter|].
    intros t Ht; now apply In_intersection in Ht.
  - apply NoDup_incl_length; [now apply NoDup_filter|].
    intros t Ht; now apply In_intersection in Ht.
  - apply same_set_length; try now apply NoDup_filter.
    intro t; rewrite !In_intersection; tauto.
Qed.

Lemma Zpos_of_nat b : (0 < b)%nat -> Z.pos (Pos.of_nat b) = Z.of_nat b.
Proof.
  destruct b as [|b]; [lia|intros _].
  cbn [Z.of_nat]; now rewrite Pos.of_nat_succ.
Qed.

Lemma ratio_bounds a b :
  (0 < b)%nat -> (a <= b)%nat -> (0 <= ratio a b /\ ratio a b <= 1)%Q.
Proof.
  intros Hb Hab; unfold ratio, Qle; cbn [Qnum Qden].
  rewrite Zpos_of_nat by exact Hb; lia.
Qed.

Lemma ratio_one a b :
  (0 < b)%nat -> ((ratio a b == 1)%Q <-> a = b).
Proof.
  intro Hb; unfold ratio, Qeq; cbn [Qnum Qden].
  rewrite Zpos_of_nat by exact Hb; lia.
Qed.

Lemma ratio_zero a b : (ratio a b == 0)%Q <-> a = 0%nat.
Proof. unfold ratio, Qeq; cbn [Qnum Qden]; lia. Qed.

Lemma ratio_swap a b c :
  (0 < b)%nat -> (0 < c)%nat ->
  (ratio a b * ratio a c == ratio a c * ratio a b)%Q.
Proof. intros; apply Qmult_comm. Qed.

(** The harmonic mean of two numbers between 0 and 1, as the code computes
    it, lies between 0 and 1. *)
Lemma f1_bounds p r :
  (0 <= p /\ p <= 1)%Q -> (0 <= r /\ r <= 1)%Q ->
  (0 <= (if Qeq_bool (p + r) 0 then 0 else 2 * p * r / (p + r)) /\
   (if Qeq_bool (p + r) 0 then 0 else 2 * p * r / (p + r)) <= 1)%Q.
Proof.
  intros [Hp0 Hp1] [Hr0 Hr1].
  destruct (Qeq_bool (p + r) 0) eqn:E; [split; lra|].
  apply Qeq_bool_neq in E.
  assert (Hs : (0 < p + r)%Q).
  { destruct (Qlt_le_dec 0 (p + r)) as [H|H]; [exact H|].
    exfalso; apply E; lra. }
  split.
  - apply Qle_shift_div_l; [exact Hs|]. nra.
  - apply Qle_shift_div_r; [exact Hs|]. nra.
Qed.

Lemma length_pos A (l : list A) : l <> [] -> (0 < List.length l)%nat.
Proof. destruct l; [congruence|cbn; lia]. Qed.

(** X10.  Whatever the two sets of leaves, the precision, the recall and
    the F1 that [calculate_metrics] returns lie between 0 and 1 (the floats
    taken as exact quotients). *)
Theorem calculate_metrics_bounds gold_norms pred_norms :
  let '(precision, recall, f1) := calculate_metrics gold_norms pred_norms in
  (0 <= precision /\ precision <= 1)%Q /\
  (0 <= recall /\ recall <= 1)%Q /\
  (0 <= f1 /\ f1 <= 1)%Q.
Proof.
  unfold calculate_metrics.
  pose proof (NoDup_leaf_set gold_norms) as Hg.
  pose proof (NoDup_leaf_set pred_norms) as Hp.
  destruct (intersection_length Hg Hp) as (Lg & Lp & _).
  set (correct := intersection (leaf_set gold_norms) (leaf_set pred_norms)) in *.
  assert (P : (0 <= match leaf_set pred_norms with
                    | [] => match leaf_set gold_norms with
                            | [] => 1 | _ :: _ => 0 end
                    | _ :: _ => ratio (List.length correct)
                                  (List.length (leaf_set pred_norms))
                    end
               /\ match leaf_set pred_norms with
                  | [] => match leaf_set gold_norms with
                          | [] => 1 | _ :: _ => 0 end
                  | _ :: _ => ratio (List.length correct)
                                (List.length (leaf_set pred_norms))
                  end <= 1)%Q).
  { destruct (leaf_set pred_norms) eqn:E.
    - destruct (leaf_set gold_norms); split; lra.
    - rewrite <- E in *; apply ratio_bounds; [|exact Lp].
      apply length_pos; rewrite E; discriminate. }
  assert (R : (0 <= match leaf_set gold_norms with
                    | [] => match leaf_set pred_norms with
                            | [] => 1 | _ :: _ => 0 end
                    | _ :: _ => ratio (List.length correct)
                                  (List.length (leaf_set gold_norms))
                    end
               /\ match leaf_set gold_norms with
                  | [] => match leaf_set pred_norms with
                          | [] => 1 | _ :: _ => 0 end
                  | _ :: _ => ratio (List.length correct)
                                (List.length (leaf_set gold_norms))
                  end <= 1)%Q).
  { destruct (leaf_set gold_norms) eqn:E.
    - destruct (leaf_set pred_norms); split; lra.
    - rewrite <- E in *; apply ratio_bounds; [|exact Lg].
      apply length_pos; rewrite E; discriminate. }
  split; [exact P|]; split; [exact R|].
  now apply f1_bounds.
Qed.

Lemma calculate_metrics_counts gold_norms pred_norms :
  calculate_metrics gold_norms pred_norms
  = metrics_of_counts
      (List.length (intersection (leaf_set gold_norms) (leaf_set pred_norms)))
      (List.length (leaf_set gold_norms))
      (List.length (leaf_set pred_norms)).
Proof.
  unfold calculate_metrics, metrics_of_counts.
  destruct (leaf_set gold_norms), (leaf_set pred_norms); reflexivity.
Qed.

Lemma same_set_leaf_set a b : same_set a b -> same_set (leaf_set a) (leaf_set b).
Proof. intros H t; rewrite !In_leaf_set, (H t); tauto. Qed.

(** The metrics depend on the two sets only, not on the lists that stand
    for them. *)
Lemma calculate_metrics_same_set gold gold' pred pred' :
  same_set gold gold' -> same_set pred pred' ->
  calculate_metrics gold pred = calculate_metrics gold' pred'.
Proof.
  intros Hg Hp; rewrite !calculate_metrics_counts.
  apply same_set_leaf_set in Hg, Hp.
  f_equal.
  - apply same_set_length;
      try (apply NoDup_filter; apply NoDup_leaf_set).
    intro t; rewrite !In_intersection, (Hg t), (Hp t); tauto.
  - apply same_set_length; auto using NoDup_leaf_set.
  - apply same_set_length; auto using NoDup_leaf_set.
Qed.

Lemma f1_one p r :
  (p == 1)%Q -> (r == 1)%Q ->
  ((if Qeq_bool (p + r) 0 then 0 else 2 * p * r / (p + r)) == 1)%Q.
Proof.
  intros Hp Hr; destruct (Qeq_bool (p + r) 0) eqn:E.
  - apply Qeq_bool_eq in E; lra.
  - rewrite Hp, Hr; reflexivity.
Qed.

(** X11.  The precision and the recall are both 1 exactly when the two sets
    hold the same leaves (the leaves without content left aside), two empty
    sets included, and then the F1 is 1 as well. *)
Theorem calculate_metrics_perfect_iff gold_norms pred_norms :
  let '(precision, recall, f1) := calculate_metrics gold_norms pred_norms in
  (same_set (leaf_set gold_norms) (leaf_set pred_norms) ->
   (precision == 1 /\ recall == 1 /\ f1 == 1)%Q) /\
  ((precision == 1)%Q -> (recall == 1)%Q ->
   same_set (leaf_set gold_norms) (leaf_set pred_norms)).
Proof.
  rewrite calculate_metrics_counts.
  pose proof (NoDup_leaf_set gold_norms) as Ng.
  pose proof (NoDup_leaf_set pred_norms) as Np.
  set (G := leaf_set gold_norms) in *; set (P := leaf_set pred_norms) in *.
  assert (Nc : NoDup (intersection G P)) by now apply NoDup_filter.
  assert (Ig : incl (intersection G P) G)
    by (intros t Ht; now apply In_intersection in Ht).
  assert (Ip : incl (intersection G P) P)
    by (intros t Ht; now apply In_intersection in Ht).
  unfold metrics_of_counts; split.
  - intro H.
    assert (Lgp : List.length G = List.length P)
      by now apply same_set_length.
    assert (Lc : List.length (intersection G P) = List.length G).
    { apply same_set_length; auto.
      intro t; rewrite In_intersection, <- (H t); tauto. }
    rewrite Lc, <- Lgp.
    destruct (List.length G) as [|n] eqn:E.
    + repeat split; reflexivity.
    + assert (R : (ratio (S n) (S n) == 1)%Q) by (apply ratio_one; lia).
      split; [exact R|]; split; [exact R|]; now apply f1_one.
  - intros Hp Hr.
    destruct (List.length P) as [|np] eqn:Ep.
    + destruct (List.length G) as [|ng] eqn:Eg; [|discriminate Hp].
      destruct G, P; try discriminate; intro t; tauto.
    + destruct (List.length G) as [|ng] eqn:Eg; [discriminate Hr|].
      apply ratio_one in Hp, Hr; try lia.
      assert (Hg : incl G (intersection G P))
        by (apply NoDup_length_incl; auto; lia).
      assert (Hq : incl P (intersection G P))
        by (apply NoDup_length_incl; auto; lia).
      intro t; split; intro Ht; [apply Ip, Hg|apply Ig, Hq]; exact Ht.
Qed.

Lemma calculate_metrics_perfect_iff_witness :
  same_set (leaf_set gold_leaves) (leaf_set pred_leaves) /\
  (let '(precision, recall, f1) := calculate_metrics gold_leaves pred_leaves in
   precision == 1 /\ recall == 1 /\ f1 == 1)%Q.
Proof.
  assert (H : same_set (leaf_set gold_leaves) (leaf_set pred_leaves)).
  { intro t; vm_compute; tauto. }
  split; [exact H|].
  pose proof (calculate_metrics_perfect_iff gold_leaves pred_leaves) as T.
  destruct (calculate_metrics gold_leaves pred_leaves) as [[p r] f].
  exact (proj1 T H).
Defined.

Lemma f1_comm p r :
  ((if Qeq_bool (r + p) 0 then 0 else 2 * r * p / (r + p))
   == (if Qeq_bool (p + r) 0 then 0 else 2 * p * r / (p + r)))%Q.
Proof.
  destruct (Qeq_bool (r + p) 0) eqn:E1, (Qeq_bool (p + r) 0) eqn:E2;
    try reflexivity.
  - apply Qeq_bool_eq in E1; apply Qeq_bool_neq in E2; exfalso; apply E2; lra.
  - apply Qeq_bool_eq in E2; apply Qeq_bool_neq in E1; exfalso; apply E1; lra.
  - apply Qeq_bool_neq in E1, E2; field; intro; apply E2; lra.
Qed.

(** X12.  Exchanging the gold set and the predicted set exchanges the
    precision and the recall and leaves the F1 as it is. *)
Theorem calculate_metrics_swap gold_norms pred_norms :
  let '(precision, recall, f1) := calculate_metrics gold_norms pred_norms in
  let '(precision', recall', f1') := calculate_metrics pred_norms gold_norms in
  precision' = recall /\ recall' = precision /\ (f1' == f1)%Q.
Proof.
  rewrite !calculate_metrics_counts.
  destruct (intersection_length (NoDup_leaf_set gold_norms)
              (NoDup_leaf_set pred_norms)) as (_ & _ & L).
  rewrite <- L; unfold metrics_of_counts.
  split; [reflexivity|]; split; [reflexivity|].
  apply f1_comm.
Qed.

(* ---------------------------------------------------------------- *)
(** *** [flatten_json] *)

Lemma flatten_json_prefix float_repr container_repr :
  forall obj prefix,
    flatten_json float_repr container_repr obj prefix
    = List.map (app prefix) (flatten_json float_repr container_repr obj []).
Proof.
  induction obj as [| b | z | f | s | l IH | d IH] using pyval_induction;
    intro prefix; try reflexivity.
  - cbn [flatten_json].
    induction IH as [|x l Hx _ IHl]; [reflexivity|].
    cbn [flat_map]; now rewrite map_app, <- IHl, <- Hx.
  - cbn [flatten_json].
    induction IH as [|[k v] d Hv _ IHd]; [reflexivity|].
    cbn [flat_map fst snd] in *; rewrite map_app, <- IHd.
    f_equal; rewrite (Hv (prefix ++ [k])), (Hv ([] ++ [k])), map_map.
    apply map_ext; intro t; cbn [app]; now rewrite <- app_assoc.
Qed.

Lemma flatten_json_list_same float_repr container_repr l l' prefix :
  (forall x, In x l <-> In x l') ->
  same_set (flatten_json float_repr container_repr (PList l) prefix)
           (flatten_json float_repr container_repr (PList l') prefix).
Proof.
  intros H t; cbn [flatten_json]; rewrite !in_flat_map.
  split; intros (x & Hx & Ht); exists x; split; auto; now apply H.
Qed.

(** X13.  [flatten_json] records the keys that lead to a value and nothing
    of the lists on the way: the leaves under a prefix are the leaves under
    the empty prefix with the prefix in front; the leaves of a list are
    those of its items, so that two lists with the same items, in any order
    and any number of times, have the same leaves, and a list inside a list
    counts as its items; an empty list or object has no leaf, so a field
    that holds one leaves no trace. *)
Theorem flatten_json_forgets_lists float_repr container_repr :
  (forall obj prefix,
      flatten_json float_repr container_repr obj prefix
      = List.map (app prefix)
          (flatten_json float_repr container_repr obj [])) /\
  (forall l l' prefix,
      (forall x, In x l <-> In x l') ->
      same_set (flatten_json float_repr container_repr (PList l) prefix)
               (flatten_json float_repr container_repr (PList l') prefix)) /\
  (forall l prefix,
      flatten_json float_repr container_repr (PList [PList l]) prefix
      = flatten_json float_repr container_repr (PList l) prefix) /\
  (forall d k empty prefix,
      empty = PList [] \/ empty = PDict [] ->
      flatten_json float_repr container_repr (PDict (d ++ [(k, empty)])) prefix
      = flatten_json float_repr container_repr (PDict d) prefix).
Proof.
  split; [apply flatten_json_prefix|].
  split; [intros; now apply flatten_json_list_same|].
  split.
  - intros l prefix; cbn [flatten_json flat_map]; now rewrite app_nil_r.
  - intros d k empty prefix H; cbn [flatten_json].
    rewrite flat_map_app; cbn [flat_map fst snd].
    destruct H as [-> | ->]; cbn [flatten_json flat_map]; now rewrite !app_nil_r.
Qed.

Lemma flatten_json_forgets_lists_witness :
  (forall x, In x [PInt 1; PInt 2] <-> In x [PInt 2; PInt 1; PInt 2]) /\
  same_set
    (flatten_json (fun _ => []) (fun _ => []) (PList [PInt 1; PInt 2])
       [str "n"])
    (flatten_json (fun _ => []) (fun _ => []) (PList [PInt 2; PInt 1; PInt 2])
       [str "n"]) /\
  flatten_json (fun _ => []) (fun _ => [])
    (PDict ([(str "a", PInt 1)] ++ [(str "b", PList [])])) []
  = [[str "a"; str "1"]].
Proof.
  assert (H : forall x, In x [PInt 1; PInt 2] <-> In x [PInt 2; PInt 1; PInt 2])
    by (intro x; cbn [In]; tauto).
  split; [exact H|].
  destruct (flatten_json_forgets_lists (fun _ => []) (fun _ => []))
    as (_ & L & _ & D).
  split; [exact (L _ _ [str "n"] H)|].
  rewrite (D [(str "a", PInt 1)] (str "b") (PList []) [] (or_introl eq_refl)).
  vm_compute; reflexivity.
Defined.

(** X14.  The metrics of a prediction do not change when the items of one
    of its list fields are reordered or repeated: [flatten_json] gives the
    same set of leaves, and [calculate_metrics] sees the sets only. *)
Theorem calculate_metrics_ignores_list_order
    float_repr container_repr gold_norms before k l l' after :
  (forall x, In x l <-> In x l') ->
  calculate_metrics gold_norms
    (flatten_json float_repr container_repr
       (PDict (before ++ (k, PList l) :: after)) [])
  = calculate_metrics gold_norms
      (flatten_json float_repr container_repr
         (PDict (before ++ (k, PList l') :: after)) []).
Proof.
  intro H; apply calculate_metrics_same_set; [intro t; tauto|].
  intro t; cbn [flatten_json]; rewrite !flat_map_app, !in_app_iff.
  cbn [flat_map fst snd]; rewrite !in_app_iff.
  pose proof (@flatten_json_list_same float_repr container_repr l l'
                ([] ++ [k]) H t) as Hm.
  tauto.
Qed.

Lemma calculate_metrics_ignores_list_order_witness :
  (forall x,
      In x [PStr (str "perovskite"); PStr (str "silicon")] <->
      In x [PStr (str "silicon"); PStr (str "perovskite");
            PStr (str "silicon")]) /\
  calculate_metrics gold_leaves
    (flatten_json (fun _ => []) (fun _ => []) listed_materials [])
  = calculate_metrics gold_leaves
      (flatten_json (fun _ => []) (fun _ => []) relisted_materials []).
Proof.
  assert (H : forall x,
             In x [PStr (str "perovskite"); PStr (str "silicon")] <->
             In x [PStr (str "silicon"); PStr (str "perovskite");
                   PStr (str "silicon")])
    by (intro x; cbn [In]; tauto).
  split; [exact H|].
  exact (@calculate_metrics_ignores_list_order (fun _ => []) (fun _ => [])
           gold_leaves [] (str "materials") _ _ [(str "year", PInt 2024)] H).
Defined.

(* ---------------------------------------------------------------- *)
(** *** [sanitize_path_segment] *)

(** X15.  [sanitize_path_segment] returns a name of the same length made of
    ASCII letters, digits, underscores and hyphens only (no slash, no dot,
    no space), changes nothing in a name that is made of them already, and
    changes nothing when applied a second time. *)
Theorem sanitize_path_segment_safe name :
  List.length (sanitize_path_segment name) = List.length name /\
  forallb is_path_safe (sanitize_path_segment name) = true /\
  (forall c, In c [47; 92; 46; 32; 58] ->
             ~ In c (sanitize_path_segment name)) /\
  (forallb is_path_safe name = true -> sanitize_path_segment name = name) /\
  sanitize_path_segment (sanitize_path_segment name)
  = sanitize_path_segment name.
Proof.
  assert (S : forallb is_path_safe (sanitize_path_segment name) = true).
  { unfold sanitize_path_segment; induction name as [|c r IH]; [reflexivity|].
    cbn [List.map forallb]; rewrite IH, andb_true_r.
    destruct (is_path_safe c) eqn:E; [exact E|reflexivity]. }
  assert (F : forall n, forallb is_path_safe n = true ->
                        sanitize_path_segment n = n).
  { unfold sanitize_path_segment; induction n as [|c r IH]; [reflexivity|].
    cbn [List.map forallb]; intro H; apply andb_true_iff in H as [Hc Hr].
    now rewrite Hc, IH. }
  split; [apply length_map|]; split; [exact S|]; split; [|split; auto].
  intros c Hc Hin.
  rewrite forallb_forall in S; specialize (S c Hin).
  cbn [In] in Hc; destruct Hc as [<- | [<- | [<- | [<- | [<- | []]]]]];
    discriminate S.
Qed.

Lemma sanitize_path_segment_safe_witness :
  In 47 [47; 92; 46; 32; 58] /\
  sanitize_path_segment (str "mistralai/mistral-large") 
  = str "mistralai_mistral-large" /\
  ~ In 47 (sanitize_path_segment (str "mistralai/mistral-large")) /\
  forallb is_path_safe (str "mistral-large") = true /\
  sanitize_path_segment (str "mistral-large") = str "mistral-large".
Proof.
  split; [cbn [In]; tauto|].
  split; [vm_compute; reflexivity|].
  destruct (sanitize_path_segment_safe (str "mistralai/mistral-large"))
    as (_ & _ & N & _).
  split; [apply N; cbn [In]; tauto|].
  split; [vm_compute; reflexivity|].
  destruct (sanitize_path_segment_safe (str "mistral-large"))
    as (_ & _ & _ & F & _).
  apply F; vm_compute; reflexivity.
Defined.

(* ================================================================== *)
(** ** The experiment folders *)
(* ================================================================== *)

Lemma fold_max_spec n l :
  n <= fold_right N.max n l /\
  (forall m, In m l -> m <= fold_right N.max n l) /\
  (fold_right N.max n l = n \/ In (fold_right N.max n l) l).
Proof.
  induction l as [|a l (IH1 & IH2 & IH3)]; cbn [fold_right In].
  - split; [lia|]; split; [tauto|now left].
  - split; [lia|]; split.
    + intros m [<- | Hm]; [lia|]. specialize (IH2 m Hm); lia.
    + destruct (N.max_spec a (fold_right N.max n l)) as [[_ ->] | [_ ->]];
        tauto.
Qed.

(** The next number is above every number in use, and right above one of
    them. *)
Lemma next_number_spec decimal_value entries :
  (forall m, In m (experiment_numbers decimal_value entries) ->
             m < next_number decimal_value entries) /\
  (experiment_numbers decimal_value entries = [] ->
   next_number decimal_value entries = 0) /\
  (experiment_numbers decimal_value entries <> [] ->
   exists m, In m (experiment_numbers decimal_value entries) /\
             next_number decimal_value entries = m + 1).
Proof.
  unfold next_number.
  destruct (experiment_numbers decimal_value entries) as [|n l].
  - split; [intros m []|]; split; [reflexivity|congruence].
  - destruct (fold_max_spec n l) as (H1 & H2 & H3).
    split; [|split; [discriminate|]].
    + intros m [<- | Hm]; [lia|]. specialize (H2 m Hm); lia.
    + intros _; exists (fold_right N.max n l); split; [|reflexivity].
      destruct H3 as [-> | H3]; [now left|now right].
Qed.

Lemma get_next_experiment_number_format decimal_value entries :
  get_next_experiment_number decimal_value (Some entries)
  = format_03d (next_number decimal_value entries).
Proof.
  unfold get_next_experiment_number, next_number.
  now destruct (experiment_numbers decimal_value entries).
Qed.

Lemma In_experiment_numbers decimal_value entries m :
  In m (experiment_numbers decimal_value entries) <->
  exists name, In (name, true) entries /\
               experiment_number decimal_value name = Some m.
Proof.
  unfold experiment_numbers; rewrite in_flat_map; split.
  - intros ([name [|]] & Hin & Hm); cbn [fst snd] in Hm; [|destruct Hm].
    destruct (experiment_number decimal_value name) as [n|] eqn:E;
      [|destruct Hm].
    destruct Hm as [<- | []]; eauto.
  - intros (name & Hin & E); exists (name, true); split; [exact Hin|].
    cbn [fst snd]; rewrite E; now left.
Qed.

Lemma experiment_number_bound decimal_value name m :
  decimal_table decimal_value ->
  experiment_number decimal_value name = Some m -> m < 1000.
Proof.
  intros [_ D] H; unfold experiment_number in H.
  destruct name as [|a [|b [|c [|u r]]]]; try discriminate.
  destruct (decimal_value a) as [x|] eqn:Ea; [|discriminate].
  destruct (decimal_value b) as [y|] eqn:Eb; [|discriminate].
  destruct (decimal_value c) as [z|] eqn:Ec; [|discriminate].
  destruct (u =? 95); [|discriminate].
  apply D in Ea, Eb, Ec; inversion H; lia.
Qed.

Lemma next_number_bound decimal_value entries :
  decimal_table decimal_value -> next_number decimal_value entries <= 1000.
Proof.
  intro T; destruct (next_number_spec decimal_value entries) as (_ & H0 & H1).
  destruct (experiment_numbers decimal_value entries) as [|n l] eqn:E.
  - rewrite H0 by reflexivity; lia.
  - destruct H1 as (m & Hm & ->); [discriminate|].
    rewrite <- E in Hm; apply In_experiment_numbers in Hm as (name & _ & Hn).
    pose proof (experiment_number_bound _ T Hn); lia.
Qed.

(** Below a thousand [f"{n:03d}"] has three ASCII digits that read as
    [n]. *)
Lemma format_03d_digits n :
  n < 1000 ->
  exists a b c,
    format_03d n = [a; b; c] /\
    Json.is_digit a = true /\ Json.is_digit b = true /\
    Json.is_digit c = true /\
    ((a - 48) * 10 + (b - 48)) * 10 + (c - 48) = n.
Proof.
  intro H.
  assert (A : forallb
                (fun k =>
                   match format_03d k with
                   | [a; b; c] =>
                       Json.is_digit a && Json.is_digit b && Json.is_digit c
                       && (((a - 48) * 10 + (b - 48)) * 10 + (c - 48) =? k)
                   | _ => false
                   end)
                (List.map N.of_nat (seq 0 1000)) = true)
    by (vm_compute; reflexivity).
  rewrite forallb_forall in A; specialize (A n).
  destruct (format_03d n) as [|a [|b [|c [|u r]]]];
    try (exfalso; assert (false = true); [apply A|discriminate]);
    try (rewrite in_map_iff; exists (N.to_nat n);
         split; [apply N2Nat.id|apply in_seq; lia]).
  assert (Hc : Json.is_digit a && Json.is_digit b && Json.is_digit c
               && (((a - 48) * 10 + (b - 48)) * 10 + (c - 48) =? n) = true).
  { apply A; rewrite in_map_iff; exists (N.to_nat n).
    split; [apply N2Nat.id|apply in_seq; lia]. }
  apply andb_true_iff in Hc as [Hc H4]; apply andb_true_iff in Hc as [Hc H3].
  apply andb_true_iff in Hc as [H1 H2]; apply N.eqb_eq in H4.
  exists a, b, c; auto.
Qed.

Lemma experiment_number_of_format decimal_value n rest :
  decimal_table decimal_value -> n < 1000 ->
  experiment_number decimal_value (format_03d n ++ 95 :: rest) = Some n.
Proof.
  intros [A _] H.
  destruct (format_03d_digits H) as (a & b & c & -> & Ha & Hb & Hc & E).
  cbn [app experiment_number].
  now rewrite (A a Ha), (A b Hb), (A c Hc), N.eqb_refl, E.
Qed.

Lemma startswith_split p :
  forall s, startswith s p = true -> exists rest, s = p ++ rest.
Proof.
  induction p as [|x p IH]; intros s H; [now exists s|].
  destruct s as [|c s]; [discriminate|].
  cbn [startswith] in H; apply andb_true_iff in H as [Hc Hs].
  apply N.eqb_eq in Hc; subst c.
  destruct (IH s Hs) as [rest ->]; now exists rest.
Qed.

(** X16.  [get_next_experiment_number] returns "000" for a directory that
    does not exist or holds no numbered folder, and otherwise the number
    right above the highest one in use.  As long as that is below a
    thousand it is written with three ASCII digits and is new: no folder of
    the directory has a name that starts with it and an underscore.  Files
    are not looked at. *)
Theorem get_next_experiment_number_fresh decimal_value entries :
  decimal_table decimal_value ->
  get_next_experiment_number decimal_value None = str "000" /\
  (experiment_numbers decimal_value entries = [] ->
   get_next_experiment_number decimal_value (Some entries) = str "000") /\
  get_next_experiment_number decimal_value (Some entries)
  = format_03d (next_number decimal_value entries) /\
  (forall name m,
      In (name, true) entries ->
      experiment_number decimal_value name = Some m ->
      m < next_number decimal_value entries) /\
  (next_number decimal_value entries < 1000 ->
   List.length (get_next_experiment_number decimal_value (Some entries))
   = 3%nat /\
   forallb Json.is_digit
     (get_next_experiment_number decimal_value (Some entries)) = true /\
   forall name,
     In (name, true) entries ->
     startswith name
       (get_next_experiment_number decimal_value (Some entries) ++ [95])
     = false).
Proof.
  intro T; split; [reflexivity|].
  split; [unfold get_next_experiment_number; now intros ->|].
  split; [apply get_next_experiment_number_format|].
  destruct (next_number_spec decimal_value entries) as (Hlt & _ & _).
  split.
  - intros name m Hin Hm; apply Hlt, In_experiment_numbers; eauto.
  - intro Hn; rewrite get_next_experiment_number_format.
    destruct (format_03d_digits Hn) as (a & b & c & E & Ha & Hb & Hc & V).
    split; [now rewrite E|].
    split; [rewrite E; cbn [forallb]; now rewrite Ha, Hb, Hc|].
    intros name Hin.
    destruct (startswith name (format_03d (next_number decimal_value entries)
                               ++ [95])) eqn:S; [exfalso|reflexivity].
    apply startswith_split in S as [rest ->].
    rewrite <- app_assoc in Hin; cbn [app] in Hin.
    assert (Hm : In (next_number decimal_value entries)
                   (experiment_numbers decimal_value entries)).
    { apply In_experiment_numbers; eexists; split; [exact Hin|].
      now apply experiment_number_of_format. }
    apply Hlt in Hm; lia.
Qed.

Lemma ascii_decimal_table : decimal_table ascii_decimal.
Proof.
  unfold decimal_table, ascii_decimal; split.
  - now intros c ->.
  - intros c d H; destruct (Json.is_digit c) eqn:E; [|discriminate].
    inversion H; subst d; unfold Json.is_digit in E.
    apply andb_true_iff in E as [E1 E2].
    apply N.leb_le in E1, E2; lia.
Qed.

Lemma get_next_experiment_number_fresh_witness :
  decimal_table ascii_decimal /\
  next_number ascii_decimal demo_experiments < 1000 /\
  get_next_experiment_number ascii_decimal (Some demo_experiments)
  = str "008" /\
  forall name,
    In (name, true) demo_experiments ->
    startswith name
      (get_next_experiment_number ascii_decimal (Some demo_experiments)
       ++ [95]) = false.
Proof.
  split; [exact ascii_decimal_table|].
  split; [vm_compute; reflexivity|].
  split; [vm_compute; reflexivity|].
  destruct (get_next_experiment_number_fresh demo_experiments
              ascii_decimal_table) as (_ & _ & _ & _ & F).
  apply F; vm_compute; reflexivity.
Defined.

Lemma experiment_numbers_snoc decimal_value entries name :
  experiment_numbers decimal_value (entries ++ [(name, true)])
  = experiment_numbers decimal_value entries
    ++ match experiment_number decimal_value name with
       | Some n => [n]
       | None => []
       end.
Proof.
  unfold experiment_numbers; rewrite flat_map_app; cbn [flat_map fst snd].
  now rewrite app_nil_r.
Qed.

Lemma experiment_number_thousand decimal_value rest :
  decimal_table decimal_value ->
  experiment_number decimal_value (format_03d 1000 ++ 95 :: rest) = None.
Proof.
  intros [A _].
  change (format_03d 1000) with [49; 48; 48; 48].
  cbn [app experiment_number].
  rewrite (A 49 eq_refl), (A 48 eq_refl); reflexivity.
Qed.

(** X17.  [create_experiment_folder] numbers the experiments one after the
    other: as long as the next number is below a thousand, the folder it
    names is added to the directory (none of that name can be there), and
    the call after it gets the following number.  From a thousand on the
    number has four digits, the pattern does not read it, and every later
    call gets a thousand again. *)
Theorem create_experiment_folder_numbering
    decimal_value entries dt_str model_name dataset_name folder_name after :
  decimal_table decimal_value ->
  create_experiment_folder decimal_value entries dt_str model_name
    dataset_name = Some (folder_name, after) ->
  folder_name
  = experiment_folder_name
      (get_next_experiment_number decimal_value (Some entries))
      dt_str model_name dataset_name /\
  (next_number decimal_value entries < 1000 ->
   after = entries ++ [(folder_name, true)] /\
   next_number decimal_value after = next_number decimal_value entries + 1) /\
  (next_number decimal_value entries = 1000 ->
   next_number decimal_value after = 1000).
Proof.
  intros T H; unfold create_experiment_folder in H.
  rewrite get_next_experiment_number_format in *.
  set (n := next_number decimal_value entries) in *.
  set (name := experiment_folder_name (format_03d n) dt_str model_name
                 dataset_name) in *.
  assert (Hname : exists rest, name = format_03d n ++ 95 :: rest).
  { subst name; unfold experiment_folder_name; cbn [app]; eauto. }
  destruct Hname as [rest Hname].
  destruct (next_number_spec decimal_value entries) as (Hlt & _ & _).
  fold n in Hlt.
  assert (Hsmall : n < 1000 -> experiment_number decimal_value name = Some n)
    by (intro; rewrite Hname; now apply experiment_number_of_format).
  assert (Hbig : n = 1000 -> experiment_number decimal_value name = None)
    by (intros E; rewrite Hname, E; now apply experiment_number_thousand).
  destruct (List.find _ entries) as [[e [|]]|] eqn:F; try discriminate;
    inversion H; subst folder_name after; clear H;
    (split; [reflexivity|]).
  - apply find_some in F as [Hin He]; cbn [fst] in He.
    apply str_eqb_eq in He; subst e.
    split; [|intro E; exact E].
    intro Hn; exfalso.
    assert (Hm : In n (experiment_numbers decimal_value entries))
      by (apply In_experiment_numbers; eauto).
    apply Hlt in Hm; lia.
  - split.
    + intro Hn; split; [reflexivity|].
      destruct (next_number_spec decimal_value (entries ++ [(name, true)]))
        as (Hlt' & _ & Hex).
      rewrite experiment_numbers_snoc, (Hsmall Hn) in Hlt', Hex.
      destruct Hex as (m & Hm & Hnext);
        [now destruct (experiment_numbers decimal_value entries)|].
      assert (Hn' : n < next_number decimal_value (entries ++ [(name, true)]))
        by (apply Hlt', in_app_iff; right; now left).
      apply in_app_iff in Hm as [Hm | [<- | []]]; [|exact Hnext].
      apply Hlt in Hm; lia.
    + intro Hn; unfold next_number in *.
      now rewrite experiment_numbers_snoc, (Hbig Hn), app_nil_r.
Qed.

Lemma create_experiment_folder_numbering_witness :
  decimal_table ascii_decimal /\
  create_experiment_folder ascii_decimal demo_experiments
    (str "03_05_25_12_00") (str "mistralai/mistral-large") (str "papers")
  = Some (demo_folder_name, demo_experiments ++ [(demo_folder_name, true)]) /\
  next_number ascii_decimal demo_experiments < 1000 /\
  next_number ascii_decimal (demo_experiments ++ [(demo_folder_name, true)])
  = next_number ascii_decimal demo_experiments + 1.
Proof.
  split; [exact ascii_decimal_table|].
  assert (H : create_experiment_folder ascii_decimal demo_experiments
                (str "03_05_25_12_00") (str "mistralai/mistral-large")
                (str "papers")
              = Some (demo_folder_name,
                      demo_experiments ++ [(demo_folder_name, true)]))
    by (vm_compute; reflexivity).
  split; [exact H|].
  split; [vm_compute; reflexivity|].
  destruct (@create_experiment_folder_numbering _ _ _ _ _ _ _
              ascii_decimal_table H) as (_ & S & _).
  apply S; vm_compute; reflexivity.
Defined.

(* ================================================================== *)
(** ** The prompt builder and the check of the pipeline script *)
(* ================================================================== *)

Lemma truthy_py_or a b : truthy (py_or a b) = truthy a || truthy b.
Proof. unfold py_or; destruct (truthy a) eqn:E; [exact E|reflexivity]. Qed.

Lemma truthy_get d k :
  match Dict.get d k with Some v => truthy v | None => false end
  = truthy (get_or_none d k).
Proof. unfold get_or_none; now destruct (Dict.get d k). Qed.

Lemma schema_has_examples_truthy ph :
  _schema_has_examples (PDict ph)
  = truthy
      (py_or (get_or_none ph (str "EXAMPLES"))
         (py_or (get_or_none ph (str "examples"))
            (py_or (get_or_none ph (str "EXAMPLE"))
               (py_or (get_or_none ph (str "example")) (PList []))))).
Proof.
  unfold _schema_has_examples, EXAMPLE_KEYS; cbn [existsb].
  rewrite !truthy_py_or, !truthy_get; cbn [truthy].
  destruct (truthy (get_or_none ph (str "examples"))),
    (truthy (get_or_none ph (str "EXAMPLES"))),
    (truthy (get_or_none ph (str "example"))),
    (truthy (get_or_none ph (str "EXAMPLE"))); reflexivity.
Qed.

Lemma str_items_error l e : str_items l = Raise e -> e = TypeError.
Proof.
  induction l as [|x l IH]; cbn [str_items]; [discriminate|].
  destruct x; try (intro H; now inversion H).
  destruct (str_items l); cbn [bind]; [discriminate|].
  intro H; inversion H; subst; now apply IH.
Qed.

Lemma join_lines_error v e : join_lines v = Raise e -> e = TypeError.
Proof.
  unfold join_lines; destruct v; try (intro H; now inversion H);
    try discriminate.
  destruct (str_items l) eqn:S; cbn [bind]; [discriminate|].
  intro H; inversion H; subst; now apply (str_items_error l).
Qed.

Lemma _wrap_error float_repr container_repr key value e :
  _wrap float_repr container_repr key value = Raise e -> e = TypeError.
Proof.
  unfold _wrap; intro H.
  destruct value as [| b | z | f | s | l | d]; try discriminate H;
    try (destruct s; try discriminate H);
    destruct (str_eqb key (str "INSTRUCTIONS"));
    try (destruct (str_eqb key (str "SCHEMAS")); [discriminate H|];
         destruct (str_eqb key (str "EXAMPLE") || str_eqb key (str "EXAMPLES"));
         discriminate H).
  destruct (str_items l) eqn:S; cbn [bind] in H; [discriminate|].
  inversion H; subst; now apply (str_items_error l).
Qed.

Lemma build_sections_error float_repr container_repr ph order :
  forall values sections e,
    build_sections float_repr container_repr values ph order sections = Raise e ->
    e = TypeError.
Proof.
  induction order as [|key order IH]; intros values sections e;
    cbn [build_sections]; [discriminate|].
  destruct (_wrap _ _ key _) as [part|e'] eqn:W; cbn [bind]; [apply IH|].
  intro H; inversion H; subst; now apply _wrap_error in W.
Qed.

(** X18.  The check of the pipeline script and the few-shot strategy agree
    on every schema that is a [dict]: [_schema_has_examples] is true exactly
    when [_select_examples] finds examples and false exactly when it raises;
    on a schema that is not a [dict] the check is false.  So once
    [_assert_examples] has let a schema pass with one of the modes set to
    "few", building the few-shot prompt does not fail for want of
    examples. *)
Theorem schema_check_agrees_with_few_shot ph :
  (_schema_has_examples (PDict ph) = true <->
   exists examples, FewShot__select_examples ph = Ok examples) /\
  (_schema_has_examples (PDict ph) = false <->
   FewShot__select_examples ph = Raise MissingExamples) /\
  (forall mode_cls mode_ext float_repr container_repr prompter,
      is_few mode_cls || is_few mode_ext = true ->
      _assert_examples mode_cls mode_ext (PDict ph) = true ->
      _ph prompter = ph ->
      Prompter_build float_repr container_repr prompter
      <> Raise MissingExamples).
Proof.
  rewrite schema_has_examples_truthy; unfold FewShot__select_examples.
  set (inside := py_or _ _).
  split; [|split].
  - destruct (truthy inside); split; eauto; try discriminate.
    intros [ex H]; discriminate.
  - destruct (truthy inside); split; auto; discriminate.
  - intros mc me fr cr prompter Hfew Hassert Hph.
    unfold _assert_examples in Hassert; rewrite Hfew in Hassert.
    cbn [andb] in Hassert; rewrite negb_involutive in Hassert.
    rewrite schema_has_examples_truthy in Hassert; fold inside in Hassert.
    assert (Hv : placeholder_values fr (_strategy prompter) ph
                 <> Raise MissingExamples).
    { destruct (_strategy prompter); cbn [placeholder_values];
        try discriminate.
      unfold FewShot__select_examples; fold inside; rewrite Hassert.
      cbn [bind].
      destruct (join_lines _) as [instructions|e] eqn:J; cbn [bind];
        [discriminate|].
      apply join_lines_error in J; subst e; discriminate. }
    unfold Prompter_build; rewrite Hph.
    destruct (placeholder_values fr (_strategy prompter) ph) as [values|e]
      eqn:P; cbn [bind].
    + destruct (build_sections _ _ _ _ _ _) as [sections|e] eqn:B;
        cbn [bind]; [discriminate|].
      apply build_sections_error in B; subst e; discriminate.
    + intro H; inversion H; subst e; now apply Hv.
Qed.

Lemma schema_check_agrees_with_few_shot_witness :
  is_few (PStr (str "few")) || is_few (PStr (str "zero")) = true /\
  _assert_examples (PStr (str "few")) (PStr (str "zero"))
    (PDict schema_with_examples_key) = true /\
  _ph few_shot_prompter = schema_with_examples_key /\
  Prompter_build (fun _ => []) (fun _ => []) few_shot_prompter
  <> Raise MissingExamples.
Proof.
  split; [reflexivity|]; split; [reflexivity|]; split; [reflexivity|].
  destruct (schema_check_agrees_with_few_shot schema_with_examples_key)
    as (_ & _ & H).
  apply (H (PStr (str "few")) (PStr (str "zero"))); reflexivity.
Defined.

(** X19.  A template file is not enough to add a strategy: for every name
    that no strategy class is registered under (any name but "zero", "few"
    and "raw", in any case), [Prompter.__init__] raises the [ValueError] of
    [get_strategy_cls] whatever the template directory holds.  For a
    registered name it raises only when no template is found or when the
    template is not a list, never for the content of the schema; otherwise
    the prompter holds the schema as given and the order of the first
    candidate file that exists, the file named exactly after the strategy
    before the file named [<strategy>_shot.yaml]. *)
Theorem Prompter_init_outcomes template_dir schema strategy_name :
  (registered strategy_name = false ->
   Prompter_init template_dir schema strategy_name = Raise UnknownStrategy) /\
  (registered strategy_name = true ->
   match template_dir (strategy_name ++ str ".yaml"),
         template_dir (lower strategy_name ++ str "_shot.yaml") with
   | Some (YList order), _ | None, Some (YList order) =>
       exists strat,
         get_strategy_cls strategy_name = Ok strat /\
         Prompter_init template_dir schema strategy_name
         = Ok {| _ph := schema; _strategy := strat; _order := order |}
   | Some YOther, _ | None, Some YOther =>
       Prompter_init template_dir schema strategy_name = Raise TemplateNotAList
   | None, None =>
       Prompter_init template_dir schema strategy_name = Raise TemplateNotFound
   end).
Proof.
  unfold registered, Prompter_init, get_strategy_cls; split; intro H.
  - apply orb_false_iff in H as [H H3]; apply orb_false_iff in H as [H1 H2].
    now rewrite H1, H2, H3.
  - assert (S : exists strat,
               (if str_eqb (lower strategy_name) (str "zero") then Ok ZeroShot
                else if str_eqb (lower strategy_name) (str "few") then Ok FewShot
                else if str_eqb (lower strategy_name) (str "raw") then Ok Raw
                else Raise UnknownStrategy) = Ok strat).
    { destruct (str_eqb (lower strategy_name) (str "zero")); [eauto|].
      destruct (str_eqb (lower strategy_name) (str "few")); [eauto|].
      destruct (str_eqb (lower strategy_name) (str "raw")); [eauto|].
      discriminate. }
    destruct S as [strat S]; rewrite S; cbn [bind find].
    destruct (template_dir (strategy_name ++ str ".yaml")) as [[order|]|] eqn:E1.
    + rewrite E1; eauto.
    + now rewrite E1.
    + destruct (template_dir (lower strategy_name ++ str "_shot.yaml"))
        as [[order|]|] eqn:E2; [rewrite E2; eauto|now rewrite E2|reflexivity].
Qed.

Lemma Prompter_init_outcomes_witness :
  registered (str "chain") = false /\
  templates_with_chain (str "chain.yaml") = Some (YList [str "TASK"]) /\
  Prompter_init templates_with_chain scenario_schema (str "chain")
  = Raise UnknownStrategy /\
  registered (str "Zero") = true /\
  exists prompter,
    Prompter_init templates_with_chain scenario_schema (str "Zero")
    = Ok prompter.
Proof.
  split; [reflexivity|]; split; [reflexivity|].
  split.
  - apply (Prompter_init_outcomes templates_with_chain scenario_schema
             (str "chain")); reflexivity.
  - split; [reflexivity|].
    pose proof (proj2 (Prompter_init_outcomes templates_with_chain
                         scenario_schema (str "Zero")) eq_refl) as H.
    vm_compute in H; destruct H as (strat & _ & H).
    eexists; vm_compute; reflexivity.
Defined.

(* ================================================================== *)
(** ** The two stages one after the other *)
(* ================================================================== *)

Lemma existsb_not_In k keys :
  ~ In k keys -> existsb (str_eqb k) keys = false.
Proof.
  induction keys as [|x keys IH]; intro H; [reflexivity|].
  cbn [existsb]; rewrite IH by (intro; apply H; now right).
  rewrite str_eqb_false; [reflexivity|].
  intro; subst; apply H; now left.
Qed.

Lemma get_extend item fields k :
  unique_keys fields = true ->
  ~ In k (Dict.keys fields) ->
  Dict.get (extend item fields) k = Dict.get item k.
Proof.
  intros U H; unfold extend; rewrite get_update by exact U.
  now rewrite (get_fresh _ _ (existsb_not_In _ _ H)).
Qed.

Lemma classified_keeps item rec :
  classified_from item rec -> keeps_fields classifier_keys item rec.
Proof.
  intros (label & raw & prompt & duration & _ & _ & ->) k Hk.
  unfold classification_record; now apply get_extend.
Qed.


Lemma keeps_paragraph written item rec :
  ~ In (str "Text") written -> ~ In (str "text") written ->
  keeps_fields written item rec -> is_paragraph item -> is_paragraph rec.
Proof.
  intros H1 H2 K [P1 P2]; unfold is_paragraph, get_or_none.
  now rewrite (K _ H1), (K _ H2).
Qed.

Lemma not_In_keys k keys :
  existsb (str_eqb k) keys = false -> ~ In k keys.
Proof.
  intros H Hin; induction keys as [|x keys IH]; [exact Hin|].
  cbn [existsb] in H; apply orb_false_iff in H as [H1 H2].
  destruct Hin as [-> | Hin]; [now rewrite str_eqb_refl in H1|auto].
Qed.

Lemma classified_paragraph item rec :
  classified_from item rec -> is_paragraph item -> is_paragraph rec.
Proof.
  intro H; apply (@keeps_paragraph classifier_keys);
    [apply not_In_keys; reflexivity|apply not_In_keys; reflexivity|].
  now apply classified_keeps.
Qed.

Lemma Forall2_Forall_r A B (R : A -> B -> Prop) (P : A -> Prop) (Q : B -> Prop) :
  (forall a b, R a b -> P a -> Q b) ->
  forall l l', Forall2 R l l' -> Forall P l -> Forall Q l'.
Proof.
  intros H l l' F; induction F as [|a b l l' Hab _ IH]; intro Hl;
    [constructor|].
  inversion Hl; subst; constructor; eauto.
Qed.




Lemma item_text_keeps written item rec :
  ~ In (str "Text") written -> ~ In (str "text") written ->
  keeps_fields written item rec -> item_text rec = item_text item.
Proof.
  intros H1 H2 K; unfold item_text, get_or_none.
  now rewrite (K _ H1), (K _ H2).
Qed.

Lemma classified_text item rec :
  classified_from item rec -> item_text rec = item_text item.
Proof.
  intro H; apply (@item_text_keeps classifier_keys);
    [apply not_In_keys; reflexivity|apply not_In_keys; reflexivity|].
  now apply classified_keeps.
Qed.

Lemma Classifier_predict_total max_depth self llm dataset :
  Forall is_paragraph dataset ->
  writes_log self dataset ->
  classifiable max_depth (debug_io self) llm ->
  exists all_results,
    Classifier_predict max_depth self llm dataset
    = Ok (all_results, List.filter is_relevant all_results, base_prompt self) /\
    Forall2 classified_from dataset all_results.
Proof.
  intros Hp Hw Hl.
  destruct (Classifier_predict_returns Hp Hw Hl) as (all_results & rel & H).
  pose proof H as H'.
  apply Classifier_predict_unfold in H' as (st & Hloop & E).
  apply Classifier_loop_spec in Hloop as (recs & Hf & Hr & Hall).
  cbn [full relevant app] in Hf, Hr; rewrite Hf, Hr in E.
  inversion E; subst; eauto.
Qed.

(** What the classifier passes on is made of paragraphs whose log lines
    can be written when those of the input can. *)
Lemma relevant_records_logged ks dataset all_results :
  Forall is_paragraph dataset ->
  writes_log ks dataset ->
  Forall2 classified_from dataset all_results ->
  Forall is_paragraph (List.filter is_relevant all_results) /\
  writes_log ks (List.filter is_relevant all_results).
Proof.
  intros Hp [Hb Hd] Hall; split.
  - apply Forall_forall; intros rec Hin; apply filter_In in Hin as [Hin _].
    assert (Hp' : Forall is_paragraph all_results)
      by (eapply Forall2_Forall_r; eauto using classified_paragraph).
    rewrite Forall_forall in Hp'; auto.
  - split; [exact Hb|]; intro D; specialize (Hd D).
    apply Forall_forall; intros rec Hin; apply filter_In in Hin as [Hin _].
    assert (Ht : Forall (fun rec => forall text,
                             item_text rec = Ok text ->
                             encodable text = true) all_results).
    { eapply Forall2_Forall_r; [|exact Hall|exact Hd].
      intros item r Hc Hi text; rewrite (classified_text Hc); apply Hi. }
    rewrite Forall_forall in Ht; exact (Ht rec Hin).
Qed.

Lemma Structurer_predict_total max_depth self llm dataset :
  Forall is_paragraph dataset ->
  writes_log self dataset ->
  extractable max_depth (debug_io self) llm ->
  exists structured,
    Structurer_predict max_depth self llm dataset
    = Ok (structured, base_prompt self) /\
    Forall2 extracted_from dataset structured /\
    (forall j item,
        nth_error dataset j = Some item ->
        exists rec, nth_error structured j = Some rec /\
                    extracted_at max_depth self llm j item rec).
Proof.
  intros Hp Hw Hl.
  destruct (Structurer_predict_returns Hp Hw Hl) as (structured & H).
  exists structured; split; [exact H|].
  now apply Structurer_predict_unfold in H as (_ & Hall & Hnth).
Qed.

(** Both stages return when each gets through its LLM and can write its
    log lines. *)
Lemma run_stages_total max_depth clf ks llm_cls llm_ext paragraphs :
  Forall is_paragraph paragraphs ->
  writes_log clf paragraphs ->
  writes_log ks paragraphs ->
  classifiable max_depth (debug_io clf) llm_cls ->
  extractable max_depth (debug_io ks) llm_ext ->
  exists pred_all structured,
    run_stages max_depth clf ks llm_cls llm_ext paragraphs
    = Ok (pred_all, List.filter is_relevant pred_all, structured) /\
    Forall2 classified_from paragraphs pred_all /\
    Forall2 extracted_from (List.filter is_relevant pred_all) structured /\
    (forall j item,
        nth_error (List.filter is_relevant pred_all) j = Some item ->
        exists rec, nth_error structured j = Some rec /\
                    extracted_at max_depth ks llm_ext j item rec).
Proof.
  intros Hp Hwc Hwk Hc Hx.
  destruct (Classifier_predict_total Hp Hwc Hc) as (pred_all & Hcls & Hall).
  destruct (relevant_records_logged Hp Hwk Hall) as [Hrel Hlog].
  destruct (Structurer_predict_total Hrel Hlog Hx)
    as (structured & Hs & Hext & Hnth).
  exists pred_all, structured.
  split; [unfold run_stages; rewrite Hcls; cbn [bind]; rewrite Hs;
          reflexivity|].
  auto.
Qed.


Lemma demo_stage_writes_log dataset : writes_log demo_stage dataset.
Proof. split; [reflexivity|discriminate]. Qed.

Lemma demo_structurer_writes_log dataset : writes_log demo_structurer dataset.
Proof. split; [reflexivity|discriminate]. Qed.

Lemma demo_llm_classifiable : classifiable 1000 false demo_llm.
Proof.
  intros [|idx] prompt; cbn [demo_llm]; [|reflexivity].
  split; [discriminate|].
  do 2 eexists; split; [vm_compute; reflexivity|].
  split; [vm_compute; reflexivity|left; vm_compute; reflexivity].
Qed.

Lemma eighth_llm_extractable : extractable 1000 false eighth_llm.
Proof.
  intros idx prompt; cbn [eighth_llm]; split; [discriminate|].
  eexists; vm_compute; reflexivity.
Qed.


(* ================================================================== *)
(** ** A language model that does not answer *)
(* ================================================================== *)

Lemma never_answers_classifiable max_depth debug llm :
  never_answers llm -> classifiable max_depth debug llm.
Proof.
  intros H idx prompt; destruct (H idx prompt) as (message & -> & E).
  exact E.
Qed.

(** When no call is answered, every record the loop makes is that of a
    failed call, and none is relevant. *)
Lemma Classifier_loop_unanswered max_depth self llm :
  never_answers llm ->
  forall todo idx st st',
    Classifier_loop max_depth self llm idx todo st = Ok st' ->
    exists recs,
      full st' = full st ++ recs /\
      relevant st' = relevant st /\
      Forall2 (unanswered self) todo recs.
Proof.
  intro Hdead; induction todo as [|item todo IH]; cbn [Classifier_loop];
    intros idx st st' H.
  - inversion H; subst; exists []; rewrite app_nil_r; auto.
  - step H text Et.
    set (prompt := item_prompt (base_prompt self) text) in *.
    step H log El. step H answer Ea.
    destruct answer as [[raw duration] log1].
    destruct (Hdead idx prompt) as (message & Hm & _).
    apply Classifier_try_cases in Ea
      as [(seconds & Hg & _)|(m & _ & -> & -> & _ & ->)];
      [congruence|].
    step H log2 Ed.
    rewrite extract_empty in H; cbn [bind] in H.
    rewrite failed_call_label in H; cbn [bind] in H.
    step H checked Ec; destruct checked as [label log3].
    apply force_label_cases in Ec as [(Hv & _)|(_ & -> & _ & _)];
      [discriminate Hv|].
    change (str_eqb (str "irrelevant") (str "relevant")) with false in H.
    cbv iota in H.
    apply IH in H as (recs & Hf & Hr & Hall); cbn [full relevant] in Hf, Hr.
    eexists (_ :: recs); rewrite <- app_assoc in Hf.
    split; [exact Hf|]; split; [exact Hr|].
    constructor; [|exact Hall].
    exists text; split; [exact Et|reflexivity].
Qed.

Lemma run_stages_unanswered max_depth clf ks llm_cls llm_ext paragraphs :
  Forall is_paragraph paragraphs ->
  writes_log clf paragraphs ->
  never_answers llm_cls ->
  exists pred_all,
    run_stages max_depth clf ks llm_cls llm_ext paragraphs
    = Ok (pred_all, [], []) /\
    Forall2 (unanswered clf) paragraphs pred_all.
Proof.
  intros Hp Hw Hdead.
  destruct (Classifier_predict_returns Hp Hw
              (never_answers_classifiable max_depth (debug_io clf) Hdead))
    as (all_results & rel & H).
  pose proof H as H'.
  apply Classifier_predict_unfold in H' as (st & Hloop & E).
  apply (@Classifier_loop_unanswered max_depth clf llm_cls Hdead) in Hloop
    as (recs & Hf & Hr & Hall).
  cbn [full relevant app] in Hf, Hr; rewrite Hf, Hr in E.
  injection E as E1 E2; subst all_results rel.
  exists recs; split; [|exact Hall].
  unfold run_stages; rewrite H; reflexivity.
Qed.

(** X21.  When every call of the LLM raises (the service is down) and the
    log lines can be written (the base prompt, the messages of the
    failures and, with [debug_io], the paragraphs hold no lone surrogate),
    the classification stage does not raise: it returns one record for
    each paragraph, labelled "irrelevant", with an empty raw output and no
    duration; nothing is relevant, so the extraction stage gets no item and
    returns none. *)
Theorem run_stages_without_llm max_depth clf ks llm_cls llm_ext paragraphs :
  Forall is_paragraph paragraphs ->
  writes_log clf paragraphs ->
  never_answers llm_cls ->
  exists pred_all,
    run_stages max_depth clf ks llm_cls llm_ext paragraphs
    = Ok (pred_all, [], []) /\
    List.length pred_all = List.length paragraphs /\
    Forall2 (unanswered clf) paragraphs pred_all /\
    Forall (fun rec =>
              classification_of rec = Some (PStr (str "irrelevant")) /\
              Dict.get rec (str "raw_output") = Some (PStr []) /\
              Dict.get rec (str "duration") = Some PNone) pred_all.
Proof.
  intros Hp Hw Hdead.
  destruct (@run_stages_unanswered max_depth clf ks llm_cls llm_ext
              paragraphs Hp Hw Hdead) as (pred_all & H & Hall).
  exists pred_all; split; [exact H|].
  split; [eapply Forall2_length_eq; eauto|]; split; [exact Hall|].
  clear H Hw; induction Hall as [|item rec l l' (text & _ & ->) _ IH];
    constructor; [|apply IH; now inversion Hp].
  split; [apply classification_of_record|].
  unfold classification_record, extend.
  split; rewrite get_update by reflexivity; reflexivity.
Qed.

Lemma dead_llm_never_answers : never_answers dead_llm.
Proof. intros idx prompt; eexists; split; reflexivity. Qed.

Lemma run_stages_without_llm_witness :
  Forall is_paragraph demo_paragraphs /\
  never_answers dead_llm /\
  exists pred_all,
    run_stages 1000 demo_stage demo_structurer dead_llm eighth_llm
      demo_paragraphs
    = Ok (pred_all, [], []) /\
    List.length pred_all = List.length demo_paragraphs.
Proof.
  split; [exact demo_paragraphs_typed|]; split; [exact dead_llm_never_answers|].
  destruct (@run_stages_without_llm 1000 demo_stage demo_structurer dead_llm
              eighth_llm demo_paragraphs demo_paragraphs_typed
              (demo_stage_writes_log _) dead_llm_never_answers)
    as (pred_all & H & L & _).
  exists pred_all; auto.
Defined.

(** Without the condition on the log lines the stage does raise: a base
    prompt with a lone surrogate cannot be written to the log file, and
    the first paragraph already ends the run. *)
Lemma unwritable_prompt_ends_the_run max_depth :
  Classifier_predict max_depth
    {| base_prompt := [55296]; prompt_logged := false; debug_io := false |}
    dead_llm demo_paragraphs
  = Raise UnicodeEncodeError.
Proof. reflexivity. Qed.

(** X22.  [RitsClient.inference] takes a list of chat messages; the stages
    call [inference] with the prompt, a [str].  So with the RITS client
    every call raises its [TypeError] before anything is posted, and the
    stages go on as with a service that is down: when the log lines of the
    classification stage can be written, every paragraph is labelled
    "irrelevant" and the extraction stage has nothing to do. *)
Theorem run_stages_over_rits
    max_depth defaults post clf ks llm_cls llm_ext paragraphs :
  served_by (fun idx messages =>
               snd (RitsClient_inference defaults (post idx) messages))
    llm_cls ->
  Forall is_paragraph paragraphs ->
  writes_log clf paragraphs ->
  (forall idx prompt,
      RitsClient_inference defaults (post idx) (PStr prompt)
      = ([], inr (Some RITS_EXPECTS_A_LIST))) /\
  exists pred_all,
    run_stages max_depth clf ks llm_cls llm_ext paragraphs
    = Ok (pred_all, [], []) /\
    Forall2 (unanswered clf) paragraphs pred_all.
Proof.
  intros Hs Hp Hw; split; [reflexivity|].
  apply run_stages_unanswered; [exact Hp|exact Hw|].
  intros idx prompt; exists RITS_EXPECTS_A_LIST.
  split; [exact (Hs idx prompt)|reflexivity].
Qed.

Lemma run_stages_over_rits_witness :
  served_by (fun idx messages =>
               snd (RitsClient_inference (PDict []) (demo_rits_post idx)
                      messages))
    rits_llm /\
  Forall is_paragraph demo_paragraphs /\
  snd (RitsClient_inference (PDict []) (demo_rits_post 0) demo_messages)
  = inl [(str "generated_text", PStr (jq "{'classification': 'relevant'}"));
         (str "raw",
          PDict [(str "choices",
                  PList [PDict [(str "message",
                                 PDict [(str "content",
                                         PStr (jq "{'classification': 'relevant'}"))])]])])] /\
  exists pred_all,
    run_stages 1000 demo_stage demo_structurer rits_llm eighth_llm
      demo_paragraphs
    = Ok (pred_all, [], []).
Proof.
  assert (S : served_by
                (fun idx messages =>
                   snd (RitsClient_inference (PDict []) (demo_rits_post idx)
                          messages)) rits_llm)
    by (intros idx prompt; reflexivity).
  split; [exact S|]; split; [exact demo_paragraphs_typed|].
  split; [reflexivity|].
  destruct (@run_stages_over_rits 1000 (PDict []) demo_rits_post demo_stage
              demo_structurer rits_llm eighth_llm demo_paragraphs S
              demo_paragraphs_typed (demo_stage_writes_log _))
    as (_ & pred_all & H & _).
  exists pred_all; exact H.
Defined.

(* ---------------------------------------------------------------- *)
(** *** Durations across the two stages *)

Lemma relevant_record_duration item rec :
  classified_from item rec -> is_relevant rec = true ->
  exists seconds,
    Dict.get rec (str "duration")
    = Some (PFloat (round2_float (FNum seconds))).
Proof.
  intros (label & raw & prompt & duration & _ & Hd & ->) Hr.
  rewrite is_relevant_record in Hr; apply str_eqb_eq in Hr; subst label.
  destruct Hd as [[seconds ->] | [_ Hl]]; [|discriminate Hl].
  exists seconds; unfold classification_record, extend.
  rewrite get_update by reflexivity; reflexivity.
Qed.

Lemma Forall2_filter_relevant (R : pydict -> pydict -> Prop) :
  forall dataset all_results,
    Forall2 R dataset all_results ->
    Forall (fun rec => exists item, R item rec /\ is_relevant rec = true)
      (List.filter is_relevant all_results).
Proof.
  induction 1 as [|item rec l l' Hr _ IH]; [constructor|].
  cbn [filter]; destruct (is_relevant rec) eqn:E; [|exact IH].
  constructor; [eauto|exact IH].
Qed.

(** X23.  In the two stages run one after the other the upstream duration
    is never missing: a record is passed on only when its label is
    "relevant", which takes an answer of the classifier LLM, so it carries
    the duration of that call, rounded to a hundredth as a float.  Hence,
    when both stages return (each gets through its LLM and can write its
    log lines), the stored duration of a structured record is
    [round(elapsed + upstream, 2)] in floating-point arithmetic whenever
    the call of the extraction LLM returns, and it is null (with an empty
    raw output) exactly when that call raises. *)
Theorem run_stages_durations max_depth clf ks llm_cls llm_ext paragraphs :
  Forall is_paragraph paragraphs ->
  writes_log clf paragraphs ->
  writes_log ks paragraphs ->
  classifiable max_depth (debug_io clf) llm_cls ->
  extractable max_depth (debug_io ks) llm_ext ->
  exists pred_all relevant_only structured,
    run_stages max_depth clf ks llm_cls llm_ext paragraphs
    = Ok (pred_all, relevant_only, structured) /\
    forall j item,
      nth_error relevant_only j = Some item ->
      exists rec text cls_seconds,
        nth_error structured j = Some rec /\
        item_text item = Ok text /\
        Dict.get item (str "duration")
        = Some (PFloat (round2_float (FNum cls_seconds))) /\
        match llm_ext j (item_prompt (base_prompt ks) text) with
        | Generated answer seconds =>
            Dict.get rec (str "duration")
            = Some (PFloat
                      (round2_float
                         (Float.add (FNum seconds)
                            (round2_float (FNum cls_seconds))))) /\
            Dict.get rec (str "raw_output") = Some (PStr answer)
        | Failed _ =>
            Dict.get rec (str "duration") = Some PNone /\
            Dict.get rec (str "raw_output") = Some (PStr [])
        end.
Proof.
  intros Hp Hwc Hwk Hc Hx.
  destruct (run_stages_total Hp Hwc Hwk Hc Hx)
    as (pred_all & structured & Hrun & Hall & _ & Hnth).
  exists pred_all, (List.filter is_relevant pred_all), structured.
  split; [exact Hrun|].
  intros j item Hj.
  destruct (Hnth j item Hj) as (rec & Hrec & text & Htext & Erec).
  pose proof (Forall2_filter_relevant Hall) as Hd.
  rewrite Forall_forall in Hd.
  destruct (Hd item (nth_error_In _ _ Hj)) as (par & Hcf & Hr).
  destruct (relevant_record_duration Hcf Hr) as [cls_seconds Hdur].
  exists rec, text, cls_seconds.
  split; [exact Hrec|]; split; [exact Htext|]; split; [exact Hdur|].
  cbn zeta in Erec; unfold Structurer_try in Erec.
  unfold get_or_none in Erec; rewrite Hdur in Erec.
  destruct (llm_ext j (item_prompt (base_prompt ks) text))
    as [answer seconds|message]; cbn [add_duration] in Erec.
  - destruct Erec as (data & _ & ->); split;
      [apply duration_of_extraction_record
      |apply raw_output_of_extraction_record].
  - subst rec; split;
      [apply duration_of_extraction_record
      |apply raw_output_of_extraction_record].
Qed.

Lemma run_stages_durations_witness :
  Forall is_paragraph demo_paragraphs /\
  classifiable 1000 (debug_io demo_stage) demo_llm /\
  extractable 1000 (debug_io demo_structurer) eighth_llm /\
  exists pred_all relevant_only structured,
    run_stages 1000 demo_stage demo_structurer demo_llm eighth_llm
      demo_paragraphs
    = Ok (pred_all, relevant_only, structured) /\
    exists item rec,
      nth_error relevant_only 0 = Some item /\
      nth_error structured 0 = Some rec /\
      Dict.get item (str "duration") = Some (PFloat (FNum (3 # 2))) /\
      Dict.get rec (str "duration")
      = Some (PFloat (round2_float (Float.add (FNum (1 # 8)) (FNum (3 # 2))))).
Proof.
  split; [exact demo_paragraphs_typed|].
  split; [exact demo_llm_classifiable|].
  split; [exact eighth_llm_extractable|].
  destruct (@run_stages_durations 1000 demo_stage demo_structurer demo_llm
              eighth_llm demo_paragraphs demo_paragraphs_typed
              (demo_stage_writes_log _) (demo_structurer_writes_log _)
              demo_llm_classifiable eighth_llm_extractable)
    as (pred_all & relevant_only & structured & H & _).
  exists pred_all, relevant_only, structured; split; [exact H|].
  vm_compute in H; inversion H; subst.
  do 2 eexists; repeat split; vm_compute; reflexivity.
Defined.

(* ================================================================== *)
(** ** From the converted text to the stages *)
(* ================================================================== *)

Lemma drop_while_ink s : ink (drop_while is_space s) = ink s.
Proof.
  unfold ink; induction s as [|c r IH]; [reflexivity|].
  cbn [drop_while]; destruct (is_space c) eqn:E; cbn [filter]; rewrite ?E;
    cbn [negb]; [exact IH|reflexivity].
Qed.

Lemma ink_rev s : ink (rev s) = rev (ink s).
Proof.
  unfold ink; induction s as [|c r IH]; [reflexivity|].
  cbn [rev filter]; rewrite filter_app, IH; cbn [filter].
  destruct (negb (is_space c)); [reflexivity|now rewrite app_nil_r].
Qed.

Lemma strip_ink s : ink (strip s) = ink s.
Proof.
  unfold strip, rstrip, lstrip.
  now rewrite ink_rev, drop_while_ink, ink_rev, rev_involutive, drop_while_ink.
Qed.

Lemma ink_app a b : ink (a ++ b) = ink a ++ ink b.
Proof. apply filter_app. Qed.

Lemma split_blank_lines_cons cur c c' r' :
  split_blank_lines cur (c :: c' :: r')
  = if (c =? LF) && (c' =? LF) then cur :: split_blank_lines [] r'
    else split_blank_lines (cur ++ [c]) (c' :: r').
Proof. reflexivity. Qed.

Lemma split_blank_lines_ink md :
  forall cur, ink (List.concat (split_blank_lines cur md)) = ink (cur ++ md).
Proof.
  assert (G : forall n md cur,
             (List.length md <= n)%nat ->
             ink (List.concat (split_blank_lines cur md)) = ink (cur ++ md)).
  { induction n as [|n IH]; intros [|c [|c' r']] cur Hn;
      cbn [List.length] in Hn; try lia;
      try (cbn [split_blank_lines List.concat]; now rewrite !app_nil_r).
    rewrite split_blank_lines_cons.
    destruct ((c =? LF) && (c' =? LF)) eqn:E.
    - apply andb_true_iff in E as [E1 E2].
      apply N.eqb_eq in E1, E2; subst c c'.
      cbn [List.concat]; rewrite ink_app, IH by lia.
      now rewrite !ink_app.
    - rewrite IH by (cbn [List.length]; lia).
      now rewrite <- app_assoc. }
  intro cur; now apply (G (List.length md)).
Qed.

Lemma concat_filter_nonempty pieces :
  List.concat (List.filter nonempty pieces) = List.concat pieces.
Proof.
  induction pieces as [|p pieces IH]; [reflexivity|].
  cbn [filter List.concat]; destruct p; cbn [nonempty List.concat app]; now rewrite IH.
Qed.

Lemma ink_concat_strip pieces :
  ink (List.concat (List.map strip pieces)) = ink (List.concat pieces).
Proof.
  induction pieces as [|p pieces IH]; [reflexivity|].
  cbn [List.map List.concat]; now rewrite !ink_app, strip_ink, IH.
Qed.

Lemma rstrip_cons c r : is_space c = false -> rstrip (c :: r) = c :: rstrip r.
Proof.
  intro H; unfold rstrip; cbn [rev].
  now rewrite drop_while_snoc, rev_app_distr by exact H.
Qed.

Lemma drop_while_idem p s : drop_while p (drop_while p s) = drop_while p s.
Proof.
  induction s as [|c r IH]; [reflexivity|].
  cbn [drop_while]; destruct (p c) eqn:E; [exact IH|].
  cbn [drop_while]; now rewrite E.
Qed.

Lemma drop_while_head p s c r : drop_while p s = c :: r -> p c = false.
Proof.
  induction s as [|x s IH]; [discriminate|].
  cbn [drop_while]; destruct (p x) eqn:E; [exact IH|].
  intro H; inversion H; now subst.
Qed.

Lemma rstrip_idem s : rstrip (rstrip s) = rstrip s.
Proof. unfold rstrip; now rewrite rev_involutive, drop_while_idem. Qed.

Lemma strip_idem s : strip (strip s) = strip s.
Proof.
  unfold strip at 2 3; destruct (lstrip s) as [|c r] eqn:E; [reflexivity|].
  apply drop_while_head in E.
  rewrite rstrip_cons by exact E.
  unfold strip, lstrip; cbn [drop_while]; rewrite E.
  now rewrite rstrip_cons, rstrip_idem by exact E.
Qed.

Lemma _split_paragraphs_stripped md :
  Forall (fun p => p <> [] /\ strip p = p) (_split_paragraphs md).
Proof.
  unfold _split_paragraphs; apply Forall_forall; intros p Hp.
  apply filter_In in Hp as [Hin Hne].
  split; [now destruct p|].
  apply in_map_iff in Hin as (q & <- & _); apply strip_idem.
Qed.

(** X24.  [PdfConverter._split_paragraphs]: every paragraph it returns is
    non-empty and has no white space at either end, and no text is lost:
    the characters other than white space of the paragraphs, in order, are
    those of the input. *)
Theorem _split_paragraphs_keeps_text md :
  Forall (fun p => p <> [] /\ strip p = p) (_split_paragraphs md) /\
  ink (List.concat (_split_paragraphs md)) = ink md.
Proof.
  split; [apply _split_paragraphs_stripped|].
  unfold _split_paragraphs.
  now rewrite concat_filter_nonempty, ink_concat_strip, split_blank_lines_ink.
Qed.

Lemma In_combined rec texts :
  In rec (combined (paragraph_docs texts)) ->
  exists src p,
    rec = [(str "Source", PStr src); (str "Text", PStr p)] /\
    p <> [] /\ strip p = p.
Proof.
  unfold combined, paragraph_docs; rewrite in_flat_map.
  intros (d & Hd & Hin); apply in_map_iff in Hd as (t & <- & _).
  cbn [source paragraphs] in Hin; apply in_map_iff in Hin as (p & <- & Hp).
  pose proof (_split_paragraphs_stripped (snd t)) as F.
  rewrite Forall_forall in F; destruct (F p Hp) as [H1 H2].
  exists (fst t), p; auto.
Qed.

Lemma combined_paragraphs texts :
  Forall is_paragraph (combined (paragraph_docs texts)).
Proof.
  apply Forall_forall; intros rec Hin.
  apply In_combined in Hin as (src & p & -> & _ & _).
  split; [right; eexists; reflexivity|left; reflexivity].
Qed.

(** X25.  What [convert_dir] writes with the chunk strategy "paragraph" is
    what the stages expect: every record holds a non-empty text under
    "Text", the stages read that very text from it (nothing is stripped
    from it again), and so [Classifier.predict] returns on the converted
    paragraphs, with one record for each, for every LLM that the stage
    gets through, when the log lines can be written. *)
Theorem converted_paragraphs_are_classified max_depth self llm texts :
  writes_log self (combined (paragraph_docs texts)) ->
  classifiable max_depth (debug_io self) llm ->
  Forall is_paragraph (combined (paragraph_docs texts)) /\
  Forall (fun rec =>
            exists p,
              Dict.get rec (str "Text") = Some (PStr p) /\ p <> [] /\
              item_text rec = Ok p)
    (combined (paragraph_docs texts)) /\
  exists all_results,
    Classifier_predict max_depth self llm (combined (paragraph_docs texts))
    = Ok (all_results, List.filter is_relevant all_results, base_prompt self) /\
    List.length all_results = List.length (combined (paragraph_docs texts)).
Proof.
  intros Hw Hl; pose proof (combined_paragraphs texts) as Hp.
  split; [exact Hp|]; split.
  - apply Forall_forall; intros rec Hin.
    apply In_combined in Hin as (src & p & -> & Hne & Hs).
    exists p; split; [reflexivity|]; split; [exact Hne|].
    unfold item_text, py_or, get_or_none; cbn [Dict.get].
    change (str_eqb (str "Source") (str "Text")) with false.
    change (str_eqb (str "Text") (str "Text")) with true; cbv iota.
    destruct p as [|c p]; [congruence|].
    cbn [truthy]; now rewrite Hs.
  - destruct (Classifier_predict_total Hp Hw Hl) as (all_results & H & Hall).
    exists all_results; split; [exact H|].
    eapply Forall2_length_eq; eauto.
Qed.

Lemma converted_paragraphs_are_classified_witness :
  classifiable 1000 (debug_io demo_stage) demo_llm /\
  combined (paragraph_docs demo_texts)
  = [[(str "Source", PStr (str "paper")); (str "Text", PStr (str "Abstract"))];
     [(str "Source", PStr (str "paper"));
      (str "Text", PStr (str "Perovskite cells reach 25 percent."))];
     [(str "Source", PStr (str "paper"));
      (str "Text", PStr (str "References"))]] /\
  exists all_results,
    Classifier_predict 1000 demo_stage demo_llm
      (combined (paragraph_docs demo_texts))
    = Ok (all_results, List.filter is_relevant all_results,
          base_prompt demo_stage) /\
    List.length (List.filter is_relevant all_results) = 1%nat /\
    List.length all_results
    = List.length (combined (paragraph_docs demo_texts)).
Proof.
  split; [exact demo_llm_classifiable|]; split; [vm_compute; reflexivity|].
  destruct (@converted_paragraphs_are_classified 1000 demo_stage demo_llm
              demo_texts (demo_stage_writes_log _) demo_llm_classifiable)
    as (_ & _ & all_results & H & L).
  exists all_results; split; [exact H|]; split; [|exact L].
  vm_compute in H; inversion H; reflexivity.
Defined.

(* ================================================================== *)
(** ** [Chunker._fixed] *)
(* ================================================================== *)

Lemma split_ws_word w :
  forall cur r,
    forallb (fun c => negb (is_space c)) w = true ->
    split_ws cur (w ++ r) = split_ws (cur ++ w) r.
Proof.
  induction w as [|c w IH]; intros cur r H; cbn [app].
  - now rewrite app_nil_r.
  - cbn [forallb] in H; apply andb_true_iff in H as [Hc Hw].
    apply negb_true_iff in Hc; cbn [split_ws]; rewrite Hc, IH by exact Hw.
    now rewrite <- app_assoc.
Qed.

(** The words that [split] returns are not empty and hold no white
    space. *)
Lemma split_ws_words text :
  forall cur,
    forallb (fun c => negb (is_space c)) cur = true ->
    Forall (fun w => w <> [] /\ forallb (fun c => negb (is_space c)) w = true)
      (split_ws cur text).
Proof.
  induction text as [|c r IH]; intros cur H; cbn [split_ws].
  - destruct cur; constructor; [split; [discriminate|exact H]|constructor].
  - destruct (is_space c) eqn:E.
    + destruct cur; [now apply IH|].
      constructor; [split; [discriminate|exact H]|now apply IH].
    + apply IH; rewrite forallb_app, H; cbn [forallb]; now rewrite E.
Qed.

(** Joined by single spaces and split again, words come back. *)
Lemma split_ws_join words :
  Forall (fun w => w <> [] /\ forallb (fun c => negb (is_space c)) w = true)
    words ->
  split_ws [] (join [SP] words) = words.
Proof.
  induction 1 as [|w words [Hne Hw] _ IH]; [reflexivity|].
  destruct words as [|w' words].
  - pose proof (@split_ws_word w [] [] Hw) as E.
    rewrite app_nil_r in E; cbn [join app] in *; rewrite E.
    cbn [split_ws]; destruct w; [congruence|reflexivity].
  - change (join [SP] (w :: w' :: words))
      with (w ++ SP :: join [SP] (w' :: words)).
    rewrite split_ws_word by exact Hw; cbn [app split_ws].
    change (is_space SP) with true; cbv iota.
    destruct w; [congruence|]; now rewrite IH.
Qed.

Lemma Forall_firstn A (P : A -> Prop) n :
  forall l, Forall P l -> Forall P (firstn n l).
Proof.
  induction n as [|n IH]; intros l H; [constructor|].
  destruct H; cbn [firstn]; constructor; auto.
Qed.

Lemma Forall_skipn A (P : A -> Prop) n :
  forall l, Forall P l -> Forall P (skipn n l).
Proof.
  induction n as [|n IH]; intros l H; [exact H|].
  destruct H; cbn [skipn]; [constructor|auto].
Qed.

(** A window of positive size that starts inside the list. *)
Lemma window_positive words i size :
  (0 < size)%Z -> (i <= List.length words)%nat ->
  window words i size
  = firstn (Z.to_nat size) (skipn i words).
Proof.
  intros Hs Hi; unfold window.
  replace (Z.of_nat i + size <? 0)%Z with false
    by (symmetry; apply Z.ltb_ge; lia).
  destruct (Z.le_ge_cases (Z.of_nat i + size) (Z.of_nat (List.length words)))
    as [H | H].
  - rewrite Z.min_l by exact H; f_equal; lia.
  - rewrite Z.min_r by lia.
    rewrite !firstn_all2; [reflexivity| |];
      rewrite length_skipn; lia.
Qed.

(** Consecutive stretches of [step] items make up the list. *)
Lemma stretches_concat A step (l : list A) :
  forall m,
    (List.length l <= m * step)%nat ->
    List.concat
      (List.map (fun k => firstn step (skipn (k * step) l)) (seq 0 m)) = l.
Proof.
  intro m; revert l; induction m as [|m IH]; intros l H.
  - cbn in H; destruct l; [reflexivity|cbn in H; lia].
  - cbn [seq List.map List.concat]; rewrite <- seq_shift, map_map.
    change (skipn (0 * step) l) with l.
    transitivity (firstn step l ++ skipn step l); [|apply firstn_skipn].
    f_equal.
    transitivity
      (List.concat
         (List.map (fun k => firstn step (skipn (k * step) (skipn step l)))
            (seq 0 m))).
    + f_equal; apply map_ext; intro k.
      rewrite skipn_skipn; do 2 f_equal; cbn [Nat.mul]; lia.
    + apply IH; rewrite length_skipn; cbn [Nat.mul] in H; lia.
Qed.

Lemma range_step_bounds n step k :
  (0 < step)%nat -> (k < (n + step - 1) / step)%nat -> (k * step < n)%nat.
Proof.
  intros Hs Hk.
  pose proof (Nat.Div0.mul_div_le (n + step - 1) step) as H.
  nia.
Qed.

Lemma range_step_covers n step :
  (0 < step)%nat -> (n <= (n + step - 1) / step * step)%nat.
Proof.
  intro Hs.
  pose proof (Nat.div_mod (n + step - 1) step ltac:(lia)) as H.
  pose proof (Nat.mod_upper_bound (n + step - 1) step ltac:(lia)) as Hr.
  nia.
Qed.

Lemma chunk_of_window words i size :
  Forall (fun w => w <> [] /\ forallb (fun c => negb (is_space c)) w = true)
    words ->
  (0 < size)%Z -> (i <= List.length words)%nat ->
  split_ws [] (join [SP] (window words i size))
  = firstn (Z.to_nat size) (skipn i words).
Proof.
  intros Hw Hs Hi; rewrite window_positive by assumption.
  now apply split_ws_join, Forall_firstn, Forall_skipn.
Qed.

(** X26.  [Chunker._fixed] with a size of at least one word and an overlap
    that is not negative: the text is cut into
    [ceil(len(words) / step)] chunks, [step] being
    [max(1, size - overlap)]; every chunk holds at least one word and at
    most [size] words; and no word is lost or moved: the first [step] words
    of the chunks, one chunk after the other, are the words of the text. *)
Theorem Chunker_fixed_covers size overlap text :
  (1 <= size)%Z -> (0 <= overlap)%Z ->
  List.length (Chunker__fixed size overlap text)
  = ((List.length (split_ws [] text) + chunk_step size overlap - 1)
     / chunk_step size overlap)%nat /\
  Forall (fun chunk =>
            (1 <= List.length (split_ws [] chunk))%nat /\
            (List.length (split_ws [] chunk) <= Z.to_nat size)%nat)
    (Chunker__fixed size overlap text) /\
  List.concat
    (List.map (fun chunk => firstn (chunk_step size overlap)
                              (split_ws [] chunk))
       (Chunker__fixed size overlap text))
  = split_ws [] text.
Proof.
  intros Hsize Hover; unfold Chunker__fixed, range_step.
  set (words := split_ws [] text).
  set (step := chunk_step size overlap).
  assert (Hw : Forall (fun w => w <> []
                               /\ forallb (fun c => negb (is_space c)) w = true)
                 words) by now apply split_ws_words.
  assert (Hstep : (0 < step)%nat /\ (step <= Z.to_nat size)%nat)
    by (unfold step, chunk_step; lia).
  destruct Hstep as [Hs1 Hs2].
  split; [now rewrite !length_map, length_seq|].
  split.
  - apply Forall_forall; intros chunk Hin.
    apply in_map_iff in Hin as (i & <- & Hi).
    apply in_map_iff in Hi as (k & <- & Hk); apply in_seq in Hk.
    pose proof (@range_step_bounds (List.length words) step k Hs1
                  ltac:(lia)) as Hlt.
    rewrite chunk_of_window by (auto; lia).
    rewrite length_firstn, length_skipn; lia.
  - rewrite !map_map.
    rewrite <- (@stretches_concat _ step words
                  ((List.length words + step - 1) / step))
      at 2 by now apply range_step_covers.
    f_equal; apply map_ext_in; intros k Hk; apply in_seq in Hk.
    pose proof (@range_step_bounds (List.length words) step k Hs1
                  ltac:(lia)) as Hlt.
    rewrite chunk_of_window by (auto; lia).
    rewrite firstn_firstn; f_equal; lia.
Qed.

Lemma Chunker_fixed_covers_witness :
  (1 <= 4)%Z /\ (0 <= 1)%Z /\
  Chunker__fixed 4 1 seven_words
  = [str "perovskite solar cells reach"; str "reach twenty five percent";
     str "percent"] /\
  List.concat
    (List.map (fun chunk => firstn (chunk_step 4 1) (split_ws [] chunk))
       (Chunker__fixed 4 1 seven_words))
  = split_ws [] seven_words.
Proof.
  split; [lia|]; split; [lia|]; split; [vm_compute; reflexivity|].
  apply (@Chunker_fixed_covers 4%Z 1%Z seven_words); lia.
Defined.

(* ================================================================== *)
(** ** What the classification stage logs *)
(* ================================================================== *)

Lemma count_events_app p a b :
  count_events p (a ++ b) = (count_events p a + count_events p b)%nat.
Proof. unfold count_events; now rewrite filter_app, length_app. Qed.

Lemma duration_of_classification_record item label raw prompt duration :
  Dict.get (classification_record item label raw prompt duration)
    (str "duration") = Some duration.
Proof.
  unfold classification_record, extend.
  rewrite get_update by reflexivity; reflexivity.
Qed.

Lemma without_duration_record item label raw prompt duration :
  without_duration (classification_record item label raw prompt duration)
  = match duration with PNone => true | _ => false end.
Proof.
  unfold without_duration; now rewrite duration_of_classification_record.
Qed.

Lemma log_base_prompt_cases logged base log log' :
  log_base_prompt logged base log = Ok log' ->
  log' = log ++ (if logged then [] else [BasePrompt base]).
Proof.
  unfold log_base_prompt; destruct logged; intro H.
  - inversion H; now rewrite app_nil_r.
  - now apply write_cases in H as [_ ->].
Qed.

Lemma log_debug_cases debug idx prompt raw log log' :
  log_debug debug idx prompt raw log = Ok log' ->
  log' = log ++ (if debug then [DebugPrompt idx prompt; DebugRaw idx raw]
                 else []).
Proof.
  unfold log_debug; destruct debug; intro H.
  - step H l E; apply write_cases in E as [_ ->].
    apply write_cases in H as [_ ->]; now rewrite <- app_assoc.
  - inversion H; now rewrite app_nil_r.
Qed.

Lemma Classifier_loop_log max_depth self llm :
  forall todo idx st st',
    Classifier_loop max_depth self llm idx todo st = Ok st' ->
    exists added recs,
      cls_log st' = cls_log st ++ added /\
      full st' = full st ++ recs /\
      cls_logged st' = cls_logged st || nonempty_list todo /\
      count_events is_base_prompt added
      = (if cls_logged st || negb (nonempty_list todo) then 0 else 1)%nat /\
      count_events is_debug added
      = (if debug_io self then 2 * List.length todo else 0)%nat /\
      count_events is_failure added
      = List.length (List.filter without_duration recs).
Proof.
  induction todo as [|item todo IH]; cbn [Classifier_loop]; intros idx st st' H.
  - inversion H; subst; exists [], []; rewrite !app_nil_r, orb_false_r.
    cbn [nonempty_list negb]; rewrite orb_true_r.
    repeat split; now destruct (debug_io self).
  - step H text Et.
    set (prompt := item_prompt (base_prompt self) text) in *.
    step H log El. step H answer Ea.
    destruct answer as [[raw duration] log1].
    step H log2 Ed. step H parsed Ep. step H label Elab. step H checked Ec.
    destruct checked as [label' log3].
    apply log_base_prompt_cases in El; apply log_debug_cases in Ed.
    apply IH in H as (added & recs & Hlog & Hfull & Hlogged & Hb & Hd & Hf).
    cbn [cls_log full cls_logged orb] in Hlog, Hfull, Hlogged, Hb.
    apply Classifier_try_cases in Ea
      as [(seconds & _ & -> & ->)|(message & _ & -> & -> & _ & ->)];
      apply force_label_cases in Ec as [(_ & -> & ->)|(_ & -> & _ & ->)];
      subst log2 log;
      rewrite <- ?app_assoc in Hlog; rewrite <- app_assoc in Hfull;
      (eexists; eexists; split; [exact Hlog|]; split; [exact Hfull|]);
      cbn [nonempty_list negb]; rewrite orb_true_r, orb_false_r;
      (split; [exact Hlogged|]);
      rewrite !count_events_app, Hb, Hd, Hf;
      cbn [app filter]; rewrite without_duration_record;
      destruct (cls_logged st), (debug_io self);
      cbn [count_events filter is_base_prompt is_debug is_failure List.length
             app];
      repeat split; lia.
Qed.

(** X27. What a call of [Classifier.predict] that returns has logged, and
    what it leaves in the object: the flag [prompt_logged] is set as soon
    as one item was processed and is never cleared; the BASE PROMPT line
    is written once, with the first item, and only if the flag was not set
    before the call (so never again by a later call on the same object);
    the two debug lines per item are written exactly when [debug_io] is
    on; and there is one "inference failed" line for each returned record
    whose duration is [None]. *)
Theorem Classifier_run_log max_depth self llm dataset out self' log :
  Classifier_run max_depth self llm dataset = Ok (out, self', log) ->
  prompt_logged self' = prompt_logged self || nonempty_list dataset /\
  count_events is_base_prompt log
  = (if prompt_logged self || negb (nonempty_list dataset) then 0 else 1)%nat /\
  count_events is_debug log
  = (if debug_io self then 2 * List.length dataset else 0)%nat /\
  count_events is_failure log
  = List.length (List.filter without_duration (fst (fst out))).
Proof.
  unfold Classifier_run; intros H.
  destruct (Classifier_loop _ _ _ _ _ _) as [st|e] eqn:E; cbn [bind] in H;
    [|discriminate].
  apply Classifier_loop_log in E
    as (added & recs & Hlog & Hfull & Hlogged & Hb & Hd & Hf).
  cbn [cls_log full cls_logged app] in Hlog, Hfull, Hlogged, Hb.
  inversion H; subst out self' log; clear H.
  cbn [prompt_logged fst]; rewrite Hlog, Hfull.
  change (PhaseStarted (str "classification") (List.length dataset) :: added)
    with ([PhaseStarted (str "classification") (List.length dataset)]
            ++ added).
  rewrite !count_events_app, Hb, Hd, Hf.
  cbn [count_events filter is_base_prompt is_debug is_failure List.length].
  repeat split; try lia; exact Hlogged.
Qed.

Lemma Classifier_run_log_witness :
  exists out self' log,
    Classifier_run 1000 debug_stage demo_llm demo_paragraphs
    = Ok (out, self', log) /\
    prompt_logged self' = true /\
    count_events is_base_prompt log = 1%nat /\
    count_events is_debug log = 4%nat /\
    count_events is_failure log = 1%nat /\
    List.length (List.filter without_duration (fst (fst out))) = 1%nat.
Proof.
  destruct (Classifier_run 1000 debug_stage demo_llm demo_paragraphs)
    as [[[out self'] log]|e] eqn:E.
  - exists out, self', log; split; [reflexivity|].
    destruct (@Classifier_run_log 1000 debug_stage demo_llm demo_paragraphs
                out self' log E) as (L & B & D & F).
    repeat split; [exact L | exact B | exact D | | ].
    + rewrite F; vm_compute in E; inversion E; reflexivity.
    + vm_compute in E; inversion E; reflexivity.
  - vm_compute in E; discriminate.
Defined.

(* ================================================================== *)
(** ** The two strategies under one template *)
(* ================================================================== *)

Lemma escape_char_ascii c :
  (c <=? 126) = true -> escape_char true c = escape_char false c.
Proof.
  intro H; unfold escape_char.
  replace (126 <? c) with false by (symmetry; apply N.ltb_ge; now apply N.leb_le).
  reflexivity.
Qed.

Lemma encode_basestring_ascii s :
  ascii_str s = true -> encode_basestring true s = encode_basestring false s.
Proof.
  unfold encode_basestring, ascii_str; intro H; do 2 f_equal.
  induction s as [|c s IH]; [reflexivity|].
  cbn [forallb flat_map] in *; apply andb_true_iff in H as [Hc Hs].
  now rewrite escape_char_ascii, IH.
Qed.

Lemma encode_ascii float_repr indent :
  forall v, ascii_only v = true ->
  forall level,
    encode float_repr indent true level v
    = encode float_repr indent false level v.
Proof.
  induction v as [| b | z | f | s | l IH | d IH] using pyval_induction;
    intros H level; try reflexivity.
  - cbn [encode]; now apply encode_basestring_ascii.
  - destruct l as [|x l]; [reflexivity|].
    assert (M : List.map (encode float_repr indent true (S level)) (x :: l)
                = List.map (encode float_repr indent false (S level))
                    (x :: l)).
    { apply map_ext_in; intros y Hy.
      rewrite Forall_forall in IH; apply IH; [exact Hy|].
      cbn [ascii_only] in H; rewrite forallb_forall in H; now apply H. }
    cbn [encode]; now rewrite M.
  - destruct d as [|kv d]; [reflexivity|].
    assert (M : List.map
                  (fun kv =>
                     encode_basestring true (fst kv) ++ [COLON; SP]
                     ++ encode float_repr indent true (S level) (snd kv))
                  (kv :: d)
                = List.map
                    (fun kv =>
                       encode_basestring false (fst kv) ++ [COLON; SP]
                       ++ encode float_repr indent false (S level) (snd kv))
                    (kv :: d)).
    { apply map_ext_in; intros y Hy.
      rewrite Forall_forall in IH.
      cbn [ascii_only] in H; rewrite forallb_forall in H.
      apply H in Hy as Ha; apply andb_true_iff in Ha as [Hk Hv].
      now rewrite (IH y Hy Hv), (encode_basestring_ascii _ Hk). }
    cbn [encode]; now rewrite M.
Qed.

Lemma build_sections_ext float_repr container_repr values values' ph :
  (forall key,
      _wrap float_repr container_repr key
        (py_or (get_or_none values key) (get_or_none ph key))
      = _wrap float_repr container_repr key
          (py_or (get_or_none values' key) (get_or_none ph key))) ->
  forall order sections,
    build_sections float_repr container_repr values ph order sections
    = build_sections float_repr container_repr values' ph order sections.
Proof.
  intros H; induction order as [|key order IH]; intro sections;
    [reflexivity|].
  cbn [build_sections]; rewrite H.
  destruct (_wrap _ _ key _) as [part|e]; cbn [bind]; [apply IH|reflexivity].
Qed.

Lemma select_examples_legacy ph e :
  truthy (get_or_none ph (str "EXAMPLES")) = false ->
  truthy (get_or_none ph (str "examples")) = false ->
  Dict.get ph (str "EXAMPLE") = Some (PList e) ->
  e <> [] ->
  FewShot__select_examples ph = Ok (PList e).
Proof.
  intros H1 H2 H3 He; unfold FewShot__select_examples, py_or.
  rewrite H1, H2; unfold get_or_none; rewrite H3.
  destruct e; [contradiction|reflexivity].
Qed.

Lemma setdefault_present values k v x :
  Dict.get values k = Some x -> setdefault values k v = values.
Proof. intro H; unfold setdefault; now rewrite H. Qed.

Lemma _wrap_few_zero float_repr container_repr ph l items d e key :
  get_default ph (str "INSTRUCTIONS") (PList []) = PList l ->
  str_items l = Ok items ->
  Dict.get ph (str "SCHEMAS") = Some (PDict d) ->
  d <> [] ->
  ascii_only (PDict d) = true ->
  Dict.get ph (str "EXAMPLE") = Some (PList e) ->
  e <> [] ->
  _wrap float_repr container_repr key
    (py_or
       (get_or_none
          [(str "PERSONA", get_default ph (str "PERSONA") (PStr []));
           (str "TASK", get_default ph (str "TASK") (PStr []));
           (str "INSTRUCTIONS", PStr (join [LF] items));
           (str "SCHEMAS",
            PStr (dumps float_repr (Some 2%nat) true
                    (get_default ph (str "SCHEMAS") (PDict []))));
           (str "EXAMPLE",
            PStr (dumps float_repr (Some 2%nat) false (PList e)))] key)
       (get_or_none ph key))
  = _wrap float_repr container_repr key
      (py_or
         (get_or_none
            [(str "PERSONA", get_default ph (str "PERSONA") (PStr []));
             (str "TASK", get_default ph (str "TASK") (PStr []));
             (str "INSTRUCTIONS", PList l);
             (str "SCHEMAS", get_default ph (str "SCHEMAS") (PDict []))] key)
         (get_or_none ph key)).
Proof.
  intros HI Hitems HS Hd Hascii HE He.
  unfold get_or_none at 1 3; cbn [Dict.get].
  destruct (str_eqb (str "PERSONA") key) eqn:E1; [reflexivity|].
  destruct (str_eqb (str "TASK") key) eqn:E2; [reflexivity|].
  destruct (str_eqb (str "INSTRUCTIONS") key) eqn:E3.
  { apply str_eqb_eq in E3; subst key; clear E1 E2.
    destruct l as [|x l'].
    - inversion Hitems; subst items; reflexivity.
    - assert (G : get_or_none ph (str "INSTRUCTIONS") = PList (x :: l')).
      { unfold get_default in HI; unfold get_or_none.
        destruct (Dict.get ph (str "INSTRUCTIONS")); [exact HI|discriminate]. }
      rewrite G.
      transitivity (@Ok pystr (join [LF] items)).
      + destruct (join [LF] items) as [|c s] eqn:J.
        * unfold py_or; cbn [truthy].
          unfold _wrap; rewrite str_eqb_refl, Hitems; cbn [bind].
          now rewrite J.
        * reflexivity.
      + unfold py_or; cbn [truthy].
        unfold _wrap; rewrite str_eqb_refl, Hitems; reflexivity. }
  destruct (str_eqb (str "SCHEMAS") key) eqn:E4.
  { apply str_eqb_eq in E4; subst key; clear E1 E2 E3.
    unfold get_default; rewrite HS.
    unfold dumps; rewrite (encode_ascii float_repr (Some 2%nat) _ Hascii 0).
    destruct d as [|kv d']; [contradiction|reflexivity]. }
  destruct (str_eqb (str "EXAMPLE") key) eqn:E5; [|reflexivity].
  apply str_eqb_eq in E5; subst key; clear E1 E2 E3 E4.
  unfold get_or_none; rewrite HE.
  destruct e as [|x e']; [contradiction|reflexivity].
Qed.

(** X28.  Which strategy class builds the prompt makes no difference for a
    well-formed schema; only the template does.  For a schema whose
    INSTRUCTIONS are a list of strings (or absent), whose SCHEMAS are a
    non-empty [dict] without characters above [~], and whose examples are
    a non-empty list under the key EXAMPLE, the few-shot and the zero-shot
    strategy build the same prompt from the same list of placeholders,
    whatever that list is: in particular the zero-shot strategy prints the
    examples whenever the template names EXAMPLE. *)
Theorem strategies_differ_by_template float_repr container_repr
    ph order l items d e :
  get_default ph (str "INSTRUCTIONS") (PList []) = PList l ->
  str_items l = Ok items ->
  Dict.get ph (str "SCHEMAS") = Some (PDict d) ->
  d <> [] ->
  ascii_only (PDict d) = true ->
  truthy (get_or_none ph (str "EXAMPLES")) = false ->
  truthy (get_or_none ph (str "examples")) = false ->
  Dict.get ph (str "EXAMPLE") = Some (PList e) ->
  e <> [] ->
  Prompter_build float_repr container_repr (prompter_of FewShot ph order)
  = Prompter_build float_repr container_repr (prompter_of ZeroShot ph order).
Proof.
  intros HI Hitems HS Hd Hascii H1 H2 HE He.
  unfold Prompter_build, prompter_of.
  cbn [_ph _strategy _order placeholder_values].
  rewrite (select_examples_legacy _ H1 H2 HE He), HI.
  cbn [bind join_lines]; rewrite Hitems; cbn [bind].
  rewrite !(@setdefault_present _ (str "TASK") _
              (get_default ph (str "TASK") (PStr []))) by reflexivity.
  rewrite (@build_sections_ext float_repr container_repr _ _ ph
             (fun key => @_wrap_few_zero float_repr container_repr ph l items
                           d e key HI Hitems HS Hd Hascii HE He)).
  reflexivity.
Qed.

Lemma strategies_differ_by_template_witness :
  get_default example_schema (str "INSTRUCTIONS") (PList [])
  = PList [PStr (str "a"); PStr (str "b")] /\
  ascii_only (PDict [(str "f", PStr (str "desc"))]) = true /\
  Prompter_build (fun _ => []) (fun _ => [])
    (prompter_of FewShot example_schema few_shot_order)
  = Prompter_build (fun _ => []) (fun _ => [])
      (prompter_of ZeroShot example_schema few_shot_order).
Proof.
  split; [reflexivity|]; split; [reflexivity|].
  apply (@strategies_differ_by_template (fun _ => []) (fun _ => [])
           example_schema few_shot_order
           [PStr (str "a"); PStr (str "b")] [str "a"; str "b"]
           [(str "f", PStr (str "desc"))]
           [PDict [(str "f", PStr (str "25 percent"))]]);
    try reflexivity; discriminate.
Defined.

(* ================================================================== *)
(** ** The configuration file and the command line *)
(* ================================================================== *)

Lemma get_override cli_args :
  forall config k,
    unique_keys cli_args = true ->
    Dict.get (override config cli_args) k
    = match Dict.get cli_args k with
      | Some PNone | None => Dict.get config k
      | Some v => Some v
      end.
Proof.
  unfold override.
  induction cli_args as [|[k' v'] cli_args IH]; intros config k U;
    [reflexivity|].
  cbn [unique_keys] in U; apply andb_true_iff in U as [Uk U].
  apply negb_true_iff in Uk.
  cbn [fold_left fst snd Dict.get]; rewrite IH by exact U.
  destruct (str_eqb k' k) eqn:E.
  - apply str_eqb_eq in E; subst k'.
    rewrite (get_fresh _ _ Uk).
    destruct v'; try reflexivity; now rewrite get_set_same.
  - destruct v'; rewrite ?(@get_set_other _ _ _ _ E); reflexivity.
Qed.

(** X29.  How [run_pipeline.py] combines the configuration file with the
    command line.  An option that was given replaces the value of the file
    under the option's own name, one that was not given leaves it alone.
    The two options with a default always replace the file's value: a
    [debug_io] or [num_exem] written in the file is never used.  No option
    writes the keys [parser], [classification_config],
    [extraction_config], [prompt_mode_classification] and
    [prompt_mode_extraction] that the script reads: they are those of the
    file, whatever the command line says ([--prompt-modecl] writes
    [prompt_modecl]).  And the script goes on exactly when the file names
    both stage configurations and the folder of PDFs comes from the file or
    from [--pdf-dir]. *)
Theorem configuration_precedence load_yaml args :
  let file := loaded load_yaml args in
  let config := override file (vars args) in
  (forall k v,
      Dict.get (vars args) k = Some v ->
      Dict.get config k
      = match v with PNone => Dict.get file k | _ => Some v end) /\
  (forall k, Dict.get (vars args) k = None ->
             Dict.get config k = Dict.get file k) /\
  Dict.get config (str "debug_io") = Some (PBool (Args.debug_io args)) /\
  Dict.get config (str "num_exem") = Some (PInt (Args.num_exem args)) /\
  (forall k, In k file_only_keys -> Dict.get config k = Dict.get file k) /\
  (configuration load_yaml args = Some config \/
   configuration load_yaml args = None) /\
  (configuration load_yaml args = Some config <->
   (Args.pdf_dir args <> None \/ Dict.get file (str "pdf_dir") <> None) /\
   Dict.get file (str "classification_config") <> None /\
   Dict.get file (str "extraction_config") <> None).
Proof.
  intros file config.
  assert (U : unique_keys (vars args) = true) by reflexivity.
  assert (G := fun k => @get_override (vars args) file k U).
  fold config in G.
  assert (F : forall k, In k file_only_keys ->
                        Dict.get config k = Dict.get file k).
  { intros k Hk; rewrite G.
    cbn [file_only_keys In] in Hk.
    repeat (destruct Hk as [Hk|Hk]; [subst k; reflexivity|]).
    contradiction. }
  split; [intros k v Hv; rewrite G, Hv; now destruct v|].
  split; [intros k Hk; now rewrite G, Hk|].
  split; [now rewrite G|].
  split; [now rewrite G|].
  split; [exact F|].
  unfold configuration; fold file; fold config.
  unfold missing_params, required_params; cbn [filter].
  rewrite (F (str "classification_config")) by (cbn [file_only_keys In]; auto).
  rewrite (F (str "extraction_config")) by (cbn [file_only_keys In]; auto).
  assert (P : Dict.get config (str "pdf_dir")
              = match Args.pdf_dir args with
                | Some s => Some (PStr s)
                | None => Dict.get file (str "pdf_dir")
                end)
    by (rewrite G; unfold vars; destruct (Args.pdf_dir args); reflexivity).
  rewrite P.
  destruct (Args.pdf_dir args) as [s|];
    destruct (Dict.get file (str "pdf_dir"));
    destruct (Dict.get file (str "classification_config"));
    destruct (Dict.get file (str "extraction_config"));
    cbn [filter];
    (split; [first [left; reflexivity | right; reflexivity]|]);
    (split;
     [ intros H; try discriminate H; repeat split; try discriminate;
       first [left; discriminate | right; discriminate]
     | intros (H1 & H2 & H3);
       first [ reflexivity
             | exfalso;
               first [ apply H2; reflexivity | apply H3; reflexivity
                     | destruct H1 as [H1|H1]; apply H1; reflexivity ] ] ]).
Qed.

Lemma configuration_precedence_witness :
  exists config,
    configuration (fun _ => demo_file) demo_args = Some config /\
    Dict.get config (str "debug_io") = Some (PBool false) /\
    Dict.get config (str "prompt_mode_classification")
    = Some (PStr (str "zero")) /\
    Dict.get config (str "prompt_modecl") = Some (PStr (str "few")).
Proof.
  pose proof (configuration_precedence (fun _ => demo_file) demo_args) as H.
  cbv zeta in H; destruct H as (A & _ & D & _ & F & _ & R).
  eexists; split; [apply R|split; [exact D|split]].
  - repeat split; try discriminate; right; discriminate.
  - rewrite F by (cbn [file_only_keys In]; auto); reflexivity.
  - rewrite (A (str "prompt_modecl") (PStr (str "few"))) by reflexivity.
    reflexivity.
Defined.
